(** * Raster pipeline of [fetch-satellite/index.ts]

    A shallow embedding of the TIFF reader, the LZW decompressor, the
    fallback scanner, the NDVI mask generator and the BMP writer of
    [supabase/functions/fetch-satellite/index.ts], and of the string
    helpers of its two request handlers, followed by the properties
    established about them.

    Conventions of the embedding:
    - JavaScript numbers that the code only uses as integers are [Z];
    - an [ArrayBuffer] / [Uint8Array] is a [list byte];
    - a [Float32Array] is a [list spec_float] whose elements are binary32
      values; arithmetic is done in binary64 as the language does, and a
      store into the array rounds to binary32;
    - a function that may throw returns an [outcome]. *)

From Stdlib Require Import ZArith Lia Bool List.
From Stdlib Require Import Strings.String Strings.Ascii.
From Stdlib Require Import Floats.SpecFloat.
From coqutil Require Import Byte Z.bitblast Word.LittleEndianList.
From stdpp Require Import base list.

Local Open Scope Z_scope.

(** ** Thrown errors and outcomes *)

Inductive js_error : Type :=
| Error (msg : string)   (* [throw new Error(msg)] *)
| RangeError             (* access outside a DataView, bad array length,
                            more arguments than the engine takes *)
| TypeError.             (* spreading or indexing [undefined] *)

(** [Diverged] is the embedding's own: a loop that used up its fuel. *)
Inductive outcome (A : Type) : Type :=
| Returned (a : A)
| Threw (e : js_error)
| Diverged.

Arguments Returned {A} a.
Arguments Threw {A} e.
Arguments Diverged {A}.

Definition bind {A B : Type} (m : outcome A) (k : A -> outcome B) : outcome B :=
  match m with
  | Returned a => k a
  | Threw e => Threw e
  | Diverged => Diverged
  end.

Notation "x <- m ;; k" := (bind m (fun x => k))
  (at level 100, m at next level, right associativity).

Definition returns {A : Type} (m : outcome A) : Prop := exists a, m = Returned a.

Definition throws {A : Type} (m : outcome A) : Prop := exists e, m = Threw e.

(** ** Counted loops *)

(** [for (let i = i0; i < i0 + n; i++) s = body(i, s)] *)
Fixpoint for_range {St : Type} (n : nat) (i : Z) (body : Z -> St -> St) (s : St) : St :=
  match n with
  | O => s
  | S n' => for_range n' (i + 1) body (body i s)
  end.

(** ** 32-bit integer operators *)

Definition to_int32 (z : Z) : Z := (z + 2 ^ 31) mod 2 ^ 32 - 2 ^ 31.

Definition to_uint32 (z : Z) : Z := z mod 2 ^ 32.

(** [a << n], [a >> n], [a | b], [a & b] *)
Definition js_shl (a n : Z) : Z := to_int32 (Z.shiftl (to_int32 a) (n mod 32)).
Definition js_sar (a n : Z) : Z := Z.shiftr (to_int32 a) (n mod 32).
Definition js_or (a b : Z) : Z := Z.lor (to_int32 a) (to_int32 b).
Definition js_and (a b : Z) : Z := Z.land (to_int32 a) (to_int32 b).

(** [Math.ceil(a / b)] for integers [a] and positive [b]. *)
Definition ceil_div (a b : Z) : Z := - ((- a) / b).

(** ** Byte buffers and DataView *)

(** [buf[i]] where a read outside the array gives [undefined]. *)
Definition u8_get (buf : list byte) (i : Z) : option Z :=
  if i <? 0 then None else byte.unsigned <$> (buf !! Z.to_nat i).

(** [undefined] used as an integer operand or stored into a typed array is 0. *)
Definition or_zero (v : option Z) : Z := default 0 v.

Definition byteLength (buf : list byte) : Z := Z.of_nat (length buf).

(** The [n] bytes from [off]; zeros stand for bytes past the end, which the
    accessors below never reach. *)
Definition bytes_at (buf : list byte) (off : Z) (n : nat) : list byte :=
  (fun k => byte.of_Z (or_zero (u8_get buf (off + Z.of_nat k)))) <$> seq 0 n.

Definition in_view (buf : list byte) (off : Z) (n : Z) : bool :=
  (0 <=? off) && (off + n <=? byteLength buf).

Definition combine_bytes (littleEndian : bool) (bs : list byte) : Z :=
  le_combine (if littleEndian then bs else rev bs).

Definition getUint8 (buf : list byte) (off : Z) : outcome Z :=
  if in_view buf off 1 then Returned (combine_bytes true (bytes_at buf off 1))
  else Threw RangeError.

Definition getUint16 (buf : list byte) (off : Z) (littleEndian : bool) : outcome Z :=
  if in_view buf off 2 then Returned (combine_bytes littleEndian (bytes_at buf off 2))
  else Threw RangeError.

Definition getUint32 (buf : list byte) (off : Z) (littleEndian : bool) : outcome Z :=
  if in_view buf off 4 then Returned (combine_bytes littleEndian (bytes_at buf off 4))
  else Threw RangeError.

Definition to_int16 (z : Z) : Z := (z + 2 ^ 15) mod 2 ^ 16 - 2 ^ 15.

Definition getInt16 (buf : list byte) (off : Z) (littleEndian : bool) : outcome Z :=
  if in_view buf off 2
  then Returned (to_int16 (combine_bytes littleEndian (bytes_at buf off 2)))
  else Threw RangeError.

Definition getInt32 (buf : list byte) (off : Z) (littleEndian : bool) : outcome Z :=
  if in_view buf off 4
  then Returned (to_int32 (combine_bytes littleEndian (bytes_at buf off 4)))
  else Threw RangeError.

(** Writing [bs] over the bytes from [off] on. *)
Fixpoint write_bytes (buf : list byte) (off : nat) (bs : list byte) : list byte :=
  match bs with
  | [] => buf
  | b :: bs' => write_bytes (<[off := b]> buf) (S off) bs'
  end.

Definition split_bytes (littleEndian : bool) (n : nat) (v : Z) : list byte :=
  if littleEndian then le_split n v else rev (le_split n v).

Definition setUint16 (buf : list byte) (off : Z) (v : Z) (littleEndian : bool)
  : outcome (list byte) :=
  if in_view buf off 2
  then Returned (write_bytes buf (Z.to_nat off) (split_bytes littleEndian 2 v))
  else Threw RangeError.

Definition setUint32 (buf : list byte) (off : Z) (v : Z) (littleEndian : bool)
  : outcome (list byte) :=
  if in_view buf off 4
  then Returned (write_bytes buf (Z.to_nat off) (split_bytes littleEndian 4 v))
  else Threw RangeError.

(** Two's complement: the same four bytes as [setUint32]. *)
Definition setInt32 (buf : list byte) (off : Z) (v : Z) (littleEndian : bool)
  : outcome (list byte) :=
  setUint32 buf off v littleEndian.

(** [new Uint8Array(n)] *)
Definition new_Uint8Array (n : Z) : outcome (list byte) :=
  if n <? 0 then Threw RangeError else Returned (replicate (Z.to_nat n) Byte.x00).

(** [arr[i] = v] on a typed array: a write outside the array is dropped. *)
Definition u8_set (buf : list byte) (i : Z) (v : Z) : list byte :=
  if i <? 0 then buf else <[Z.to_nat i := byte.of_Z v]> buf.

(** ** Floating point *)

Module F64.
Definition prec : Z := 53.
Definition emax : Z := 1024.
Definition of_Z (z : Z) : spec_float := binary_normalize prec emax z 0 false.
Definition add : spec_float -> spec_float -> spec_float := SFadd prec emax.
Definition sub : spec_float -> spec_float -> spec_float := SFsub prec emax.
Definition mul : spec_float -> spec_float -> spec_float := SFmul prec emax.
Definition div : spec_float -> spec_float -> spec_float := SFdiv prec emax.
Definition ltb : spec_float -> spec_float -> bool := SFltb.
Definition leb : spec_float -> spec_float -> bool := SFleb.
(** [x > y] and [x >= y] *)
Definition gtb (x y : spec_float) : bool := SFltb y x.
Definition geb (x y : spec_float) : bool := SFleb y x.
Definition zero : spec_float := S754_zero false.
Definition nan : spec_float := S754_nan.
Definition is_finite (x : spec_float) : bool :=
  match x with
  | S754_zero _ | S754_finite _ _ _ => true
  | _ => false
  end.
(** The literals of the source, as the nearest binary64 values. *)
Definition lit_0_6 : spec_float := S754_finite false 5404319552844595 (-53).
Definition lit_0_4 : spec_float := S754_finite false 7205759403792794 (-54).
Definition lit_0_3 : spec_float := S754_finite false 5404319552844595 (-54).
Definition lit_0_2 : spec_float := S754_finite false 7205759403792794 (-55).
Definition lit_m0_1 : spec_float := S754_finite true 7205759403792794 (-56).
End F64.

Module F32.
Definition prec : Z := 24.
Definition emax : Z := 128.
(** Rounding a binary64 value to binary32, as a store into a
    [Float32Array] does. *)
Definition round (x : spec_float) : spec_float :=
  match x with
  | S754_finite s m e => binary_normalize prec emax (cond_Zopp s (Zpos m)) e s
  | _ => x
  end.
(** Reading an element back as a number: exact. *)
Definition to_f64 (x : spec_float) : spec_float :=
  match x with
  | S754_finite s m e => binary_normalize F64.prec F64.emax (cond_Zopp s (Zpos m)) e s
  | _ => x
  end.
End F32.

(** [new Float32Array(n)] *)
Definition new_Float32Array (n : Z) : list spec_float :=
  replicate (Z.to_nat n) F64.zero.

(** [arr[i]] on a [Float32Array], used as a number: [undefined] past the
    end becomes NaN in arithmetic. *)
Definition f32_get (arr : list spec_float) (i : Z) : spec_float :=
  if i <? 0 then F64.nan
  else match arr !! Z.to_nat i with
       | Some x => F32.to_f64 x
       | None => F64.nan
       end.

(** [arr[i] = x] on a [Float32Array] *)
Definition f32_set (arr : list spec_float) (i : Z) (x : spec_float) : list spec_float :=
  if i <? 0 then arr else <[Z.to_nat i := F32.round x]> arr.

(** [int16Val / 10000] *)
Definition reflectance (int16Val : Z) : spec_float :=
  F64.div (F64.of_Z int16Val) (F64.of_Z 10000).

(** The same loop with a body that may throw. *)
Fixpoint for_rangeM {St : Type} (n : nat) (i : Z) (body : Z -> St -> outcome St) (s : St)
  : outcome St :=
  match n with
  | O => Returned s
  | S n' => s' <- body i s ;; for_rangeM n' (i + 1) body s'
  end.

(** ** [createBMP] *)

(** One turn of the inner loop: the pixel at column [x] of row [y]. *)
Definition bmp_pixel (rgba : list byte) (width y x : Z) (st : list byte * Z)
  : list byte * Z :=
  let '(bmp, offset) := st in
  let srcIdx := (y * width + x) * 4 in
  let bmp := u8_set bmp offset (or_zero (u8_get rgba (srcIdx + 2))) in (* B *)
  let offset := offset + 1 in
  let bmp := u8_set bmp offset (or_zero (u8_get rgba (srcIdx + 1))) in (* G *)
  let offset := offset + 1 in
  let bmp := u8_set bmp offset (or_zero (u8_get rgba srcIdx)) in       (* R *)
  let offset := offset + 1 in
  let bmp := u8_set bmp offset (or_zero (u8_get rgba (srcIdx + 3))) in (* A *)
  let offset := offset + 1 in
  (bmp, offset).

Definition bmp_rows (rgba : list byte) (width height : Z) (st : list byte * Z)
  : list byte * Z :=
  for_range (Z.to_nat height) 0
    (fun y => for_range (Z.to_nat width) 0 (bmp_pixel rgba width y)) st.

Definition createBMP (rgba : list byte) (width height : Z) : outcome (list byte) :=
  let rowSize := ceil_div (width * 4) 4 * 4 in
  let imageSize := rowSize * height in
  let fileSize := 54 + imageSize in
  bmp <- new_Uint8Array fileSize ;;
  let bmp := u8_set bmp 0 66 in                    (* 'B' *)
  let bmp := u8_set bmp 1 77 in                    (* 'M' *)
  bmp <- setUint32 bmp 2 fileSize true ;;
  bmp <- setUint32 bmp 10 54 true ;;
  bmp <- setUint32 bmp 14 40 true ;;
  bmp <- setInt32 bmp 18 width true ;;
  bmp <- setInt32 bmp 22 (- height) true ;;
  bmp <- setUint16 bmp 26 1 true ;;
  bmp <- setUint16 bmp 28 32 true ;;
  bmp <- setUint32 bmp 30 0 true ;;
  bmp <- setUint32 bmp 34 imageSize true ;;
  bmp <- setUint32 bmp 38 2835 true ;;
  bmp <- setUint32 bmp 42 2835 true ;;
  Returned (fst (bmp_rows rgba width height (bmp, 54))).

(** ** Binary strings and [btoa] *)

(** A binary string has one character per byte. [btoa] writes it in
    base64: three bytes give four digits of the alphabet [A-Z], [a-z],
    [0-9], [+], [/], and a last group of one or two bytes is padded with
    [=]. *)
Definition base64_digit (n : Z) : ascii :=
  if n <? 26 then ascii_of_N (Z.to_N (65 + n))
  else if n <? 52 then ascii_of_N (Z.to_N (97 + (n - 26)))
  else if n <? 62 then ascii_of_N (Z.to_N (48 + (n - 52)))
  else if n =? 62 then "+"%char
  else "/"%char.

Fixpoint base64_of_bytes (bytes : list byte) : string :=
  match bytes with
  | [] => EmptyString
  | [a] =>
      let a := byte.unsigned a in
      String (base64_digit (Z.shiftr a 2))
        (String (base64_digit (Z.shiftl (Z.land a 3) 4)) "=="%string)
  | [a; b] =>
      let a := byte.unsigned a in
      let b := byte.unsigned b in
      String (base64_digit (Z.shiftr a 2))
        (String (base64_digit (Z.lor (Z.shiftl (Z.land a 3) 4) (Z.shiftr b 4)))
           (String (base64_digit (Z.shiftl (Z.land b 15) 2)) "="%string))
  | a :: b :: c :: bytes' =>
      let a := byte.unsigned a in
      let b := byte.unsigned b in
      let c := byte.unsigned c in
      String (base64_digit (Z.shiftr a 2))
        (String (base64_digit (Z.lor (Z.shiftl (Z.land a 3) 4) (Z.shiftr b 4)))
           (String (base64_digit (Z.lor (Z.shiftl (Z.land b 15) 2) (Z.shiftr c 6)))
              (String (base64_digit (Z.land c 63)) (base64_of_bytes bytes'))))
  end.

Definition btoa (binary : string) : string :=
  base64_of_bytes (list_byte_of_string binary).

(** ** [generateNdviMask] *)

(** What [generateNdviMask] hands back. *)
Record ndvi_result : Type := {
  maskDataUrl : string;
  forestPercentage : spec_float
}.

(** One turn of the first loop. *)
Definition ndvi_pixel (b04Data b08Data : list spec_float) (i : Z)
  (st : list spec_float * Z) : list spec_float * Z :=
  let '(ndvi, forestPixels) := st in
  let red := f32_get b04Data i in
  let nir := f32_get b08Data i in
  let ndvi :=
    if F64.gtb (F64.add nir red) F64.zero
    then f32_set ndvi i (F64.div (F64.sub nir red) (F64.add nir red))
    else f32_set ndvi i F64.zero in
  let forestPixels :=
    if F64.gtb (f32_get ndvi i) F64.lit_0_3 then forestPixels + 1 else forestPixels in
  (ndvi, forestPixels).

Definition set_rgba (rgba : list byte) (idx r g b a : Z) : list byte :=
  let rgba := u8_set rgba idx r in
  let rgba := u8_set rgba (idx + 1) g in
  let rgba := u8_set rgba (idx + 2) b in
  u8_set rgba (idx + 3) a.

(** One turn of the second loop. *)
Definition classify_pixel (ndvi : list spec_float) (i : Z) (rgba : list byte)
  : list byte :=
  let idx := i * 4 in
  let val := f32_get ndvi i in
  if F64.gtb val F64.lit_0_6 then set_rgba rgba idx 0 128 0 200
  else if F64.gtb val F64.lit_0_4 then set_rgba rgba idx 34 139 34 180
  else if F64.gtb val F64.lit_0_2 then set_rgba rgba idx 144 238 144 150
  else if F64.gtb val F64.zero then set_rgba rgba idx 210 180 140 120
  else set_rgba rgba idx 65 105 225 (if F64.ltb val F64.lit_m0_1 then 150 else 50).

(** The index raster and the count of forest pixels after the first loop. *)
Definition ndvi_raster (b04Data b08Data : list spec_float) (width height : Z)
  : list spec_float * Z :=
  for_range (Z.to_nat (width * height)) 0 (ndvi_pixel b04Data b08Data)
    (replicate (Z.to_nat (width * height)) F64.zero, 0).

(** The RGBA buffer after the second loop. *)
Definition ndvi_rgba (ndvi : list spec_float) (width height : Z) : list byte :=
  for_range (Z.to_nat (width * height)) 0 (classify_pixel ndvi)
    (replicate (Z.to_nat (width * height * 4)) Byte.x00).

Section Mask.

(** The most arguments the engine takes in one call. The language fixes
    no such number; every engine has one, and a call that spreads an array
    with more elements than that throws a [RangeError]. *)
Variable argumentLimit : Z.

(** [String.fromCharCode(...bytes)] with the whole array spread as the
    arguments of the one call: one character per byte. *)
Definition fromCharCode_spread (bytes : list byte) : outcome string :=
  if byteLength bytes <=? argumentLimit then Returned (string_of_list_byte bytes)
  else Threw RangeError.

Definition generateNdviMask (b04Data b08Data : list spec_float) (width height : Z)
  : outcome ndvi_result :=
  if width * height <? 0 then Threw RangeError
  else
    let '(ndvi, forestPixels) := ndvi_raster b04Data b08Data width height in
    let rgba := ndvi_rgba ndvi width height in
    bmpData <- createBMP rgba width height ;;
    binary <- fromCharCode_spread bmpData ;;
    let base64 := btoa binary in
    Returned {| maskDataUrl := String.append "data:image/bmp;base64," base64;
                forestPercentage :=
                  F64.mul (F64.div (F64.of_Z forestPixels) (F64.of_Z (width * height)))
                          (F64.of_Z 100) |}.

End Mask.

(** ** [extractFallback] *)

(** The sampling loop over the first [min(100, totalPixels)] values. *)
Definition count_valid (buffer : list byte) (littleEndian : bool) (start : Z) (n : nat)
  : outcome Z :=
  for_rangeM n 0
    (fun i validSamples =>
       int16Val <- getInt16 buffer (start + i * 2) littleEndian ;;
       let val := reflectance int16Val in
       Returned (if F64.geb val (F64.of_Z (-1)) && F64.leb val (F64.of_Z 2)
                 then validSamples + 1 else validSamples))
    0.

(** The copying loop over all [totalPixels] values. *)
Definition fill_from (buffer : list byte) (littleEndian : bool) (start : Z) (n : nat)
  (result : list spec_float) : outcome (list spec_float) :=
  for_rangeM n 0
    (fun i result =>
       int16Val <- getInt16 buffer (start + i * 2) littleEndian ;;
       Returned (f32_set result i (reflectance int16Val)))
    result.

(** [for (const start of possibleStarts)] *)
Fixpoint scan_starts (buffer : list byte) (totalPixels : Z) (littleEndian : bool)
  (possibleStarts : list Z) (result : list spec_float) : outcome (list spec_float) :=
  match possibleStarts with
  | [] => Returned result
  | start :: rest =>
      let expectedBytes := totalPixels * 2 in
      if (0 <=? start) && (start + expectedBytes <=? byteLength buffer) then
        validSamples <-
          count_valid buffer littleEndian start (Z.to_nat (Z.min 100 totalPixels)) ;;
        if validSamples >? 80
        then fill_from buffer littleEndian start (Z.to_nat totalPixels) result
        else scan_starts buffer totalPixels littleEndian rest result
      else scan_starts buffer totalPixels littleEndian rest result
  end.

Definition possibleStarts (buffer : list byte) (totalPixels : Z) : list Z :=
  [8; 256; 512; byteLength buffer - totalPixels * 2].

Definition extractFallback (buffer : list byte) (width height : Z) (littleEndian : bool)
  : outcome (list spec_float) :=
  let totalPixels := width * height in
  if totalPixels <? 0 then Threw RangeError
  else
    let result := new_Float32Array totalPixels in
    scan_starts buffer totalPixels littleEndian (possibleStarts buffer totalPixels) result.

(** ** [decompressLZW] *)

(** A JavaScript array of byte strings, holes included. *)
Abbreviation js_array := (list (option (list byte))).

(** [arr[i]]: [None] is [undefined]. *)
Definition arr_get (arr : js_array) (i : Z) : option (list byte) :=
  if i <? 0 then None
  else match arr !! Z.to_nat i with
       | Some e => e
       | None => None
       end.

(** [arr[i] = v]: a write past the end grows the array, leaving holes. *)
Definition arr_set (arr : js_array) (i : Z) (v : list byte) : js_array :=
  if i <? 0 then arr
  else if i <? Z.of_nat (length arr) then <[Z.to_nat i := Some v]> arr
  else arr ++ replicate (Z.to_nat i - length arr) None ++ [Some v].

(** [arr.length = n] *)
Definition arr_set_length (arr : js_array) (n : Z) : js_array :=
  take (Z.to_nat n) arr ++ replicate (Z.to_nat n - length arr) None.

(** [for (let i = 0; i < 256; i++) dictionary[i] = [i]] *)
Definition seed_dictionary (dictionary : js_array) : js_array :=
  for_range 256 0 (fun i d => arr_set d i [byte.of_Z i]) dictionary.

Definition CLEAR_CODE : Z := 256.
Definition EOI_CODE : Z := 257.

Record lzw_state : Type := {
  output : list byte;
  dictionary : js_array;
  nextCode : Z;
  codeSize : Z;
  bitBuffer : Z;
  bitsInBuffer : Z;
  bytePos : Z;
  oldCode : Z
}.

Definition lzw_init (offset : Z) : lzw_state :=
  {| output := [];
     dictionary := seed_dictionary [];
     nextCode := 258;
     codeSize := 9;
     bitBuffer := 0;
     bitsInBuffer := 0;
     bytePos := offset;
     oldCode := -1 |}.

(** One turn of the loop inside [readCode]. *)
Definition fill_step (input : list byte) (st : lzw_state) : lzw_state :=
  {| output := output st;
     dictionary := dictionary st;
     nextCode := nextCode st;
     codeSize := codeSize st;
     bitBuffer := js_or (js_shl (bitBuffer st) 8) (or_zero (u8_get input (bytePos st)));
     bitsInBuffer := bitsInBuffer st + 8;
     bytePos := bytePos st + 1;
     oldCode := oldCode st |}.

(** [while (bitsInBuffer < codeSize && bytePos < endPos)]; every turn adds
    eight bits, so the number of missing bits bounds the turns. *)
Fixpoint fill_bits (fuel : nat) (input : list byte) (endPos : Z) (st : lzw_state)
  : lzw_state :=
  match fuel with
  | O => st
  | S fuel' =>
      if (bitsInBuffer st <? codeSize st) && (bytePos st <? endPos)
      then fill_bits fuel' input endPos (fill_step input st)
      else st
  end.

Definition take_bits (st : lzw_state) : lzw_state :=
  {| output := output st;
     dictionary := dictionary st;
     nextCode := nextCode st;
     codeSize := codeSize st;
     bitBuffer := bitBuffer st;
     bitsInBuffer := bitsInBuffer st - codeSize st;
     bytePos := bytePos st;
     oldCode := oldCode st |}.

Definition readCode (input : list byte) (endPos : Z) (st : lzw_state) : Z * lzw_state :=
  let st := fill_bits (Z.to_nat (codeSize st - bitsInBuffer st)) input endPos st in
  if bitsInBuffer st <? codeSize st then (EOI_CODE, st)
  else
    let st := take_bits st in
    (js_and (js_sar (bitBuffer st) (bitsInBuffer st)) (js_shl 1 (codeSize st) - 1), st).

(** The state after a clear code. *)
Definition lzw_clear (st : lzw_state) : lzw_state :=
  {| output := output st;
     dictionary := seed_dictionary (arr_set_length (dictionary st) 258);
     nextCode := 258;
     codeSize := 9;
     bitBuffer := bitBuffer st;
     bitsInBuffer := bitsInBuffer st;
     bytePos := bytePos st;
     oldCode := -1 |}.

(** [arr[0]]; on an empty array it is [undefined], which ends up as the
    byte 0 in the [Uint8Array] returned. *)
Definition first_byte (entry : list byte) : byte := hd Byte.x00 entry.

(** How the code read selects the entry to emit. *)
Inductive entry_choice : Type :=
| EntryIs (entry : list byte)
| EntryUndefined          (* the spread of [undefined] throws *)
| EntryInvalid.           (* [console.warn] and [break] *)

Definition choose_entry (st : lzw_state) (code : Z) : entry_choice :=
  if code <? Z.of_nat (length (dictionary st)) then
    match arr_get (dictionary st) code with
    | Some entry => EntryIs entry
    | None => EntryUndefined
    end
  else if (code =? nextCode st) && (oldCode st >=? 0) then
    match arr_get (dictionary st) (oldCode st) with
    | Some old => EntryIs (old ++ [first_byte old])
    | None => EntryUndefined
    end
  else EntryInvalid.

(** What one turn of the main loop does. *)
Inductive lzw_turn : Type :=
| Continue (st : lzw_state)
| Break (st : lzw_state)
| Fault (e : js_error).

(** [output.push(...entry)], then
    [if (oldCode >= 0 && nextCode < 4096) { ... }] and [oldCode = code]. *)
Definition lzw_emit (st : lzw_state) (code : Z) (entry : list byte) : lzw_turn :=
  let output' := output st ++ entry in
  if (oldCode st >=? 0) && (nextCode st <? 4096) then
    match arr_get (dictionary st) (oldCode st) with
    | None => Fault TypeError
    | Some old =>
        let dictionary' := arr_set (dictionary st) (nextCode st) (old ++ [first_byte entry]) in
        let nextCode' := nextCode st + 1 in
        let codeSize' :=
          if (nextCode' >=? js_shl 1 (codeSize st)) && (codeSize st <? 12)
          then codeSize st + 1 else codeSize st in
        Continue {| output := output';
                    dictionary := dictionary';
                    nextCode := nextCode';
                    codeSize := codeSize';
                    bitBuffer := bitBuffer st;
                    bitsInBuffer := bitsInBuffer st;
                    bytePos := bytePos st;
                    oldCode := code |}
    end
  else
    Continue {| output := output';
                dictionary := dictionary st;
                nextCode := nextCode st;
                codeSize := codeSize st;
                bitBuffer := bitBuffer st;
                bitsInBuffer := bitsInBuffer st;
                bytePos := bytePos st;
                oldCode := code |}.

Definition lzw_step (input : list byte) (endPos : Z) (st : lzw_state) : lzw_turn :=
  let '(code, st) := readCode input endPos st in
  if code =? EOI_CODE then Break st
  else if code =? CLEAR_CODE then Continue (lzw_clear st)
  else
    match choose_entry st code with
    | EntryInvalid => Break st
    | EntryUndefined => Fault TypeError
    | EntryIs entry => lzw_emit st code entry
    end.

(** [while (bytePos < endPos || bitsInBuffer >= codeSize)] *)
Definition lzw_running (endPos : Z) (st : lzw_state) : bool :=
  (bytePos st <? endPos) || (bitsInBuffer st >=? codeSize st).

Fixpoint lzw_loop (fuel : nat) (input : list byte) (endPos : Z) (st : lzw_state)
  : outcome lzw_state :=
  match fuel with
  | O => Diverged
  | S fuel' =>
      if lzw_running endPos st then
        match lzw_step input endPos st with
        | Continue st' => lzw_loop fuel' input endPos st'
        | Break st' => Returned st'
        | Fault e => Threw e
        end
      else Returned st
  end.

(** Every turn that continues has taken at least nine bits of the
    [length] bytes, so [length + 1] turns are enough. *)
Definition decompressLZW (input : list byte) (offset length : Z) : outcome (list byte) :=
  st <- lzw_loop (S (Z.to_nat length)) input (offset + length) (lzw_init offset) ;;
  Returned (output st).

(** The states at the head of the loop, in order, for the first [fuel] turns. *)
Fixpoint lzw_states (fuel : nat) (input : list byte) (endPos : Z) (st : lzw_state)
  : list lzw_state :=
  st ::
  match fuel with
  | O => []
  | S fuel' =>
      if lzw_running endPos st then
        match lzw_step input endPos st with
        | Continue st' => lzw_states fuel' input endPos st'
        | Break st' => [st']
        | Fault _ => []
        end
      else []
  end.

(** ** A reference LZW encoder *)

(** The source has a decoder only. The encoders below are the ones its
    round-trip properties are stated against: a clear code first, codes
    written most significant bit first, a table entry added after each
    code emitted, the end-of-information code last, and the widths
    following the decoder's own growth rule on the decoder's own counter.
    The first encoder, [lzw_encode], keeps one table for the whole strip
    and adds no entry once the table is full; the second,
    [lzw_encode_clearing], writes a clear code when its table is full and
    starts a new one, as the writers of TIFF files do. *)

(** The [n] low bits of [v], most significant first. *)
Fixpoint bits_of (n : nat) (v : Z) : list bool :=
  match n with
  | O => []
  | S n' => Z.testbit v (Z.of_nat n') :: bits_of n' v
  end.

(** MSB-first packing: [acc] holds the [n] bits, fewer than eight, of the
    byte being filled; the last byte is padded with zeros. *)
Fixpoint pack_bits (bits : list bool) (acc : Z) (n : nat) : list byte :=
  match bits with
  | [] => match n with
          | O => []
          | _ => [byte.of_Z (Z.shiftl acc (8 - Z.of_nat n))]
          end
  | b :: bits' =>
      let acc' := 2 * acc + Z.b2z b in
      if (n =? 7)%nat then byte.of_Z acc' :: pack_bits bits' 0 0
      else pack_bits bits' acc' (S n)
  end.

Fixpoint bytes_eqb (a b : list byte) : bool :=
  match a, b with
  | [], [] => true
  | x :: a', y :: b' => Byte.eqb x y && bytes_eqb a' b'
  | _, _ => false
  end.

(** The code of the string [s] in the table, whose first entry has the
    code [code]. *)
Fixpoint find_code (table : list (list byte)) (s : list byte) (code : Z) : option Z :=
  match table with
  | [] => None
  | entry :: table' =>
      if bytes_eqb entry s then Some code else find_code table' s (code + 1)
  end.

(** The decoder's code-size growth rule, as the writer follows it: the
    reader of the stream adds no entry for the first code after a clear
    code and none once its table is full; otherwise it adds one and widens
    the codes when its next code reaches [2 ^ codeSize], up to 12 bits. *)
Definition reader_after (first : bool) (nextCode codeSize : Z) : Z * Z :=
  if negb first && (nextCode <? 4096) then
    let nextCode' := nextCode + 1 in
    (nextCode',
     if (nextCode' >=? 2 ^ codeSize) && (codeSize <? 12) then codeSize + 1 else codeSize)
  else (nextCode, codeSize).

(** The codes for [input], each with its width, when the string [w] with
    code [wcode] has been matched so far. [table] holds the strings of the
    codes from 258 on; [first], [nextCode] and [codeSize] are the reader's
    state before it reads the code of [w]. *)
Fixpoint encode_from (input : list byte) (table : list (list byte)) (first : bool)
  (nextCode codeSize : Z) (w : list byte) (wcode : Z) : list (Z * Z) :=
  match input with
  | [] =>
      let '(_, codeSize') := reader_after first nextCode codeSize in
      [(wcode, codeSize); (EOI_CODE, codeSize')]
  | c :: input' =>
      match find_code table (w ++ [c]) 258 with
      | Some code => encode_from input' table first nextCode codeSize (w ++ [c]) code
      | None =>
          let '(nextCode', codeSize') := reader_after first nextCode codeSize in
          let table' :=
            if 258 + Z.of_nat (length table) <? 4096 then table ++ [w ++ [c]] else table in
          (wcode, codeSize)
          :: encode_from input' table' false nextCode' codeSize' [c] (byte.unsigned c)
      end
  end.

(** A clear code, the codes of the data, an end-of-information code. *)
Definition lzw_codes (data : list byte) : list (Z * Z) :=
  (CLEAR_CODE, 9)
  :: match data with
     | [] => [(EOI_CODE, 9)]
     | c :: data' => encode_from data' [] true 258 9 [c] (byte.unsigned c)
     end.

Definition code_bits (codes : list (Z * Z)) : list bool :=
  concat ((fun cw => bits_of (Z.to_nat (snd cw)) (fst cw)) <$> codes).

Definition lzw_encode (data : list byte) : list byte :=
  pack_bits (code_bits (lzw_codes data)) 0 0.

(** The stream of [lzw_encode] without its end-of-information code. *)
Definition lzw_encode_open (data : list byte) : list byte :=
  pack_bits (code_bits (removelast (lzw_codes data))) 0 0.

(** Several runs of data in one stream: each run behind a clear code
    written with the width in force, one end-of-information code last. *)
Fixpoint lzw_codes_runs (width : Z) (runs : list (list byte)) : list (Z * Z) :=
  match runs with
  | [] => [(EOI_CODE, width)]
  | data :: runs' =>
      let codes := tl (lzw_codes data) in
      (CLEAR_CODE, width)
      :: removelast codes ++ lzw_codes_runs (snd (List.last codes (EOI_CODE, width))) runs'
  end.

Definition lzw_encode_runs (runs : list (list byte)) : list byte :=
  pack_bits (code_bits (lzw_codes_runs 9 runs)) 0 0.

(** The encoder that clears its table. It goes like [encode_from] until
    the string [w ++ [c]] is new and the table has no room for it, with
    all the codes up to 4095 taken: then it writes the code of [w], a clear
    code with the width then in force, and goes on from [c] with an empty
    table and codes of 9 bits. *)
Fixpoint encode_clearing (input : list byte) (table : list (list byte)) (first : bool)
  (nextCode codeSize : Z) (w : list byte) (wcode : Z) : list (Z * Z) :=
  match input with
  | [] =>
      let '(_, codeSize') := reader_after first nextCode codeSize in
      [(wcode, codeSize); (EOI_CODE, codeSize')]
  | c :: input' =>
      match find_code table (w ++ [c]) 258 with
      | Some code =>
          encode_clearing input' table first nextCode codeSize (w ++ [c]) code
      | None =>
          let '(nextCode', codeSize') := reader_after first nextCode codeSize in
          if 258 + Z.of_nat (length table) <? 4096 then
            (wcode, codeSize)
            :: encode_clearing input' (table ++ [w ++ [c]]) false nextCode' codeSize'
                 [c] (byte.unsigned c)
          else
            (wcode, codeSize) :: (CLEAR_CODE, codeSize')
            :: encode_clearing input' [] true 258 9 [c] (byte.unsigned c)
      end
  end.

Definition lzw_codes_clearing (data : list byte) : list (Z * Z) :=
  (CLEAR_CODE, 9)
  :: match data with
     | [] => [(EOI_CODE, 9)]
     | c :: data' => encode_clearing data' [] true 258 9 [c] (byte.unsigned c)
     end.

Definition lzw_encode_clearing (data : list byte) : list byte :=
  pack_bits (code_bits (lzw_codes_clearing data)) 0 0.

(** ** [parseTiffInt16ToFloat32] *)

(** [for (let i = i0; i < i0 + n && cond(s); i++) s = body(i, s)] *)
Fixpoint for_whileM {St : Type} (n : nat) (i : Z) (cond : St -> bool)
  (body : Z -> St -> outcome St) (s : St) : outcome St :=
  match n with
  | O => Returned s
  | S n' =>
      if cond s then s' <- body i s ;; for_whileM n' (i + 1) cond body s'
      else Returned s
  end.

(** [try { m } catch { handler }] *)
Definition try_catch {A : Type} (m : outcome A) (handler : outcome A) : outcome A :=
  match m with
  | Threw _ => handler
  | _ => m
  end.

(** [bytes.slice(start, end)] *)
Definition u8_slice (buf : list byte) (start_ end_ : Z) : list byte :=
  let len := byteLength buf in
  let clamp := fun k => if k <? 0 then Z.max (len + k) 0 else Z.min k len in
  let first := clamp start_ in
  let final := clamp end_ in
  take (Z.to_nat (final - first)) (drop (Z.to_nat first) buf).

(** [arr[s]] on an array of numbers: [None] is [undefined]. *)
Definition num_get (arr : list Z) (s : Z) : option Z :=
  if s <? 0 then None else arr !! Z.to_nat s.

(** What the tag loop collects. *)
Record tiff_ifd : Type := {
  compression : Z;
  stripOffsets : list Z;
  stripByteCounts : list Z;
  rowsPerStrip : Z
}.

(** The state of a decode pass. *)
Definition pass_state : Type := (list spec_float * Z)%type.

Definition more_pixels (totalPixels : Z) (st : pass_state) : bool :=
  snd st <? totalPixels.

(** How the raster returned was obtained. *)
Inductive decode_route : Type :=
| ViaCodec (result : list spec_float)
| ViaFallback.

Inductive CompressionFormat : Type := deflate_raw | deflate.

Section Tiff.

(** [new DecompressionStream(format)] fed one chunk and read to the end:
    [None] when the stream rejects the data. *)
Variable decompressionStream : CompressionFormat -> list byte -> option (list byte).

Definition decompressDeflate (data : list byte) : outcome (list byte) :=
  match decompressionStream deflate_raw data with
  | Some result => Returned result
  | None =>
      match decompressionStream deflate data with
      | Some result => Returned result
      | None => Threw (Error "Failed to decompress with any format")
      end
  end.

(** [for (let j = 0; j < count && ptr + j * 4 + 4 <= buffer.byteLength; j++)
      arr.push(view.getUint32(ptr + j * 4, littleEndian))],
    with [fuel] the number of turns [j < count] leaves. *)
Fixpoint read_longs (fuel : nat) (buffer : list byte) (littleEndian : bool) (ptr j : Z)
  (arr : list Z) : outcome (list Z) :=
  match fuel with
  | O => Returned arr
  | S fuel' =>
      if ptr + j * 4 + 4 <=? byteLength buffer then
        v <- getUint32 buffer (ptr + j * 4) littleEndian ;;
        read_longs fuel' buffer littleEndian ptr (j + 1) (arr ++ [v])
      else Returned arr
  end.

(** The body of the tag loop after its bounds check. *)
Definition ifd_entry (buffer : list byte) (littleEndian : bool) (entryOffset : Z)
  (ifd : tiff_ifd) : outcome tiff_ifd :=
  tag <- getUint16 buffer entryOffset littleEndian ;;
  type <- getUint16 buffer (entryOffset + 2) littleEndian ;;
  count <- getUint32 buffer (entryOffset + 4) littleEndian ;;
  let valueField := entryOffset + 8 in
  let getValue :=
    if type =? 3 then getUint16 buffer valueField littleEndian
    else getUint32 buffer valueField littleEndian in
  let getPointer := getUint32 buffer valueField littleEndian in
  if tag =? 259 then
    v <- getValue ;;
    Returned {| compression := v; stripOffsets := stripOffsets ifd;
                stripByteCounts := stripByteCounts ifd; rowsPerStrip := rowsPerStrip ifd |}
  else if tag =? 278 then
    v <- getValue ;;
    Returned {| compression := compression ifd; stripOffsets := stripOffsets ifd;
                stripByteCounts := stripByteCounts ifd; rowsPerStrip := v |}
  else if tag =? 273 then
    offsets <-
      (if count =? 1 then v <- getValue ;; Returned [v]
       else ptr <- getPointer ;;
            read_longs (Z.to_nat count) buffer littleEndian ptr 0 (stripOffsets ifd)) ;;
    Returned {| compression := compression ifd; stripOffsets := offsets;
                stripByteCounts := stripByteCounts ifd; rowsPerStrip := rowsPerStrip ifd |}
  else if tag =? 279 then
    counts <-
      (if count =? 1 then v <- getValue ;; Returned [v]
       else ptr <- getPointer ;;
            read_longs (Z.to_nat count) buffer littleEndian ptr 0 (stripByteCounts ifd)) ;;
    Returned {| compression := compression ifd; stripOffsets := stripOffsets ifd;
                stripByteCounts := counts; rowsPerStrip := rowsPerStrip ifd |}
  else Returned ifd.

(** [for (let i = 0; i < numEntries; i++)] with its [break]. *)
Fixpoint ifd_loop (n : nat) (buffer : list byte) (littleEndian : bool) (ifdOffset i : Z)
  (ifd : tiff_ifd) : outcome tiff_ifd :=
  match n with
  | O => Returned ifd
  | S n' =>
      let entryOffset := ifdOffset + 2 + i * 12 in
      if entryOffset + 12 >? byteLength buffer then Returned ifd
      else
        ifd' <- ifd_entry buffer littleEndian entryOffset ifd ;;
        ifd_loop n' buffer littleEndian ifdOffset (i + 1) ifd'
  end.

(** The inner loop of the LZW and Deflate passes:
    [for (let i = 0; i < pixelCount && pixelIndex < totalPixels; i++)]. *)
Definition store_samples (strip : list byte) (littleEndian : bool) (totalPixels : Z)
  (st : pass_state) : outcome pass_state :=
  let pixelCount := byteLength strip / 2 in
  for_whileM (Z.to_nat pixelCount) 0 (more_pixels totalPixels)
    (fun i '(result, pixelIndex) =>
       int16Val <- getInt16 strip (i * 2) littleEndian ;;
       Returned (f32_set result pixelIndex (reflectance int16Val), pixelIndex + 1))
    st.

(** [decompressLZW(bytes, stripOffsets[s], stripByteCounts[s])]: with a
    byte count that is [undefined] the end position is NaN, the loop of
    [decompressLZW] is not entered and its output is empty. *)
Definition lzw_strip (bytes : list byte) (offset : Z) (byteCount : option Z)
  : outcome (list byte) :=
  match byteCount with
  | Some length => decompressLZW bytes offset length
  | None => Returned []
  end.

Definition lzw_pass (buffer : list byte) (littleEndian : bool) (totalPixels : Z)
  (ifd : tiff_ifd) (result : list spec_float) : outcome pass_state :=
  for_whileM (length (stripOffsets ifd)) 0 (more_pixels totalPixels)
    (fun s st =>
       stripData <- lzw_strip buffer (or_zero (num_get (stripOffsets ifd) s))
                      (num_get (stripByteCounts ifd) s) ;;
       store_samples stripData littleEndian totalPixels st)
    (result, 0).

(** [stripByteCounts[s] || (totalPixels * 2)] *)
Definition count_or_all (byteCount : option Z) (totalPixels : Z) : Z :=
  match byteCount with
  | Some n => if n =? 0 then totalPixels * 2 else n
  | None => totalPixels * 2
  end.

Definition raw_pass (buffer : list byte) (littleEndian : bool) (totalPixels : Z)
  (ifd : tiff_ifd) (result : list spec_float) : outcome pass_state :=
  for_whileM (length (stripOffsets ifd)) 0 (more_pixels totalPixels)
    (fun s st =>
       let offset := or_zero (num_get (stripOffsets ifd) s) in
       let byteCount := count_or_all (num_get (stripByteCounts ifd) s) totalPixels in
       let pixelCount := byteCount / 2 in
       for_whileM (Z.to_nat pixelCount) 0 (more_pixels totalPixels)
         (fun i '(result, pixelIndex) =>
            let pos := offset + i * 2 in
            if pos + 2 <=? byteLength buffer then
              int16Val <- getInt16 buffer pos littleEndian ;;
              Returned (f32_set result pixelIndex (reflectance int16Val), pixelIndex + 1)
            else Returned (result, pixelIndex))
         st)
    (result, 0).

(** The [catch] branch: zeros for the pixels the strip should have held. *)
Definition zero_fill (expectedPixels totalPixels : Z) (st : pass_state)
  : outcome pass_state :=
  for_whileM (Z.to_nat expectedPixels) 0 (more_pixels totalPixels)
    (fun i '(result, pixelIndex) =>
       Returned (f32_set result pixelIndex F64.zero, pixelIndex + 1))
    st.

(** [stripOffsets[s] + stripByteCounts[s]], NaN when the count is
    [undefined]; [slice] reads NaN as 0. *)
Definition strip_end (offset : Z) (byteCount : option Z) : Z :=
  match byteCount with
  | Some n => offset + n
  | None => 0
  end.

(** Nothing after [decompressDeflate] throws inside the [try], so the
    state the [catch] branch starts from is the one the [try] started from. *)
Definition deflate_pass (buffer : list byte) (littleEndian : bool)
  (width totalPixels : Z) (ifd : tiff_ifd) (result : list spec_float)
  : outcome pass_state :=
  for_whileM (length (stripOffsets ifd)) 0 (more_pixels totalPixels)
    (fun s st =>
       let offset := or_zero (num_get (stripOffsets ifd) s) in
       try_catch
         (let compressedData :=
            u8_slice buffer offset (strip_end offset (num_get (stripByteCounts ifd) s)) in
          decompressed <- decompressDeflate compressedData ;;
          store_samples decompressed littleEndian totalPixels st)
         (zero_fill (rowsPerStrip ifd * width) totalPixels st))
    (result, 0).

(** The dispatch on the compression code, up to the choice between the
    raster decoded here and the fallback scanner. *)
Definition decode_strips (buffer : list byte) (littleEndian : bool)
  (width height : Z) (ifd : tiff_ifd) : outcome decode_route :=
  let totalPixels := width * height in
  if totalPixels <? 0 then Threw RangeError
  else
    let result := new_Float32Array totalPixels in
    if compression ifd =? 5 then
      st <- lzw_pass buffer littleEndian totalPixels ifd result ;;
      Returned (ViaCodec (fst st))
    else if compression ifd =? 1 then
      st <- raw_pass buffer littleEndian totalPixels ifd result ;;
      Returned (ViaCodec (fst st))
    else if (compression ifd =? 8) || (compression ifd =? 32946) then
      st <- deflate_pass buffer littleEndian width totalPixels ifd result ;;
      (* [pixelIndex < totalPixels * 0.5] *)
      if 2 * snd st <? totalPixels then Returned ViaFallback
      else Returned (ViaCodec (fst st))
    else Returned ViaFallback.

(** The header checks and the tag loop. *)
Definition read_header (buffer : list byte) (height : Z) : outcome (bool * tiff_ifd) :=
  if byteLength buffer <? 8 then Threw (Error "Buffer too small for TIFF")
  else
    byte0 <- getUint8 buffer 0 ;;
    byte1 <- getUint8 buffer 1 ;;
    let littleEndian := (byte0 =? 73) && (byte1 =? 73) in
    if negb (byte0 =? 73) && negb (byte0 =? 77) then Threw (Error "Invalid TIFF header")
    else
      ifdOffset <- getUint32 buffer 4 littleEndian ;;
      if ifdOffset + 2 >? byteLength buffer then Threw (Error "Invalid IFD offset")
      else
        numEntries <- getUint16 buffer ifdOffset littleEndian ;;
        ifd <- ifd_loop (Z.to_nat numEntries) buffer littleEndian ifdOffset 0
                 {| compression := 1; stripOffsets := []; stripByteCounts := [];
                    rowsPerStrip := height |} ;;
        Returned (littleEndian, ifd).

(** The route taken for a buffer. *)
Definition tiff_route (buffer : list byte) (width height : Z) : outcome decode_route :=
  hdr <- read_header buffer height ;;
  decode_strips buffer (fst hdr) width height (snd hdr).

(** The [band] argument of the source only feeds the log lines. *)
Definition parseTiffInt16ToFloat32 (buffer : list byte) (width height : Z)
  : outcome (list spec_float) :=
  hdr <- read_header buffer height ;;
  route <- decode_strips buffer (fst hdr) width height (snd hdr) ;;
  match route with
  | ViaCodec result => Returned result
  | ViaFallback => extractFallback buffer width height (fst hdr)
  end.

End Tiff.

(** ** The handlers' string helpers *)

(** [String.fromCharCode(...chunk)] on a chunk of the loop below, which
    has at most 8192 bytes: one character per byte. *)
Definition fromCharCode (chunk : list byte) : string := string_of_list_byte chunk.

(** The loop of the imagery handler that turns the image bytes into a
    binary string, [chunkSize] bytes at a time:
    [for (let i = 0; i < bytes.length; i += chunkSize)
       binary += String.fromCharCode(...bytes.subarray(i, i + chunkSize))].
    [subarray] follows the index rules of [slice]. Every turn moves [i]
    on, so [bytes.length] turns are enough. *)
Fixpoint binary_loop (fuel : nat) (bytes : list byte) (chunkSize i : Z) (binary : string)
  : string :=
  match fuel with
  | O => binary
  | S fuel' =>
      if i <? byteLength bytes then
        let chunk := u8_slice bytes i (i + chunkSize) in
        binary_loop fuel' bytes chunkSize (i + chunkSize)
          (String.append binary (fromCharCode chunk))
      else binary
  end.

Definition binary_string (bytes : list byte) : string :=
  binary_loop (length bytes) bytes 8192 0 EmptyString.

(** [dateStr.includes('T')] *)
Fixpoint includes_char (c : ascii) (s : string) : bool :=
  match s with
  | EmptyString => false
  | String c' s' => Ascii.eqb c c' || includes_char c s'
  end.

(** [formatDate] of the prediction handler. [nowIso] and [monthAgoIso] are
    what [new Date().toISOString()] and
    [new Date(Date.now() - 30 * 24 * 60 * 60 * 1000).toISOString()] give
    when the function runs; [None] is a date that is [undefined]. *)
Definition formatDate (nowIso monthAgoIso : string) (dateStr : option string)
  (isEnd : bool) : string :=
  match dateStr with
  | None | Some EmptyString => if isEnd then nowIso else monthAgoIso
  | Some dateStr =>
      if includes_char "T" dateStr then dateStr
      else if isEnd then String.append dateStr "T23:59:59Z"
           else String.append dateStr "T00:00:00Z"
  end.

(** ** A reference TIFF writer *)

(** The source reads TIFF files and writes none. This writer lays out the
    files its reader is meant for: the 8-byte header, one tag directory at
    offset 8 and a single strip behind it. *)

(** A directory entry: one value held in the entry itself, with its field
    type (3 is SHORT, anything else is written as LONG), or several LONG
    values held elsewhere in the file, at [ptr]. *)
Inductive tiff_field : Type :=
| Scalar (tag type value : Z)
| Longs (tag ptr : Z) (values : list Z).

Definition field_tag (field : tiff_field) : Z :=
  match field with
  | Scalar tag _ _ => tag
  | Longs tag _ _ => tag
  end.

(** The 12 bytes of an entry: tag, field type, count, and the value, left
    justified in its four bytes, or the offset of the values. *)
Definition tiff_entry (littleEndian : bool) (field : tiff_field) : list byte :=
  match field with
  | Scalar tag type value =>
      split_bytes littleEndian 2 tag ++ split_bytes littleEndian 2 type
      ++ split_bytes littleEndian 4 1
      ++ (if type =? 3 then split_bytes littleEndian 2 value ++ [Byte.x00; Byte.x00]
          else split_bytes littleEndian 4 value)
  | Longs tag ptr values =>
      split_bytes littleEndian 2 tag ++ split_bytes littleEndian 2 4
      ++ split_bytes littleEndian 4 (Z.of_nat (length values))
      ++ split_bytes littleEndian 4 ptr
  end.

(** LONG values one after the other. *)
Definition long_bytes (littleEndian : bool) (values : list Z) : list byte :=
  concat (split_bytes littleEndian 4 <$> values).

Definition tiff_file (littleEndian : bool) (entries : list tiff_field) (strip : list byte)
  : list byte :=
  (if littleEndian then [Byte.x49; Byte.x49] else [Byte.x4d; Byte.x4d])
  ++ split_bytes littleEndian 2 42 ++ split_bytes littleEndian 4 8
  ++ split_bytes littleEndian 2 (Z.of_nat (length entries))
  ++ concat (tiff_entry littleEndian <$> entries)
  ++ split_bytes littleEndian 4 0
  ++ strip.

(** The tags of a one-band 16-bit image held in one strip: ImageWidth,
    ImageLength, BitsPerSample, Compression, PhotometricInterpretation,
    StripOffsets, SamplesPerPixel, RowsPerStrip, StripByteCounts. The strip
    starts at byte 122, behind the directory. *)
Definition tiff_tags (width height compression stripBytes : Z) : list tiff_field :=
  [Scalar 256 4 width; Scalar 257 4 height; Scalar 258 3 16; Scalar 259 3 compression;
   Scalar 262 3 1; Scalar 273 4 122; Scalar 277 3 1; Scalar 278 4 height;
   Scalar 279 4 stripBytes].

Definition tiff_image (littleEndian : bool) (width height compression : Z)
  (strip : list byte) : list byte :=
  tiff_file littleEndian (tiff_tags width height compression (byteLength strip)) strip.

(** 16-bit samples, two's complement, in the byte order of the file. *)
Definition int16_bytes (littleEndian : bool) (samples : list Z) : list byte :=
  concat (split_bytes littleEndian 2 <$> samples).

(** A strip as the file holds it: as it is, or LZW-compressed. *)
Definition strip_encode (compression : Z) (data : list byte) : list byte :=
  if compression =? 5 then lzw_encode data else data.

(** The offsets of strips laid one after the other from [start] on. *)
Fixpoint strip_starts (start : Z) (strips : list (list byte)) : list Z :=
  match strips with
  | [] => []
  | strip :: strips' => start :: strip_starts (start + byteLength strip) strips'
  end.

(** The image in several strips: the directory refers to the offsets and
    the byte counts of the strips, which follow it, and the strips come
    last, one after the other. *)
Definition tiff_image_strips (littleEndian : bool)
  (width height compression rowsPerStrip : Z) (strips : list (list byte)) : list byte :=
  let n := Z.of_nat (length strips) in
  let offsets := strip_starts (122 + 8 * n) strips in
  let counts := byteLength <$> strips in
  tiff_file littleEndian
    [Scalar 256 4 width; Scalar 257 4 height; Scalar 258 3 16; Scalar 259 3 compression;
     Scalar 262 3 1; Longs 273 122 offsets; Scalar 277 3 1; Scalar 278 4 rowsPerStrip;
     Longs 279 (122 + 4 * n) counts]
    (long_bytes littleEndian offsets ++ long_bytes littleEndian counts ++ concat strips).

(** * Properties *)

(** ** Outcomes and loops *)

Lemma for_range_app {St : Type} (n m : nat) (i : Z) (body : Z -> St -> St) (s : St) :
  for_range (n + m) i body s = for_range m (i + Z.of_nat n) body (for_range n i body s).
Proof.
  revert i s. induction n as [|n IH]; intros i s; simpl.
  - f_equal. lia.
  - rewrite IH. f_equal. lia.
Qed.

(** A loop invariant indexed by the counter. *)
Lemma for_range_invariant {St : Type} (P : Z -> St -> Prop) (body : Z -> St -> St)
  (n : nat) (i : Z) (s : St) :
  P i s ->
  (forall j t, i <= j < i + Z.of_nat n -> P j t -> P (j + 1) (body j t)) ->
  P (i + Z.of_nat n) (for_range n i body s).
Proof.
  revert i s. induction n as [|n IH]; intros i s H0 Hstep; simpl.
  - replace (i + Z.of_nat 0) with i by lia. exact H0.
  - replace (i + Z.of_nat (S n)) with ((i + 1) + Z.of_nat n) by lia.
    apply IH.
    + apply Hstep; [lia | exact H0].
    + intros j t Hj. apply Hstep. lia.
Qed.

(** ** Bytes *)

Lemma byteLength_nonneg (buf : list byte) : 0 <= byteLength buf.
Proof. unfold byteLength. lia. Qed.

Lemma u8_get_Some (buf : list byte) (i : Z) :
  0 <= i < byteLength buf -> exists b, buf !! Z.to_nat i = Some b /\ u8_get buf i = Some (byte.unsigned b).
Proof.
  intros Hi. unfold u8_get, byteLength in *.
  destruct (Z.ltb_spec i 0); [lia|].
  destruct (lookup_lt_is_Some_2 buf (Z.to_nat i)) as [b Hb]; [lia|].
  exists b. rewrite Hb. auto.
Qed.

Lemma u8_get_None (buf : list byte) (i : Z) :
  byteLength buf <= i -> u8_get buf i = None.
Proof.
  intros Hi. unfold u8_get, byteLength in *.
  destruct (Z.ltb_spec i 0); [reflexivity|].
  rewrite (proj2 (lookup_ge_None buf (Z.to_nat i))); [reflexivity | lia].
Qed.

Lemma byteLength_u8_set (buf : list byte) (i v : Z) :
  byteLength (u8_set buf i v) = byteLength buf.
Proof.
  unfold u8_set, byteLength. destruct (i <? 0); [reflexivity|].
  by rewrite length_insert.
Qed.

Lemma u8_get_set_eq (buf : list byte) (i v : Z) :
  0 <= i < byteLength buf -> u8_get (u8_set buf i v) i = Some (v mod 256).
Proof.
  intros Hi. unfold u8_get, u8_set, byteLength in *.
  destruct (Z.ltb_spec i 0); [lia|].
  rewrite list_lookup_insert_eq by lia. simpl.
  by rewrite byte.unsigned_of_Z.
Qed.

Lemma u8_get_set_ne (buf : list byte) (i j v : Z) :
  i <> j -> u8_get (u8_set buf i v) j = u8_get buf j.
Proof.
  intros Hij. unfold u8_get, u8_set.
  destruct (Z.ltb_spec j 0); [reflexivity|].
  destruct (Z.ltb_spec i 0); [reflexivity|].
  rewrite list_lookup_insert_ne by lia. reflexivity.
Qed.

Lemma u8_get_range (buf : list byte) (i v : Z) :
  u8_get buf i = Some v -> 0 <= v < 256.
Proof.
  unfold u8_get. destruct (i <? 0); [discriminate|].
  destruct (buf !! Z.to_nat i) as [b|]; simpl; [|discriminate].
  intros [= <-]. apply byte.unsigned_range.
Qed.

Lemma u8_get_app_l (pre post : list byte) (i : Z) :
  i < byteLength pre -> u8_get (pre ++ post) i = u8_get pre i.
Proof.
  intros Hi. unfold u8_get, byteLength in *.
  destruct (Z.ltb_spec i 0); [reflexivity|].
  rewrite lookup_app_l by lia. reflexivity.
Qed.

Lemma length_write_bytes (bs buf : list byte) (off : nat) :
  length (write_bytes buf off bs) = length buf.
Proof.
  revert buf off. induction bs as [|b bs IH]; intros buf off; simpl; [reflexivity|].
  rewrite IH. apply length_insert.
Qed.

Lemma write_bytes_app_l (bs pre post : list byte) (off : nat) :
  (off + length bs <= length pre)%nat ->
  write_bytes (pre ++ post) off bs = write_bytes pre off bs ++ post.
Proof.
  revert pre off. induction bs as [|b bs IH]; intros pre off Hlen; simpl in *; [reflexivity|].
  rewrite insert_app_l by lia.
  apply IH. rewrite length_insert. lia.
Qed.

Lemma u8_set_app_l (pre post : list byte) (i v : Z) :
  i < byteLength pre -> u8_set (pre ++ post) i v = u8_set pre i v ++ post.
Proof.
  intros Hi. unfold u8_set, byteLength in *.
  destruct (Z.ltb_spec i 0); [reflexivity|].
  rewrite insert_app_l by lia. reflexivity.
Qed.

Lemma in_view_app_l (pre post : list byte) (off n : Z) :
  0 <= off -> off + n <= byteLength pre -> in_view (pre ++ post) off n = true.
Proof.
  intros H0 H1. unfold in_view, byteLength in *. rewrite length_app.
  apply andb_true_intro. split; [apply Z.leb_le | apply Z.leb_le]; lia.
Qed.

Lemma setUint32_app_l (pre post : list byte) (off v : Z) (le : bool) :
  0 <= off -> off + 4 <= byteLength pre ->
  setUint32 (pre ++ post) off v le
  = Returned (write_bytes pre (Z.to_nat off) (split_bytes le 4 v) ++ post).
Proof.
  intros H0 H1. unfold setUint32. rewrite in_view_app_l by assumption.
  f_equal. apply write_bytes_app_l. unfold byteLength in H1.
  assert (length (split_bytes le 4 v) = 4%nat) as ->; [by destruct le | lia].
Qed.

Lemma setUint16_app_l (pre post : list byte) (off v : Z) (le : bool) :
  0 <= off -> off + 2 <= byteLength pre ->
  setUint16 (pre ++ post) off v le
  = Returned (write_bytes pre (Z.to_nat off) (split_bytes le 2 v) ++ post).
Proof.
  intros H0 H1. unfold setUint16. rewrite in_view_app_l by assumption.
  f_equal. apply write_bytes_app_l. unfold byteLength in H1.
  assert (length (split_bytes le 2 v) = 2%nat) as ->; [by destruct le | lia].
Qed.

(** ** The bitmap writer *)

(** The 54 bytes that [createBMP] puts before the pixel data. *)
Definition bmp_header (width height : Z) : list byte :=
  [Byte.x42; Byte.x4d]
  ++ le_split 4 (54 + width * 4 * height)
  ++ replicate 4 Byte.x00
  ++ le_split 4 54
  ++ le_split 4 40
  ++ le_split 4 width
  ++ le_split 4 (- height)
  ++ le_split 2 1
  ++ le_split 2 32
  ++ le_split 4 0
  ++ le_split 4 (width * 4 * height)
  ++ le_split 4 2835
  ++ le_split 4 2835
  ++ replicate 8 Byte.x00.

Lemma ceil_div_mul (a b : Z) : 0 < b -> ceil_div (a * b) b = a.
Proof.
  intros Hb. unfold ceil_div.
  replace (- (a * b)) with ((- a) * b) by lia.
  rewrite Z.div_mul by lia. lia.
Qed.

Lemma byteLength_write_bytes (bs buf : list byte) (off : nat) :
  byteLength (write_bytes buf off bs) = byteLength buf.
Proof. unfold byteLength. by rewrite length_write_bytes. Qed.

Lemma createBMP_unfold (rgba : list byte) (width height : Z) :
  0 <= width -> 0 <= height ->
  createBMP rgba width height
  = Returned (fst (bmp_rows rgba width height
                     (bmp_header width height
                      ++ replicate (Z.to_nat (width * 4 * height)) Byte.x00, 54))).
Proof.
  intros Hw Hh. unfold createBMP.
  rewrite ceil_div_mul by lia.
  unfold new_Uint8Array.
  destruct (Z.ltb_spec (54 + width * 4 * height) 0) as [Hneg|_]; [nia|].
  replace (Z.to_nat (54 + width * 4 * height))
    with (54 + Z.to_nat (width * 4 * height))%nat by nia.
  rewrite replicate_add.
  assert (byteLength (replicate 54 Byte.x00) = 54) as H54 by reflexivity.
  cbn [bind].
  rewrite !u8_set_app_l by (rewrite ?byteLength_u8_set, H54; lia).
  unfold setInt32.
  do 11 (first [rewrite setUint32_app_l | rewrite setUint16_app_l];
         [cbn [bind] | lia
          | rewrite ?byteLength_write_bytes, ?byteLength_u8_set, H54; lia]).
  reflexivity.
Qed.

(** A byte read from a buffer and stored into a typed array is unchanged. *)
Lemma u8_store_load (buf : list byte) (i : Z) :
  0 <= i < byteLength buf -> Some (or_zero (u8_get buf i) mod 256) = u8_get buf i.
Proof.
  intros Hi. destruct (u8_get_Some buf i Hi) as (b & _ & ->). simpl.
  rewrite Z.mod_small; [reflexivity | apply byte.unsigned_range].
Qed.

(** The state of the pixel loops after [k] pixels: the header is intact and
    the pixels written so far are the input's with red and blue swapped. *)
Definition bmp_inv (rgba hdr : list byte) (n k : Z) (st : list byte * Z) : Prop :=
  snd st = 54 + 4 * k
  /\ byteLength (fst st) = 54 + 4 * n
  /\ (forall j, 0 <= j < 54 -> u8_get (fst st) j = u8_get hdr j)
  /\ (forall p, 0 <= p < k ->
        u8_get (fst st) (54 + 4 * p) = u8_get rgba (4 * p + 2)
        /\ u8_get (fst st) (54 + 4 * p + 1) = u8_get rgba (4 * p + 1)
        /\ u8_get (fst st) (54 + 4 * p + 2) = u8_get rgba (4 * p)
        /\ u8_get (fst st) (54 + 4 * p + 3) = u8_get rgba (4 * p + 3)).

Lemma u8_get_set_same (buf : list byte) (i j v : Z) :
  i = j /\ 0 <= i < byteLength buf -> u8_get (u8_set buf i v) j = Some (v mod 256).
Proof. intros [<- Hi]. by apply u8_get_set_eq. Qed.

Ltac u8_reads :=
  repeat first
    [ rewrite u8_get_set_ne by lia
    | rewrite u8_get_set_same by (split; [lia | rewrite ?byteLength_u8_set; lia]) ].

Lemma bmp_pixel_inv (rgba hdr : list byte) (width height x y : Z) (st : list byte * Z) :
  0 <= x < width -> 0 <= y < height ->
  byteLength rgba = 4 * (width * height) ->
  bmp_inv rgba hdr (width * height) (y * width + x) st ->
  bmp_inv rgba hdr (width * height) (y * width + (x + 1)) (bmp_pixel rgba width y x st).
Proof.
  intros Hx Hy Hlen (Hoff & Hblen & Hhdr & Hpix).
  destruct st as [bmp off]. simpl in *. subst off.
  assert (y * width + x < width * height) as Hk by nia.
  assert (0 <= y * width + x) as Hk0 by nia.
  unfold bmp_inv. simpl. repeat split.
  1: lia.
  1: by rewrite !byteLength_u8_set.
  1: intros j Hj; u8_reads; by apply Hhdr.
  all: destruct (Z.eq_dec p (y * width + x)) as [->|Hne];
      [ u8_reads; (etransitivity; [apply u8_store_load; lia | f_equal; lia])
      | u8_reads; apply Hpix; lia ].
Qed.

Lemma bmp_rows_inv (rgba hdr : list byte) (width height : Z) (st : list byte * Z) :
  0 <= width -> 0 <= height ->
  byteLength rgba = 4 * (width * height) ->
  bmp_inv rgba hdr (width * height) 0 st ->
  bmp_inv rgba hdr (width * height) (width * height) (bmp_rows rgba width height st).
Proof.
  intros Hw Hh Hlen H0. unfold bmp_rows.
  replace (width * height) with (0 + Z.of_nat (Z.to_nat height) * width) at 2 by lia.
  apply (for_range_invariant
    (fun y => bmp_inv rgba hdr (width * height) (y * width))
    (fun y => for_range (Z.to_nat width) 0 (bmp_pixel rgba width y))).
  - exact H0.
  - intros y t Hy Ht.
    replace ((y + 1) * width) with (y * width + (0 + Z.of_nat (Z.to_nat width))) by lia.
    apply (for_range_invariant
      (fun x => bmp_inv rgba hdr (width * height) (y * width + x))
      (bmp_pixel rgba width y)).
    + by rewrite Z.add_0_r.
    + intros x u Hx Hu. apply bmp_pixel_inv; (lia || assumption).
Qed.

Lemma bytes_at_ext (a b : list byte) (off : Z) (n : nat) :
  (forall j, off <= j < off + Z.of_nat n -> u8_get a j = u8_get b j) ->
  bytes_at a off n = bytes_at b off n.
Proof.
  intros H. unfold bytes_at. apply list_fmap_ext.
  intros i k Hk%lookup_seq. rewrite H by lia. reflexivity.
Qed.

Lemma bytes_at_in_range (buf : list byte) (off : Z) (n : nat) :
  0 <= off -> off + Z.of_nat n <= byteLength buf ->
  bytes_at buf off n = take n (drop (Z.to_nat off) buf).
Proof.
  intros H0 H1. apply list_eq. intros i. unfold bytes_at.
  rewrite list_lookup_fmap, lookup_take.
  destruct (decide (i < n)%nat) as [Hi|Hi].
  - rewrite lookup_seq_lt by assumption. cbn [fmap option_fmap option_map].
    rewrite lookup_drop.
    destruct (u8_get_Some buf (off + Z.of_nat (0 + i))) as (b & Hb & ->); [lia|].
    unfold or_zero. simpl. rewrite byte.of_Z_unsigned.
    rewrite <- Hb. f_equal. lia.
  - rewrite lookup_seq_ge by lia. reflexivity.
Qed.


Lemma bmp_inv_init (rgba : list byte) (width height : Z) :
  0 <= width -> 0 <= height ->
  bmp_inv rgba (bmp_header width height) (width * height) 0
    (bmp_header width height ++ replicate (Z.to_nat (width * 4 * height)) Byte.x00, 54).
Proof.
  intros Hw Hh. unfold bmp_inv. cbn [fst snd]. repeat split; try lia.
  - unfold byteLength. rewrite length_app, length_replicate.
    change (length (bmp_header width height)) with 54%nat. lia.
  - intros j Hj. apply u8_get_app_l.
    change (byteLength (bmp_header width height)) with 54. lia.
Qed.

(** The bitmap [createBMP] returns, with the facts the loops establish. *)
Lemma createBMP_returns (rgba : list byte) (width height : Z) :
  0 <= width -> 0 <= height ->
  byteLength rgba = 4 * (width * height) ->
  exists bmp,
    createBMP rgba width height = Returned bmp
    /\ bmp_inv rgba (bmp_header width height) (width * height) (width * height)
         (bmp, 54 + 4 * (width * height)).
Proof.
  intros Hw Hh Hlen. rewrite createBMP_unfold by assumption.
  pose proof (bmp_rows_inv rgba _ width height _ Hw Hh Hlen
                (bmp_inv_init rgba width height Hw Hh)) as Hinv.
  destruct (bmp_rows _ _ _ _) as [bmp off] eqn:Hrows.
  exists bmp. split; [reflexivity|].
  destruct Hinv as (Hoff & Hrest). cbn [fst snd] in *. subst off.
  split; [reflexivity|exact Hrest].
Qed.

Lemma to_int32_small (z : Z) : - 2 ^ 31 <= z < 2 ^ 31 -> to_int32 z = z.
Proof. intros Hz. unfold to_int32. rewrite Z.mod_small; lia. Qed.

Lemma to_int32_mod (z : Z) : to_int32 (z mod 2 ^ 32) = to_int32 z.
Proof. unfold to_int32. rewrite Zplus_mod_idemp_l. reflexivity. Qed.

(** ** C4 *)

(** C4. For a width [w], a height [h] and an RGBA buffer of [4*w*h] bytes,
    [createBMP] returns [54 + 4*w*h] bytes that start with "BM"; the four
    bytes at offset 2 are the little-endian 32-bit encoding of [54 + 4*w*h],
    those at offset 10 of 54 and those at offset 22 of [-h], and read back
    with [getUint32] / [getInt32] they give these numbers whenever the numbers
    fit in 32 bits; the pixel at column [x] of row [y] is stored at byte
    [54 + 4*(y*w + x)] in the order blue, green, red, alpha, rows following
    one another without padding. *)
Theorem createBMP_layout (w h : nat) (rgba : list byte) :
  length rgba = (4 * w * h)%nat ->
  exists bmp,
    createBMP rgba (Z.of_nat w) (Z.of_nat h) = Returned bmp
    /\ length bmp = (54 + 4 * w * h)%nat
    /\ take 2 bmp = [Byte.x42; Byte.x4d]
    /\ bytes_at bmp 2 4 = le_split 4 (54 + 4 * Z.of_nat w * Z.of_nat h)
    /\ (54 + 4 * Z.of_nat w * Z.of_nat h < 2 ^ 32 ->
        getUint32 bmp 2 true = Returned (54 + 4 * Z.of_nat w * Z.of_nat h))
    /\ getUint32 bmp 10 true = Returned 54
    /\ bytes_at bmp 22 4 = le_split 4 (- Z.of_nat h)
    /\ (Z.of_nat h <= 2 ^ 31 -> getInt32 bmp 22 true = Returned (- Z.of_nat h))
    /\ (forall x y : Z, 0 <= x < Z.of_nat w -> 0 <= y < Z.of_nat h ->
        let src := 4 * (y * Z.of_nat w + x) in
        u8_get bmp (54 + src) = u8_get rgba (src + 2)
        /\ u8_get bmp (54 + src + 1) = u8_get rgba (src + 1)
        /\ u8_get bmp (54 + src + 2) = u8_get rgba src
        /\ u8_get bmp (54 + src + 3) = u8_get rgba (src + 3)).
Proof.
  intros Hlen.
  destruct (createBMP_returns rgba (Z.of_nat w) (Z.of_nat h)) as (bmp & Hbmp & Hinv);
    [lia | lia | unfold byteLength; nia |].
  destruct Hinv as (_ & Hblen & Hhdr & Hpix). cbn [fst snd] in *.
  set (hdr := bmp_header (Z.of_nat w) (Z.of_nat h)) in *.
  assert (forall off n, 0 <= off -> off + Z.of_nat n <= 54 ->
            bytes_at bmp off n = take n (drop (Z.to_nat off) hdr)) as Hfield.
  { intros off n H0 H1.
    rewrite (bytes_at_ext bmp hdr) by (intros j Hj; apply Hhdr; lia).
    apply bytes_at_in_range; [lia|]. change (byteLength hdr) with 54. lia. }
  assert (forall off, 0 <= off -> off + 4 <= 54 -> in_view bmp off 4 = true) as Hview.
  { intros off H0 H1. unfold in_view. rewrite Hblen.
    apply andb_true_intro; split; apply Z.leb_le; nia. }
  exists bmp. split; [exact Hbmp|]. split; [unfold byteLength in Hblen; nia|].
  split.
  { change (take 2 bmp) with (take 2 (drop (Z.to_nat 0) bmp)).
    rewrite <- (bytes_at_in_range bmp 0 2) by (rewrite ?Hblen; nia).
    rewrite Hfield by lia. reflexivity. }
  split.
  { rewrite Hfield by lia. subst hdr. unfold bmp_header.
    replace (Z.of_nat w * 4 * Z.of_nat h) with (4 * Z.of_nat w * Z.of_nat h) by lia.
    reflexivity. }
  split.
  { intros Hfit. unfold getUint32. rewrite Hview by lia. f_equal.
    rewrite Hfield by lia. unfold combine_bytes.
    change (take 4 (drop (Z.to_nat 2) hdr))
      with (le_split 4 (54 + Z.of_nat w * 4 * Z.of_nat h)).
    rewrite le_combine_split. rewrite Z.mod_small; lia. }
  split.
  { unfold getUint32. rewrite Hview by lia. f_equal.
    rewrite Hfield by lia. reflexivity. }
  split.
  { rewrite Hfield by lia. reflexivity. }
  split.
  { intros Hfit. unfold getInt32. rewrite Hview by lia. f_equal.
    rewrite Hfield by lia. unfold combine_bytes.
    change (take 4 (drop (Z.to_nat 22) hdr)) with (le_split 4 (- Z.of_nat h)).
    rewrite le_combine_split.
    change (Z.of_nat 4 * 8) with 32. rewrite to_int32_mod.
    apply to_int32_small. lia. }
  intros x y Hx Hy. apply Hpix. nia.
Qed.

(** The 2 x 2 all-white bitmap of the specification. *)
Lemma createBMP_layout_witness :
  exists bmp,
    createBMP (replicate 16 Byte.xff) 2 2 = Returned bmp
    /\ length bmp = 70%nat
    /\ take 2 bmp = [Byte.x42; Byte.x4d]
    /\ getUint32 bmp 2 true = Returned 70
    /\ getUint32 bmp 10 true = Returned 54
    /\ getInt32 bmp 22 true = Returned (-2).
Proof.
  destruct (createBMP_layout 2 2 (replicate 16 Byte.xff) eq_refl)
    as (bmp & H1 & H2 & H3 & _ & H5 & H6 & _ & H8 & _).
  exists bmp. repeat split; try assumption.
  - apply H5. reflexivity.
  - apply H8. discriminate.
Defined.

(** ** Floating-point comparisons *)

Lemma F64_leb_zero_not_gtb (x : spec_float) :
  F64.leb x F64.zero = true -> F64.gtb x F64.zero = false.
Proof.
  unfold F64.leb, F64.gtb, F64.zero, SFleb, SFltb.
  destruct x as [s|s| |s m e]; try destruct s; simpl; congruence.
Qed.

Lemma F32_round_zero : F32.round F64.zero = F64.zero.
Proof. reflexivity. Qed.

(** ** Float32Array reads and writes *)

Lemma f32_get_lookup (arr : list spec_float) (i : Z) (x : spec_float) :
  0 <= i -> arr !! Z.to_nat i = Some x -> f32_get arr i = F32.to_f64 x.
Proof.
  intros Hi Hx. unfold f32_get. destruct (Z.ltb_spec i 0); [lia|]. by rewrite Hx.
Qed.

Lemma f32_get_outside (arr : list spec_float) (i : Z) :
  Z.of_nat (length arr) <= i -> f32_get arr i = F64.nan.
Proof.
  intros Hi. unfold f32_get. destruct (Z.ltb_spec i 0); [reflexivity|].
  rewrite (proj2 (lookup_ge_None arr (Z.to_nat i))); [reflexivity | lia].
Qed.

Lemma length_f32_set (arr : list spec_float) (i : Z) (x : spec_float) :
  length (f32_set arr i x) = length arr.
Proof. unfold f32_set. destruct (i <? 0); [reflexivity | apply length_insert]. Qed.

Lemma f32_set_lookup_eq (arr : list spec_float) (i : Z) (x : spec_float) :
  0 <= i < Z.of_nat (length arr) ->
  f32_set arr i x !! Z.to_nat i = Some (F32.round x).
Proof.
  intros Hi. unfold f32_set. destruct (Z.ltb_spec i 0); [lia|].
  apply list_lookup_insert_eq. lia.
Qed.

Lemma f32_set_lookup_ne (arr : list spec_float) (i : Z) (j : nat) (x : spec_float) :
  0 <= i -> Z.to_nat i <> j -> f32_set arr i x !! j = arr !! j.
Proof.
  intros Hi Hne. unfold f32_set. destruct (Z.ltb_spec i 0); [lia|].
  by apply list_lookup_insert_ne.
Qed.

(** ** The index raster *)

(** The value the first loop of [generateNdviMask] stores at pixel [i]. *)
Definition ndvi_value (b04Data b08Data : list spec_float) (i : Z) : spec_float :=
  let red := f32_get b04Data i in
  let nir := f32_get b08Data i in
  if F64.gtb (F64.add nir red) F64.zero
  then F32.round (F64.div (F64.sub nir red) (F64.add nir red))
  else F64.zero.

Definition ndvi_inv (b04Data b08Data : list spec_float) (n k : Z)
  (st : list spec_float * Z) : Prop :=
  Z.of_nat (length (fst st)) = n
  /\ forall j, 0 <= j < k -> fst st !! Z.to_nat j = Some (ndvi_value b04Data b08Data j).

Lemma ndvi_pixel_inv (b04Data b08Data : list spec_float) (n k : Z)
  (st : list spec_float * Z) :
  0 <= k < n ->
  ndvi_inv b04Data b08Data n k st ->
  ndvi_inv b04Data b08Data n (k + 1) (ndvi_pixel b04Data b08Data k st).
Proof.
  intros Hk (Hlen & Hpix). destruct st as [ndvi forest]. cbn [fst snd] in *.
  unfold ndvi_pixel.
  set (red := f32_get b04Data k). set (nir := f32_get b08Data k).
  assert (exists ndvi',
    (if F64.gtb (F64.add nir red) F64.zero
     then f32_set ndvi k (F64.div (F64.sub nir red) (F64.add nir red))
     else f32_set ndvi k F64.zero) = ndvi'
    /\ length ndvi' = length ndvi
    /\ ndvi' !! Z.to_nat k = Some (ndvi_value b04Data b08Data k)
    /\ forall j : nat, Z.to_nat k <> j -> ndvi' !! j = ndvi !! j) as (ndvi' & -> & Hl & Hk' & Hj').
  { eexists. split; [reflexivity|]. unfold ndvi_value. fold red nir.
    destruct (F64.gtb (F64.add nir red) F64.zero).
    - split; [apply length_f32_set|]. split; [apply f32_set_lookup_eq; lia|].
      intros j Hj. apply f32_set_lookup_ne; [lia | assumption].
    - split; [apply length_f32_set|]. split; [apply f32_set_lookup_eq; lia|].
      intros j Hj. apply f32_set_lookup_ne; [lia | assumption]. }
  unfold ndvi_inv. cbn [fst snd]. split; [lia|].
  intros j Hj. destruct (Z.eq_dec j k) as [->|Hne]; [exact Hk'|].
  rewrite Hj' by lia. apply Hpix. lia.
Qed.

Lemma ndvi_raster_inv (b04Data b08Data : list spec_float) (width height : Z) :
  0 <= width * height ->
  ndvi_inv b04Data b08Data (width * height) (width * height)
    (ndvi_raster b04Data b08Data width height).
Proof.
  intros Hn. unfold ndvi_raster.
  replace (width * height) with (0 + Z.of_nat (Z.to_nat (width * height))) at 2 by lia.
  apply (for_range_invariant (ndvi_inv b04Data b08Data (width * height))).
  - split; cbn [fst]; [rewrite length_replicate; lia | intros j Hj; lia].
  - intros j t Hj Ht. apply ndvi_pixel_inv; [lia | exact Ht].
Qed.

(** ** The classification *)

(** The class names the service reports, most vegetated first. *)
Inductive ndvi_class : Type :=
| DenseForest | ModerateVegetation | SparseVegetation | BareSoil | Water.

(** The thresholds scanned from the highest to the lowest, each with [>]. *)
Definition class_of_index (val : spec_float) : ndvi_class :=
  if F64.gtb val F64.lit_0_6 then DenseForest
  else if F64.gtb val F64.lit_0_4 then ModerateVegetation
  else if F64.gtb val F64.lit_0_2 then SparseVegetation
  else if F64.gtb val F64.zero then BareSoil
  else Water.

Definition class_rgb (c : ndvi_class) : Z * Z * Z :=
  match c with
  | DenseForest => (0, 128, 0)
  | ModerateVegetation => (34, 139, 34)
  | SparseVegetation => (144, 238, 144)
  | BareSoil => (210, 180, 140)
  | Water => (65, 105, 225)
  end.

Definition class_alpha (c : ndvi_class) (val : spec_float) : Z :=
  match c with
  | DenseForest => 200
  | ModerateVegetation => 180
  | SparseVegetation => 150
  | BareSoil => 120
  | Water => if F64.ltb val F64.lit_m0_1 then 150 else 50
  end.

Lemma classify_pixel_class (ndvi : list spec_float) (i : Z) (rgba : list byte) :
  let val := f32_get ndvi i in
  let c := class_of_index val in
  classify_pixel ndvi i rgba
  = set_rgba rgba (i * 4) (class_rgb c).1.1 (class_rgb c).1.2 (class_rgb c).2
      (class_alpha c val).
Proof.
  cbv zeta. unfold classify_pixel, class_of_index.
  destruct (F64.gtb (f32_get ndvi i) F64.lit_0_6); [reflexivity|].
  destruct (F64.gtb (f32_get ndvi i) F64.lit_0_4); [reflexivity|].
  destruct (F64.gtb (f32_get ndvi i) F64.lit_0_2); [reflexivity|].
  destruct (F64.gtb (f32_get ndvi i) F64.zero); reflexivity.
Qed.

Lemma class_rgb_range (c : ndvi_class) :
  0 <= (class_rgb c).1.1 < 256 /\ 0 <= (class_rgb c).1.2 < 256 /\ 0 <= (class_rgb c).2 < 256.
Proof. destruct c; cbn; lia. Qed.

Lemma class_alpha_range (c : ndvi_class) (val : spec_float) :
  0 <= class_alpha c val < 256.
Proof. destruct c; cbn; try lia. destruct (F64.ltb _ _); lia. Qed.

(** The RGBA buffer after [k] turns of the second loop. *)
Definition rgba_inv (ndvi : list spec_float) (n k : Z) (rgba : list byte) : Prop :=
  byteLength rgba = 4 * n
  /\ forall p, 0 <= p < k ->
       let val := f32_get ndvi p in
       let c := class_of_index val in
       u8_get rgba (4 * p) = Some (class_rgb c).1.1
       /\ u8_get rgba (4 * p + 1) = Some (class_rgb c).1.2
       /\ u8_get rgba (4 * p + 2) = Some (class_rgb c).2
       /\ u8_get rgba (4 * p + 3) = Some (class_alpha c val).

Lemma classify_pixel_inv (ndvi : list spec_float) (n k : Z) (rgba : list byte) :
  0 <= k < n ->
  rgba_inv ndvi n k rgba -> rgba_inv ndvi n (k + 1) (classify_pixel ndvi k rgba).
Proof.
  intros Hk (Hlen & Hpix). rewrite classify_pixel_class. unfold set_rgba.
  pose proof (class_rgb_range (class_of_index (f32_get ndvi k))) as (Hr & Hg & Hb).
  pose proof (class_alpha_range (class_of_index (f32_get ndvi k)) (f32_get ndvi k)) as Ha.
  split; [by rewrite !byteLength_u8_set|].
  intros p Hp. cbv zeta.
  destruct (Z.eq_dec p k) as [->|Hne].
  - repeat split; u8_reads; f_equal; apply Z.mod_small; assumption.
  - repeat split; u8_reads; apply Hpix; lia.
Qed.

Lemma ndvi_rgba_inv (ndvi : list spec_float) (width height : Z) :
  0 <= width * height ->
  rgba_inv ndvi (width * height) (width * height) (ndvi_rgba ndvi width height).
Proof.
  intros Hn. unfold ndvi_rgba.
  replace (width * height) with (0 + Z.of_nat (Z.to_nat (width * height))) at 2 by lia.
  apply (for_range_invariant (rgba_inv ndvi (width * height))).
  - split; [unfold byteLength; rewrite length_replicate; lia | intros p Hp; lia].
  - intros j t Hj Ht. apply classify_pixel_inv; [lia | exact Ht].
Qed.

(** ** C2 *)

(** C2. In the index raster that the first loop of [generateNdviMask] fills,
    the value at every pixel [i] is 0 when the sum [nir + red] of the two
    band values is [<= 0] (and also when the sum is not a number), so it is
    finite there, and is the quotient [(nir - red) / (nir + red)], stored as
    a binary32 value, when the sum is [> 0]. *)
Theorem ndvi_index_total (b04Data b08Data : list spec_float) (w h : nat) (i : Z) :
  0 <= i < Z.of_nat w * Z.of_nat h ->
  let red := f32_get b04Data i in
  let nir := f32_get b08Data i in
  let ndvi := fst (ndvi_raster b04Data b08Data (Z.of_nat w) (Z.of_nat h)) in
  length ndvi = (w * h)%nat
  /\ exists v,
       ndvi !! Z.to_nat i = Some v
       /\ (F64.leb (F64.add nir red) F64.zero = true ->
           v = F64.zero /\ F64.is_finite v = true)
       /\ (F64.gtb (F64.add nir red) F64.zero = true ->
           v = F32.round (F64.div (F64.sub nir red) (F64.add nir red)))
       /\ (F64.gtb (F64.add nir red) F64.zero = false -> v = F64.zero).
Proof.
  intros Hi red nir ndvi.
  destruct (ndvi_raster_inv b04Data b08Data (Z.of_nat w) (Z.of_nat h)) as (Hlen & Hpix);
    [lia|].
  split; [subst ndvi; lia|].
  exists (ndvi_value b04Data b08Data i). split; [apply Hpix; lia|].
  unfold ndvi_value. fold red nir.
  split; [|split].
  - intros Hle. rewrite (F64_leb_zero_not_gtb _ Hle). split; reflexivity.
  - intros ->. reflexivity.
  - intros ->. reflexivity.
Qed.

(** Red 0.5 and near-infrared 0.1 give the quotient; red -0.3 and
    near-infrared 0.1 have a negative sum and give 0. *)
Lemma ndvi_index_total_witness :
  let red := [F32.round (reflectance 5000); F32.round (reflectance (-3000))] in
  let nir := [F32.round (reflectance 1000); F32.round (reflectance 1000)] in
  exists v0 v1,
    fst (ndvi_raster red nir 2 1) !! 0%nat = Some v0
    /\ fst (ndvi_raster red nir 2 1) !! 1%nat = Some v1
    /\ v0 = S754_finite true 11184811 (-24)
    /\ v1 = F64.zero.
Proof.
  intros red nir.
  destruct (ndvi_index_total red nir 2 1 0 ltac:(lia)) as (_ & v0 & H0 & _ & Hgt & _).
  destruct (ndvi_index_total red nir 2 1 1 ltac:(lia)) as (_ & v1 & H1 & Hle & _).
  exists v0, v1. repeat split; try assumption.
  - rewrite Hgt; vm_compute; reflexivity.
  - apply Hle. vm_compute. reflexivity.
Defined.

(** ** C9 *)

Lemma SFeqb_finite (x : spec_float) (s : bool) (m : positive) (e : Z) :
  SFeqb x (S754_finite s m e) = true -> x = S754_finite s m e.
Proof.
  unfold SFeqb, SFcompare.
  destruct x as [sx|sx| |sx mx ex]; try (destruct sx, s; discriminate);
    try (destruct s; discriminate); try discriminate.
  assert (Pos.compare_cont Eq mx m = (mx ?= m)%positive) as ->.
  { rewrite Pos.compare_cont_spec. by destruct (mx ?= m)%positive. }
  destruct sx, s; try discriminate;
    destruct (Z.compare_spec ex e) as [->|?|?]; try discriminate;
    destruct (Pos.compare_spec mx m) as [->|?|?]; simpl; try discriminate;
    reflexivity.
Qed.

Lemma SFeqb_zero (x : spec_float) :
  SFeqb x F64.zero = true -> exists s, x = S754_zero s.
Proof.
  unfold SFeqb, SFcompare, F64.zero.
  destruct x as [sx|sx| |sx mx ex]; try (destruct sx; discriminate); try discriminate.
  intros _. by exists sx.
Qed.

(** C9, amended. The second loop of [generateNdviMask] puts every pixel in
    exactly one of five classes by scanning the thresholds 0.6, 0.4, 0.2, 0
    from the highest down with the strict comparison [val > threshold], and
    writes the class's fixed colour with its alpha, the water class getting
    alpha 150 below -0.1 and 50 otherwise. An index equal to the threshold
    0 fails the comparison [val > 0] and falls in the bucket below, water.
    The thresholds 0.6, 0.4 and 0.2 are binary64 numbers, while the index
    is stored as a binary32 number: when the quotient is 0.6, 0.4 or 0.2
    the array holds the binary32 number nearest to it, which is above the
    threshold, and the pixel falls in the bucket above. *)
Theorem classification_by_thresholds (ndvi : list spec_float) (w h : nat) (i : Z) :
  0 <= i < Z.of_nat w * Z.of_nat h ->
  let val := f32_get ndvi i in
  let c := class_of_index val in
  let rgba := ndvi_rgba ndvi (Z.of_nat w) (Z.of_nat h) in
  (c = DenseForest <-> F64.gtb val F64.lit_0_6 = true)
  /\ (c = ModerateVegetation <->
      F64.gtb val F64.lit_0_6 = false /\ F64.gtb val F64.lit_0_4 = true)
  /\ (c = SparseVegetation <->
      F64.gtb val F64.lit_0_6 = false /\ F64.gtb val F64.lit_0_4 = false
      /\ F64.gtb val F64.lit_0_2 = true)
  /\ (c = BareSoil <->
      F64.gtb val F64.lit_0_6 = false /\ F64.gtb val F64.lit_0_4 = false
      /\ F64.gtb val F64.lit_0_2 = false /\ F64.gtb val F64.zero = true)
  /\ (c = Water <->
      F64.gtb val F64.lit_0_6 = false /\ F64.gtb val F64.lit_0_4 = false
      /\ F64.gtb val F64.lit_0_2 = false /\ F64.gtb val F64.zero = false)
  /\ (SFeqb val F64.zero = true -> c = Water)
  /\ (ndvi !! Z.to_nat i = Some (F32.round F64.lit_0_6) -> c = DenseForest)
  /\ (ndvi !! Z.to_nat i = Some (F32.round F64.lit_0_4) -> c = ModerateVegetation)
  /\ (ndvi !! Z.to_nat i = Some (F32.round F64.lit_0_2) -> c = SparseVegetation)
  /\ u8_get rgba (4 * i) = Some (class_rgb c).1.1
  /\ u8_get rgba (4 * i + 1) = Some (class_rgb c).1.2
  /\ u8_get rgba (4 * i + 2) = Some (class_rgb c).2
  /\ u8_get rgba (4 * i + 3) = Some (class_alpha c val)
  /\ (c = Water ->
      class_alpha c val = if F64.ltb val F64.lit_m0_1 then 150 else 50).
Proof.
  intros Hi val c rgba.
  destruct (ndvi_rgba_inv ndvi (Z.of_nat w) (Z.of_nat h)) as (_ & Hpix); [lia|].
  specialize (Hpix i Hi). cbv zeta in Hpix. fold val c rgba in Hpix.
  destruct Hpix as (Hr & Hg & Hb & Ha).
  assert (forall x y, F64.gtb x y = true -> F64.gtb x y = false -> False) as Hno
    by (intros x y -> ; discriminate).
  repeat match goal with |- _ /\ _ => split end; try assumption.
  1-5: subst c; unfold class_of_index;
       destruct (F64.gtb val F64.lit_0_6) eqn:E6;
       [|destruct (F64.gtb val F64.lit_0_4) eqn:E4;
         [|destruct (F64.gtb val F64.lit_0_2) eqn:E2;
           [|destruct (F64.gtb val F64.zero) eqn:E0]]];
       intuition (discriminate || congruence).
  - intros [s ->]%SFeqb_zero. subst c. destruct s; reflexivity.
  - intros Hlk. subst c val. rewrite (f32_get_lookup _ i _ ltac:(lia) Hlk). reflexivity.
  - intros Hlk. subst c val. rewrite (f32_get_lookup _ i _ ltac:(lia) Hlk). reflexivity.
  - intros Hlk. subst c val. rewrite (f32_get_lookup _ i _ ltac:(lia) Hlk). reflexivity.
  - intros ->. reflexivity.
Qed.

(** Red 0.1 and near-infrared 0.5 give an index of about 0.667, classified
    as dense forest. *)
Lemma classification_by_thresholds_witness :
  let ndvi := fst (ndvi_raster [F32.round (reflectance 1000)]
                               [F32.round (reflectance 5000)] 1 1) in
  class_of_index (f32_get ndvi 0) = DenseForest
  /\ u8_get (ndvi_rgba ndvi 1 1) 0 = Some 0
  /\ u8_get (ndvi_rgba ndvi 1 1) 1 = Some 128
  /\ u8_get (ndvi_rgba ndvi 1 1) 2 = Some 0
  /\ u8_get (ndvi_rgba ndvi 1 1) 3 = Some 200.
Proof.
  intros ndvi.
  destruct (classification_by_thresholds ndvi 1 1 0 ltac:(lia))
    as (Hd & _ & _ & _ & _ & _ & _ & _ & _ & Hr & Hg & Hb & Ha & _).
  assert (class_of_index (f32_get ndvi 0) = DenseForest) as Hc
    by (apply Hd; vm_compute; reflexivity).
  rewrite Hc in Hr, Hg, Hb, Ha. repeat split; assumption.
Defined.

(** Red 1 with near-infrared 4, red 3 with near-infrared 7 and red 2 with
    near-infrared 3 have the quotients 0.6, 0.4 and 0.2. The array holds
    the binary32 numbers nearest to them, each above its threshold, and
    the pixels get the colours of dense forest, moderate vegetation and
    sparse vegetation: the bucket above the threshold. *)
Lemma threshold_quotients_in_higher_bucket :
  let b04Data := (fun z => F32.round (F64.of_Z z)) <$> [1; 3; 2] in
  let b08Data := (fun z => F32.round (F64.of_Z z)) <$> [4; 7; 3] in
  let ndvi := fst (ndvi_raster b04Data b08Data 3 1) in
  F64.div (F64.sub (f32_get b08Data 0) (f32_get b04Data 0))
          (F64.add (f32_get b08Data 0) (f32_get b04Data 0)) = F64.lit_0_6
  /\ F64.div (F64.sub (f32_get b08Data 1) (f32_get b04Data 1))
             (F64.add (f32_get b08Data 1) (f32_get b04Data 1)) = F64.lit_0_4
  /\ F64.div (F64.sub (f32_get b08Data 2) (f32_get b04Data 2))
             (F64.add (f32_get b08Data 2) (f32_get b04Data 2)) = F64.lit_0_2
  /\ ndvi = [F32.round F64.lit_0_6; F32.round F64.lit_0_4; F32.round F64.lit_0_2]
  /\ F64.gtb (f32_get ndvi 0) F64.lit_0_6 = true
  /\ F64.gtb (f32_get ndvi 1) F64.lit_0_4 = true
  /\ F64.gtb (f32_get ndvi 2) F64.lit_0_2 = true
  /\ byte.unsigned <$> ndvi_rgba ndvi 3 1
     = [0; 128; 0; 200; 34; 139; 34; 180; 144; 238; 144; 150].
Proof. vm_compute. by repeat split. Qed.

(** Equal red and near-infrared values give the index 0, which is the
    lowest threshold: the pixel gets the colour of the water class, below
    the threshold, and not the colour of the bare-soil class above it. *)
Lemma threshold_value_in_lower_bucket :
  let ndvi := fst (ndvi_raster [F32.round (reflectance 5000)]
                               [F32.round (reflectance 5000)] 1 1) in
  ndvi = [F64.zero]
  /\ SFeqb (f32_get ndvi 0) F64.zero = true
  /\ byte.unsigned <$> ndvi_rgba ndvi 1 1 = [65; 105; 225; 50]
  /\ byte.unsigned <$> ndvi_rgba ndvi 1 1 <> [210; 180; 140; 120].
Proof. vm_compute. repeat split; discriminate. Qed.

(** ** C1 *)

Lemma F64_add_nan_l (x : spec_float) : F64.add F64.nan x = F64.nan.
Proof. reflexivity. Qed.

Lemma F64_add_nan_r (x : spec_float) : F64.add x F64.nan = F64.nan.
Proof. by destruct x. Qed.

(** A pixel that either band lacks reads as NaN there and gets the index 0. *)
Lemma ndvi_value_outside (b04Data b08Data : list spec_float) (i : Z) :
  Z.of_nat (length b04Data) <= i \/ Z.of_nat (length b08Data) <= i ->
  ndvi_value b04Data b08Data i = F64.zero.
Proof.
  intros [Hi|Hi]; unfold ndvi_value; rewrite (f32_get_outside _ i Hi).
  - by rewrite F64_add_nan_r.
  - by rewrite F64_add_nan_l.
Qed.

(** For non-negative dimensions the bitmap is written; with a bitmap
    within the engine's argument limit [generateNdviMask] returns it as a
    data URL together with the statistic. *)
Lemma generateNdviMask_returns (argumentLimit : Z) (b04Data b08Data : list spec_float)
  (width height : Z) :
  0 <= width -> 0 <= height ->
  54 + 4 * (width * height) <= argumentLimit ->
  let ndvi := fst (ndvi_raster b04Data b08Data width height) in
  let forestPixels := snd (ndvi_raster b04Data b08Data width height) in
  let rgba := ndvi_rgba ndvi width height in
  exists bmp,
    bmp_inv rgba (bmp_header width height) (width * height) (width * height)
      (bmp, 54 + 4 * (width * height))
    /\ generateNdviMask argumentLimit b04Data b08Data width height
       = Returned
           {| maskDataUrl :=
                String.append "data:image/bmp;base64," (btoa (string_of_list_byte bmp));
              forestPercentage :=
                F64.mul (F64.div (F64.of_Z forestPixels) (F64.of_Z (width * height)))
                        (F64.of_Z 100) |}.
Proof.
  intros Hw Hh Hfits ndvi forestPixels rgba. unfold generateNdviMask.
  destruct (Z.ltb_spec (width * height) 0) as [Hneg|_]; [nia|].
  destruct (ndvi_raster b04Data b08Data width height) as [nd forest] eqn:Hraster.
  cbn [fst snd] in ndvi, forestPixels. subst ndvi forestPixels rgba.
  destruct (ndvi_rgba_inv nd width height) as (Hlen & _); [nia|].
  destruct (createBMP_returns (ndvi_rgba nd width height) width height Hw Hh Hlen)
    as (bmp & -> & Hinv).
  cbn [bind]. exists bmp. split; [exact Hinv|].
  destruct Hinv as (_ & Hblen & _). cbn [fst] in Hblen.
  unfold fromCharCode_spread. rewrite Hblen.
  destruct (Z.leb_spec (54 + 4 * (width * height)) argumentLimit); [|lia].
  reflexivity.
Qed.

(** With a bitmap beyond the limit the spread throws, whatever the bands. *)
Lemma generateNdviMask_too_large (argumentLimit : Z) (b04Data b08Data : list spec_float)
  (width height : Z) :
  0 <= width -> 0 <= height ->
  argumentLimit < 54 + 4 * (width * height) ->
  generateNdviMask argumentLimit b04Data b08Data width height = Threw RangeError.
Proof.
  intros Hw Hh Hlarge. unfold generateNdviMask.
  destruct (Z.ltb_spec (width * height) 0) as [Hneg|_]; [nia|].
  destruct (ndvi_raster b04Data b08Data width height) as [nd forest] eqn:Hraster.
  destruct (ndvi_rgba_inv nd width height) as (Hlen & _); [nia|].
  destruct (createBMP_returns (ndvi_rgba nd width height) width height Hw Hh Hlen)
    as (bmp & -> & Hinv).
  cbn [bind].
  destruct Hinv as (_ & Hblen & _). cbn [fst] in Hblen.
  unfold fromCharCode_spread. rewrite Hblen.
  destruct (Z.leb_spec (54 + 4 * (width * height)) argumentLimit); [lia|].
  reflexivity.
Qed.

(** C1, amended. [generateNdviMask] compares neither the sizes of its two
    bands with each other nor with [width * height]; the one thing that
    decides between a result and an error is the size of the bitmap, which
    depends on [width] and [height] alone. For every pair of bands, of
    equal sizes or not: when the bitmap of [54 + 4 * width * height] bytes
    is within the engine's argument limit, the call returns the data URL of
    that bitmap and a statistic, and a pixel that either band lacks gets
    the index 0 and the colour of the water class with alpha 50; when the
    bitmap is beyond the limit, the call throws the [RangeError] of the
    spread. *)
Theorem generateNdviMask_no_shape_check (argumentLimit : Z)
  (b04Data b08Data : list spec_float) (w h : nat) :
  let size := 54 + 4 * (Z.of_nat w * Z.of_nat h) in
  (size <= argumentLimit ->
   exists r bmp,
     generateNdviMask argumentLimit b04Data b08Data (Z.of_nat w) (Z.of_nat h) = Returned r
     /\ maskDataUrl r
        = String.append "data:image/bmp;base64," (btoa (string_of_list_byte bmp))
     /\ byteLength bmp = size
     /\ forall i : Z,
          0 <= i < Z.of_nat w * Z.of_nat h ->
          Z.of_nat (length b04Data) <= i \/ Z.of_nat (length b08Data) <= i ->
          fst (ndvi_raster b04Data b08Data (Z.of_nat w) (Z.of_nat h)) !! Z.to_nat i
            = Some F64.zero
          /\ u8_get bmp (54 + 4 * i) = Some 225
          /\ u8_get bmp (54 + 4 * i + 1) = Some 105
          /\ u8_get bmp (54 + 4 * i + 2) = Some 65
          /\ u8_get bmp (54 + 4 * i + 3) = Some 50)
  /\ (argumentLimit < size ->
      generateNdviMask argumentLimit b04Data b08Data (Z.of_nat w) (Z.of_nat h)
      = Threw RangeError).
Proof.
  intros size. split; [|apply generateNdviMask_too_large; lia].
  intros Hfits.
  destruct (generateNdviMask_returns argumentLimit b04Data b08Data (Z.of_nat w) (Z.of_nat h))
    as (bmp & (_ & Hblen & _ & Hbmp) & Hr); [lia | lia | exact Hfits |].
  cbn [fst snd] in *.
  eexists. exists bmp. split; [exact Hr|]. split; [reflexivity|]. split; [exact Hblen|].
  intros i Hi Hout.
  destruct (ndvi_raster_inv b04Data b08Data (Z.of_nat w) (Z.of_nat h)) as (_ & Hnd); [lia|].
  specialize (Hnd i Hi). rewrite ndvi_value_outside in Hnd by assumption.
  split; [exact Hnd|].
  destruct (ndvi_rgba_inv (fst (ndvi_raster b04Data b08Data (Z.of_nat w) (Z.of_nat h)))
              (Z.of_nat w) (Z.of_nat h)) as (_ & Hpix); [lia|].
  specialize (Hpix i Hi). cbv zeta in Hpix.
  rewrite (f32_get_lookup _ i F64.zero) in Hpix by (lia || assumption).
  change (class_of_index (F32.to_f64 F64.zero)) with Water in Hpix.
  destruct Hpix as (Hr0 & Hg0 & Hb0 & Ha0).
  destruct (Hbmp i Hi) as (H1 & H2 & H3 & H4).
  rewrite H1, H2, H3, H4. repeat split; assumption.
Qed.

(** A 256 x 256 red band with a 128 x 128 near-infrared band, the size
    the handler asks for, on an engine that takes 65536 arguments (or any
    number below 262198): the bitmap has 262198 bytes and the call throws
    the [RangeError] of the spread, as it does for two bands of
    256 x 256. *)
Lemma generateNdviMask_no_shape_check_witness :
  let b04Data := replicate (256 * 256) (F32.round (reflectance 1000)) in
  let b08Data := replicate (128 * 128) (F32.round (reflectance 5000)) in
  generateNdviMask 65536 b04Data b08Data (Z.of_nat 256) (Z.of_nat 256) = Threw RangeError
  /\ generateNdviMask 65536 b04Data b04Data (Z.of_nat 256) (Z.of_nat 256) = Threw RangeError.
Proof.
  intros b04Data b08Data.
  split.
  - apply (generateNdviMask_no_shape_check 65536 b04Data b08Data 256 256). lia.
  - apply (generateNdviMask_no_shape_check 65536 b04Data b04Data 256 256). lia.
Defined.

(** A 2 x 2 red band with a 1 x 1 near-infrared band, on the same engine
    (any limit from 70 on gives the same): no error is reported. The call
    returns the data URL of a 2 x 2 bitmap, in which the three pixels
    without a near-infrared value are painted as water, and the
    statistic 25. *)
Lemma mismatched_bands_accepted :
  let b04Data := replicate 4 (F32.round (reflectance 1000)) in
  let b08Data := [F32.round (reflectance 5000)] in
  generateNdviMask 65536 b04Data b08Data 2 2
  = Returned
      {| maskDataUrl :=
           "data:image/bmp;base64,Qk1GAAAAAAAAADYAAAAoAAAAAgAAAP7///8BACAAAAAAABAAAAATCwAAEwsAAAAAAAAAAAAAAIAAyOFpQTLhaUEy4WlBMg==";
         forestPercentage := F64.of_Z 25 |}.
Proof. vm_compute. reflexivity. Qed.

(** The bitmap of that data URL: the header of 54 bytes, then the four
    pixels in the order blue, green, red, alpha. *)
Example mismatched_bands_bitmap :
  btoa (string_of_list_byte (byte.of_Z <$>
    [66; 77; 70; 0; 0; 0; 0; 0; 0; 0; 54; 0; 0; 0; 40; 0; 0; 0; 2; 0; 0; 0;
     254; 255; 255; 255; 1; 0; 32; 0; 0; 0; 0; 0; 16; 0; 0; 0; 19; 11; 0; 0;
     19; 11; 0; 0; 0; 0; 0; 0; 0; 0; 0; 0;
     0; 128; 0; 200; 225; 105; 65; 50; 225; 105; 65; 50; 225; 105; 65; 50]))
  = "Qk1GAAAAAAAAADYAAAAoAAAAAgAAAP7///8BACAAAAAAABAAAAATCwAAEwsAAAAAAAAAAAAAAIAAyOFpQTLhaUEy4WlBMg=="%string.
Proof. vm_compute. reflexivity. Qed.

(** ** Loops whose body may throw *)

Lemma for_rangeM_invariant {St : Type} (P : Z -> St -> Prop)
  (body : Z -> St -> outcome St) (n : nat) (i : Z) (s : St) :
  P i s ->
  (forall j t, i <= j < i + Z.of_nat n -> P j t ->
     exists t', body j t = Returned t' /\ P (j + 1) t') ->
  exists s', for_rangeM n i body s = Returned s' /\ P (i + Z.of_nat n) s'.
Proof.
  revert i s. induction n as [|n IH]; intros i s H0 Hstep; cbn [for_rangeM].
  - exists s. split; [reflexivity|]. replace (i + Z.of_nat 0) with i by lia. exact H0.
  - destruct (Hstep i s) as (t' & -> & Ht'); [lia | exact H0 |]. cbn [bind].
    replace (i + Z.of_nat (S n)) with ((i + 1) + Z.of_nat n) by lia.
    apply IH; [exact Ht'|]. intros j t Hj. apply Hstep. lia.
Qed.

(** ** The fallback scanner *)

(** The [i]-th 16-bit value from byte [start] on. *)
Definition sample_at (buffer : list byte) (littleEndian : bool) (start i : Z) : Z :=
  to_int16 (combine_bytes littleEndian (bytes_at buffer (start + i * 2) 2)).

(** [val >= -1 && val <= 2] for [val = int16Val / 10000]. *)
Definition plausible (int16Val : Z) : bool :=
  F64.geb (reflectance int16Val) (F64.of_Z (-1))
  && F64.leb (reflectance int16Val) (F64.of_Z 2).

(** How many of the first [n] values are plausible. *)
Fixpoint valid_count (buffer : list byte) (littleEndian : bool) (start : Z) (n : nat) : Z :=
  match n with
  | O => 0
  | S n' =>
      valid_count buffer littleEndian start n'
      + (if plausible (sample_at buffer littleEndian start (Z.of_nat n')) then 1 else 0)
  end.

(** The test a candidate offset has to pass. *)
Definition accepts (buffer : list byte) (totalPixels : Z) (littleEndian : bool)
  (start : Z) : bool :=
  (0 <=? start) && (start + totalPixels * 2 <=? byteLength buffer)
  && (valid_count buffer littleEndian start (Z.to_nat (Z.min 100 totalPixels)) >? 80).

(** The raster read from a candidate offset. *)
Definition raster_at (buffer : list byte) (littleEndian : bool) (start : Z) (n : nat)
  : list spec_float :=
  (fun i => F32.round (reflectance (sample_at buffer littleEndian start (Z.of_nat i))))
    <$> seq 0 n.

Lemma getInt16_in_range (buffer : list byte) (littleEndian : bool) (start i : Z) :
  0 <= start -> 0 <= i -> start + i * 2 + 2 <= byteLength buffer ->
  getInt16 buffer (start + i * 2) littleEndian
  = Returned (sample_at buffer littleEndian start i).
Proof.
  intros H0 H1 H2. unfold getInt16, in_view.
  destruct (Z.leb_spec 0 (start + i * 2)); [|lia].
  destruct (Z.leb_spec (start + i * 2 + 2) (byteLength buffer)); [|lia].
  reflexivity.
Qed.

Lemma count_valid_returns (buffer : list byte) (littleEndian : bool) (start : Z) (n : nat) :
  0 <= start -> start + Z.of_nat n * 2 <= byteLength buffer ->
  count_valid buffer littleEndian start n
  = Returned (valid_count buffer littleEndian start n).
Proof.
  intros H0 H1. unfold count_valid.
  edestruct (for_rangeM_invariant
     (fun j v => v = valid_count buffer littleEndian start (Z.to_nat j)))
    as (v & -> & Hv); [reflexivity | | ].
  - intros j t Hj ->. rewrite getInt16_in_range by lia. cbn [bind].
    eexists. split; [reflexivity|].
    replace (Z.to_nat (j + 1)) with (S (Z.to_nat j)) by lia. cbn [valid_count].
    rewrite Z2Nat.id by lia. unfold plausible.
    destruct (_ && _); lia.
  - rewrite Hv. do 2 f_equal. lia.
Qed.

Lemma fill_from_returns (buffer : list byte) (littleEndian : bool) (start : Z) (n : nat) :
  0 <= start -> start + Z.of_nat n * 2 <= byteLength buffer ->
  fill_from buffer littleEndian start n (replicate n F64.zero)
  = Returned (raster_at buffer littleEndian start n).
Proof.
  intros H0 H1. unfold fill_from.
  edestruct (for_rangeM_invariant
     (fun j res =>
        length res = n
        /\ forall p : nat,
             res !! p = if decide (Z.of_nat p < j)
                        then raster_at buffer littleEndian start n !! p
                        else replicate n F64.zero !! p))
    as (res & -> & Hlen & Hres).
  - split; [apply length_replicate|]. intros p. destruct (decide _); [lia | reflexivity].
  - intros j t Hj (Hlen & Ht). rewrite getInt16_in_range by lia. cbn [bind].
    eexists. split; [reflexivity|]. split; [by rewrite length_f32_set|].
    intros p. destruct (decide (Z.to_nat j = p)) as [<-|Hne].
    + rewrite f32_set_lookup_eq by lia.
      destruct (decide _); [|lia].
      unfold raster_at. rewrite list_lookup_fmap, lookup_seq_lt by lia.
      cbn. do 4 f_equal. lia.
    + rewrite f32_set_lookup_ne by (lia || assumption). rewrite Ht.
      destruct (decide (Z.of_nat p < j)), (decide (Z.of_nat p < j + 1)); try lia; reflexivity.
  - f_equal. apply list_eq. intros p. rewrite Hres.
    destruct (decide _) as [|Hge]; [reflexivity|].
    rewrite !(proj2 (lookup_ge_None _ _)); [reflexivity | | ].
    + unfold raster_at. rewrite length_fmap, length_seq. lia.
    + rewrite length_replicate. lia.
Qed.

Lemma scan_starts_find (buffer : list byte) (n : nat) (littleEndian : bool)
  (starts : list Z) :
  scan_starts buffer (Z.of_nat n) littleEndian starts (replicate n F64.zero)
  = Returned
      match find (accepts buffer (Z.of_nat n) littleEndian) starts with
      | Some start => raster_at buffer littleEndian start n
      | None => replicate n F64.zero
      end.
Proof.
  induction starts as [|start rest IH]; cbn [scan_starts find]; [reflexivity|].
  unfold accepts at 1.
  destruct (Z.leb_spec 0 start) as [H0|H0]; cbn [andb]; [|exact IH].
  destruct (Z.leb_spec (start + Z.of_nat n * 2) (byteLength buffer)) as [H1|H1];
    cbn [andb]; [|exact IH].
  rewrite count_valid_returns by lia. cbn [bind].
  destruct (_ >? 80); [|exact IH].
  rewrite Nat2Z.id. by apply fill_from_returns.
Qed.

(** ** C7 *)

(** C7, amended. [extractFallback] tries the offsets 8, 256, 512 and
    [byteLength - 2 * width * height] in this order. It accepts an offset
    if and only if the offset is not negative, the [2 * width * height]
    bytes expected fit in the buffer from it, and more than 80 (at least
    81) of the first [min(100, width * height)] 16-bit values there,
    divided by 10000, lie in [-1, 2]. The raster is read from the first
    accepted offset; when none is accepted the scanner returns
    [width * height] zeros. It never throws. *)
Theorem extractFallback_first_accepted (buffer : list byte) (w h : nat)
  (littleEndian : bool) :
  let totalPixels := Z.of_nat w * Z.of_nat h in
  possibleStarts buffer totalPixels = [8; 256; 512; byteLength buffer - totalPixels * 2]
  /\ (forall start,
        accepts buffer totalPixels littleEndian start = true <->
        0 <= start /\ start + totalPixels * 2 <= byteLength buffer
        /\ 80 < valid_count buffer littleEndian start (Nat.min 100 (w * h)))
  /\ extractFallback buffer (Z.of_nat w) (Z.of_nat h) littleEndian
     = Returned
         match find (accepts buffer totalPixels littleEndian)
                 (possibleStarts buffer totalPixels) with
         | Some start => raster_at buffer littleEndian start (w * h)
         | None => replicate (w * h) F64.zero
         end.
Proof.
  intros totalPixels. split; [reflexivity|]. split.
  - intros start. unfold accepts.
    replace (Z.to_nat (Z.min 100 totalPixels)) with (Nat.min 100 (w * h)) by (subst totalPixels; lia).
    rewrite !andb_true_iff, !Z.leb_le, Z.gtb_ltb, Z.ltb_lt. tauto.
  - unfold extractFallback. fold totalPixels.
    destruct (Z.ltb_spec totalPixels 0) as [Hneg|_]; [subst totalPixels; lia|].
    unfold new_Float32Array.
    replace totalPixels with (Z.of_nat (w * h)) by (subst totalPixels; lia).
    rewrite Nat2Z.id. apply scan_starts_find.
Qed.

(** A buffer of 8 header bytes and 100 values of which exactly 80 are in
    range (the value 0) and 20 are not (30000, that is 3.0). *)
Definition eighty_of_hundred : list byte :=
  replicate 8 Byte.x00
  ++ concat (replicate 80 (le_split 2 0))
  ++ concat (replicate 20 (le_split 2 30000)).

(** With 80 of the 100 sampled values in range no offset is accepted: the
    scanner returns zeros although the values at offset 8 are not all zero. *)
Lemma fallback_rejects_80_of_100 :
  valid_count eighty_of_hundred true 8 100 = 80
  /\ accepts eighty_of_hundred 100 true 8 = false
  /\ extractFallback eighty_of_hundred 10 10 true = Returned (replicate 100 F64.zero)
  /\ raster_at eighty_of_hundred true 8 100 <> replicate 100 F64.zero.
Proof. vm_compute. repeat split; discriminate. Qed.

(** One more value in range and the offset 8 is accepted. *)
Definition eighty_one_of_hundred : list byte :=
  replicate 8 Byte.x00
  ++ concat (replicate 81 (le_split 2 0))
  ++ concat (replicate 19 (le_split 2 30000)).

Lemma fallback_accepts_81_of_100 :
  valid_count eighty_one_of_hundred true 8 100 = 81
  /\ extractFallback eighty_one_of_hundred 10 10 true
     = Returned (raster_at eighty_one_of_hundred true 8 100).
Proof. vm_compute. split; reflexivity. Qed.

(** The bounds of the range test on the 16-bit values themselves. *)
Lemma plausible_bounds :
  plausible (-10001) = false /\ plausible (-10000) = true
  /\ plausible 20000 = true /\ plausible 20001 = false.
Proof. vm_compute. repeat split. Qed.

(** ** JavaScript arrays *)

Lemma arr_get_Some_lt (arr : js_array) (i : Z) (e : list byte) :
  arr_get arr i = Some e -> 0 <= i < Z.of_nat (length arr).
Proof.
  unfold arr_get. destruct (Z.ltb_spec i 0); [discriminate|].
  destruct (arr !! Z.to_nat i) eqn:Hl; [|discriminate].
  apply lookup_lt_Some in Hl. lia.
Qed.

Lemma length_arr_set (arr : js_array) (i : Z) (v : list byte) :
  0 <= i ->
  Z.of_nat (length (arr_set arr i v)) = Z.max (Z.of_nat (length arr)) (i + 1).
Proof.
  intros Hi. unfold arr_set. destruct (Z.ltb_spec i 0); [lia|].
  destruct (Z.ltb_spec i (Z.of_nat (length arr))).
  - rewrite length_insert. lia.
  - rewrite !length_app, length_replicate. cbn [length]. lia.
Qed.

Lemma arr_get_set_eq (arr : js_array) (i : Z) (v : list byte) :
  0 <= i -> arr_get (arr_set arr i v) i = Some v.
Proof.
  intros Hi. unfold arr_get, arr_set. destruct (Z.ltb_spec i 0); [lia|].
  destruct (Z.ltb_spec i (Z.of_nat (length arr))).
  - rewrite list_lookup_insert_eq by lia. reflexivity.
  - rewrite lookup_app_r by lia. rewrite lookup_app_r by (rewrite length_replicate; lia).
    rewrite length_replicate.
    replace (Z.to_nat i - length arr - (Z.to_nat i - length arr))%nat with 0%nat by lia.
    reflexivity.
Qed.

Lemma arr_get_set_ne (arr : js_array) (i j : Z) (v : list byte) :
  i <> j -> j < Z.of_nat (length arr) \/ j < i -> arr_get (arr_set arr i v) j = arr_get arr j.
Proof.
  intros Hne Hj. unfold arr_get, arr_set.
  destruct (Z.ltb_spec j 0); [reflexivity|].
  destruct (Z.ltb_spec i 0); [reflexivity|].
  destruct (Z.ltb_spec i (Z.of_nat (length arr))).
  - rewrite list_lookup_insert_ne by lia. reflexivity.
  - destruct (Z.lt_ge_cases j (Z.of_nat (length arr))).
    + rewrite lookup_app_l by lia. reflexivity.
    + rewrite lookup_app_r by lia. rewrite lookup_app_l by (rewrite length_replicate; lia).
      rewrite (proj2 (lookup_ge_None arr _)) by lia.
      destruct (replicate _ _ !! _) as [o|] eqn:Hr; [|reflexivity].
      apply lookup_replicate in Hr as [-> _]. reflexivity.
Qed.

Lemma length_arr_set_length (arr : js_array) (n : Z) :
  0 <= n -> Z.of_nat (length (arr_set_length arr n)) = n.
Proof.
  intros Hn. unfold arr_set_length. rewrite length_app, length_take, length_replicate. lia.
Qed.

(** The dictionary while its first [j] entries are seeded. *)
Definition seeded (len0 j : Z) (d : js_array) : Prop :=
  Z.of_nat (length d) = Z.max len0 j
  /\ forall c, 0 <= c < j -> arr_get d c = Some [byte.of_Z c].

Lemma seed_dictionary_seeded (d : js_array) :
  seeded (Z.of_nat (length d)) 256 (seed_dictionary d).
Proof.
  unfold seed_dictionary.
  change 256 with (0 + Z.of_nat 256).
  apply (for_range_invariant (seeded (Z.of_nat (length d)))).
  - split; [lia | intros c Hc; lia].
  - intros j t Hj (Hlen & Hget). split.
    + rewrite length_arr_set by lia. lia.
    + intros c Hc. destruct (Z.eq_dec c j) as [->|Hne].
      * apply arr_get_set_eq. lia.
      * rewrite arr_get_set_ne by lia. apply Hget. lia.
Qed.

(** ** 32-bit operators on small operands *)

Lemma to_int32_testbit (z i : Z) : 0 <= i < 32 -> Z.testbit (to_int32 z) i = Z.testbit z i.
Proof.
  intros Hi. unfold to_int32.
  rewrite <- (Z.mod_pow2_bits_low (_ - _) 32 i) by lia.
  rewrite <- (Z.mod_pow2_bits_low z 32 i) by lia.
  f_equal. rewrite Zminus_mod_idemp_l. f_equal. lia.
Qed.

Lemma to_int32_range (z : Z) : - 2 ^ 31 <= to_int32 z < 2 ^ 31.
Proof.
  unfold to_int32. pose proof (Z.mod_pos_bound (z + 2 ^ 31) (2 ^ 32)). lia.
Qed.

Lemma js_shl_one (n : Z) : 0 <= n < 31 -> js_shl 1 n = 2 ^ n.
Proof.
  intros Hn. unfold js_shl. rewrite (to_int32_small 1) by lia.
  rewrite Z.mod_small by lia. rewrite Z.shiftl_1_l.
  apply to_int32_small. split; [lia|].
  apply Z.pow_lt_mono_r; lia.
Qed.

Lemma js_and_ones (a n : Z) :
  0 <= n < 31 -> js_and a (js_shl 1 n - 1) = to_int32 a mod 2 ^ n.
Proof.
  intros Hn. unfold js_and. rewrite js_shl_one by assumption.
  assert (0 < 2 ^ n < 2 ^ 31) by (split; [lia | apply Z.pow_lt_mono_r; lia]).
  rewrite (to_int32_small (2 ^ n - 1)) by lia.
  change (2 ^ n - 1) with (Z.pred (2 ^ n)). rewrite <- Z.ones_equiv.
  apply Z.land_ones. lia.
Qed.

(** ** The LZW decoder: invariant and termination *)

(** What holds of the decoder's state at every point of the main loop. *)
Definition lzw_ok (st : lzw_state) : Prop :=
  9 <= codeSize st <= 12
  /\ 258 <= nextCode st <= 4096
  /\ 256 <= Z.of_nat (length (dictionary st)) <= nextCode st
  /\ (forall c, 0 <= c < 256 \/ 258 <= c < nextCode st ->
        exists e, arr_get (dictionary st) c = Some e)
  /\ (oldCode st = -1 \/ 0 <= oldCode st < 256 \/ 258 <= oldCode st < nextCode st)
  /\ 0 <= bitsInBuffer st <= 19.

(** The bits not yet consumed: those buffered and those of the bytes left. *)
Definition bits_left (endPos : Z) (st : lzw_state) : Z :=
  bitsInBuffer st + 8 * Z.max 0 (endPos - bytePos st).

(** Two states that differ at most in the bit reader. *)
Definition same_tables (st st' : lzw_state) : Prop :=
  output st' = output st
  /\ dictionary st' = dictionary st
  /\ nextCode st' = nextCode st
  /\ codeSize st' = codeSize st
  /\ oldCode st' = oldCode st.

Lemma same_tables_refl (st : lzw_state) : same_tables st st.
Proof. by repeat split. Qed.

Lemma same_tables_trans (a b c : lzw_state) :
  same_tables a b -> same_tables b c -> same_tables a c.
Proof. unfold same_tables. intuition congruence. Qed.

Lemma fill_bits_spec (input : list byte) (endPos : Z) (fuel : nat) (st : lzw_state) :
  let st' := fill_bits fuel input endPos st in
  same_tables st st'
  /\ bits_left endPos st' = bits_left endPos st
  /\ bitsInBuffer st <= bitsInBuffer st'
  /\ (bitsInBuffer st' <= bitsInBuffer st \/ bitsInBuffer st' < codeSize st + 8).
Proof.
  revert st. induction fuel as [|fuel IH]; intros st; cbn [fill_bits].
  - split; [apply same_tables_refl|]. lia.
  - destruct (Z.ltb_spec (bitsInBuffer st) (codeSize st)) as [Hlt|Hge]; cbn [andb].
    2: { split; [apply same_tables_refl|]. lia. }
    destruct (Z.ltb_spec (bytePos st) endPos) as [Hpos|Hpos].
    2: { split; [apply same_tables_refl|]. lia. }
    specialize (IH (fill_step input st)). cbv zeta in IH.
    destruct IH as (Hsame & Hleft & Hmono & Hbound).
    split; [|split; [|split]].
    + eapply same_tables_trans; [|exact Hsame]. by repeat split.
    + rewrite Hleft. unfold bits_left, fill_step; cbn [bitsInBuffer bytePos].
      rewrite !Z.max_r by lia. lia.
    + change (bitsInBuffer (fill_step input st)) with (bitsInBuffer st + 8) in Hmono. lia.
    + right. change (bitsInBuffer (fill_step input st)) with (bitsInBuffer st + 8) in Hbound.
      change (codeSize (fill_step input st)) with (codeSize st) in Hbound. lia.
Qed.

(** The fuel given to the loop of [readCode] is enough: when it is used
    up, the condition of the loop is false. *)
Lemma fill_bits_complete (input : list byte) (endPos : Z) (fuel : nat) (st : lzw_state) :
  codeSize st - bitsInBuffer st <= Z.of_nat fuel ->
  let st' := fill_bits fuel input endPos st in
  (bitsInBuffer st' <? codeSize st') && (bytePos st' <? endPos) = false.
Proof.
  revert st. induction fuel as [|fuel IH]; intros st Hfuel; cbn [fill_bits].
  - destruct (Z.ltb_spec (bitsInBuffer st) (codeSize st)); [lia | reflexivity].
  - destruct ((bitsInBuffer st <? codeSize st) && (bytePos st <? endPos)) eqn:Hc;
      [|exact Hc].
    apply IH. change (bitsInBuffer (fill_step input st)) with (bitsInBuffer st + 8).
    change (codeSize (fill_step input st)) with (codeSize st).
    apply andb_true_iff in Hc as [Hc _]. apply Z.ltb_lt in Hc. lia.
Qed.

Lemma readCode_spec (input : list byte) (endPos : Z) (st : lzw_state) :
  lzw_ok st ->
  let code := fst (readCode input endPos st) in
  let st' := snd (readCode input endPos st) in
  same_tables st st' /\ lzw_ok st'
  /\ (code = EOI_CODE /\ bits_left endPos st' = bits_left endPos st
      \/ 0 <= code < 2 ^ codeSize st
         /\ bits_left endPos st' = bits_left endPos st - codeSize st).
Proof.
  intros (Hcs & Hnext & Hlen & Hget & Hold & Hbits). unfold readCode.
  pose proof (fill_bits_spec input endPos
                (Z.to_nat (codeSize st - bitsInBuffer st)) st) as Hfill.
  cbv zeta in Hfill.
  destruct (fill_bits _ input endPos st) as [out d nc cs bb bib bp oc].
  destruct Hfill as ((Ho & Hd & Hn & Hc & Hoc) & Hleft & Hmono & Hbound).
  cbn [output dictionary nextCode codeSize oldCode bitsInBuffer] in Ho, Hd, Hn, Hc, Hoc, Hmono, Hbound.
  subst out d nc cs oc.
  cbn [codeSize bitsInBuffer].
  destruct (Z.ltb_spec bib (codeSize st)) as [Hlt|Hge]; cbn [fst snd].
  - split; [by repeat split|]. split.
    + unfold lzw_ok; cbn [output dictionary nextCode codeSize oldCode bitsInBuffer].
      repeat split; try lia; assumption.
    + left. split; [reflexivity | exact Hleft].
  - split; [by repeat split|]. split.
    + unfold lzw_ok, take_bits; cbn [output dictionary nextCode codeSize oldCode bitsInBuffer].
      repeat split; try lia; assumption.
    + right. unfold take_bits; cbn [output dictionary nextCode codeSize oldCode bitsInBuffer bitBuffer].
      rewrite js_and_ones by lia. split.
      * apply Z.mod_pos_bound. lia.
      * unfold bits_left in *; cbn [bitsInBuffer bytePos] in *. lia.
Qed.

Lemma lzw_clear_ok (st : lzw_state) : lzw_ok st -> lzw_ok (lzw_clear st).
Proof.
  intros (Hcs & Hnext & Hlen & Hget & Hold & Hbits).
  pose proof (seed_dictionary_seeded (arr_set_length (dictionary st) 258)) as (Hl & Hg).
  rewrite length_arr_set_length in Hl by lia.
  unfold lzw_ok, lzw_clear; cbn [output dictionary nextCode codeSize oldCode bitsInBuffer].
  repeat split; try lia.
  intros c [Hc|Hc]; [|lia]. eexists. by apply Hg.
Qed.

(** The codes the dictionary holds an entry for. *)
Definition known_code (st : lzw_state) (code : Z) : Prop :=
  0 <= code < 256 \/ 258 <= code < nextCode st.

Lemma choose_entry_spec (st : lzw_state) (code : Z) :
  lzw_ok st -> 0 <= code < 2 ^ codeSize st -> code <> CLEAR_CODE -> code <> EOI_CODE ->
  match choose_entry st code with
  | EntryIs _ =>
      known_code st code
      \/ (code = nextCode st /\ 0 <= oldCode st /\ nextCode st < 4096)
  | EntryUndefined => False
  | EntryInvalid => True
  end.
Proof.
  intros (Hcs & Hnext & Hlen & Hget & Hold & Hbits) Hcode Hclear Heoi.
  unfold CLEAR_CODE, EOI_CODE in *. unfold choose_entry.
  destruct (Z.ltb_spec code (Z.of_nat (length (dictionary st)))) as [Hlt|Hge].
  - destruct (Hget code) as [e ->]; [lia|]. left. unfold known_code. lia.
  - destruct (Z.eqb_spec code (nextCode st)) as [->|Hne]; cbn [andb]; [|exact I].
    destruct (Z.geb_spec (oldCode st) 0) as [Hpos|Hneg]; [|exact I].
    destruct (Hget (oldCode st)) as [e ->]; [lia|]. right.
    assert (2 ^ codeSize st <= 2 ^ 12) by (apply Z.pow_le_mono_r; lia). lia.
Qed.

Lemma lzw_emit_spec (st : lzw_state) (code : Z) (entry : list byte) :
  lzw_ok st ->
  known_code st code \/ (code = nextCode st /\ 0 <= oldCode st /\ nextCode st < 4096) ->
  match lzw_emit st code entry with
  | Continue st' =>
      lzw_ok st' /\ bitsInBuffer st' = bitsInBuffer st /\ bytePos st' = bytePos st
      /\ output st' = output st ++ entry
  | _ => False
  end.
Proof.
  intros (Hcs & Hnext & Hlen & Hget & Hold & Hbits) Hcode. unfold lzw_emit.
  destruct (Z.geb_spec (oldCode st) 0) as [Hpos|Hneg]; cbn [andb].
  2: { split; [|by repeat split]. unfold lzw_ok, known_code in *;
       cbn [output dictionary nextCode codeSize oldCode bitsInBuffer].
       repeat split; try lia; try assumption. }
  destruct (Z.ltb_spec (nextCode st) 4096) as [Hroom|Hfull].
  2: { split; [|by repeat split]. unfold lzw_ok, known_code in *;
       cbn [output dictionary nextCode codeSize oldCode bitsInBuffer].
       repeat split; try lia; try assumption. }
  destruct (Hget (oldCode st)) as [old ->]; [lia|].
  split; [|by repeat split].
  unfold lzw_ok, known_code in *;
    cbn [output dictionary nextCode codeSize oldCode bitsInBuffer].
  repeat split; try lia.
  - destruct (_ && _); lia.
  - destruct (Z.ltb_spec (codeSize st) 12), (_ >=? _); cbn [andb]; lia.
  - rewrite length_arr_set by lia. lia.
  - rewrite length_arr_set by lia. lia.
  - intros c Hc. destruct (Z.eq_dec c (nextCode st)) as [->|Hne].
    + eexists. apply arr_get_set_eq. lia.
    + destruct (Hget c) as [e He]; [lia|]. exists e.
      rewrite arr_get_set_ne by lia. exact He.
Qed.

Lemma lzw_step_spec (input : list byte) (endPos : Z) (st : lzw_state) :
  lzw_ok st ->
  match lzw_step input endPos st with
  | Continue st' => lzw_ok st' /\ bits_left endPos st' <= bits_left endPos st - 9
  | Break st' => lzw_ok st'
  | Fault _ => False
  end.
Proof.
  intros Hok. unfold lzw_step.
  pose proof (readCode_spec input endPos st Hok) as Hread. cbv zeta in Hread.
  destruct (readCode input endPos st) as [code st1]. cbn [fst snd] in Hread.
  destruct Hread as (Hsame & Hok1 & Hcode).
  destruct (Z.eqb_spec code EOI_CODE) as [Heoi|Heoi]; [exact Hok1|].
  destruct Hcode as [[Hcode _]|[Hcode Hleft]]; [contradiction|].
  assert (9 <= codeSize st) as Hnine by (destruct Hok as (? & _); lia).
  destruct (Z.eqb_spec code CLEAR_CODE) as [Hclear|Hclear].
  { split; [by apply lzw_clear_ok|]. unfold bits_left in *.
    cbn [lzw_clear bitsInBuffer bytePos]. lia. }
  assert (codeSize st1 = codeSize st) as Hcs1 by (destruct Hsame as (_ & _ & _ & H & _); exact H).
  pose proof (choose_entry_spec st1 code Hok1) as Hchoose.
  rewrite Hcs1 in Hchoose. specialize (Hchoose Hcode Hclear Heoi).
  destruct (choose_entry st1 code) as [entry| |]; [|contradiction|exact Hok1].
  pose proof (lzw_emit_spec st1 code entry Hok1 Hchoose) as Hemit.
  destruct (lzw_emit st1 code entry) as [st2|st2|e]; try contradiction.
  destruct Hemit as (Hok2 & Hb & Hp & _). split; [exact Hok2|].
  unfold bits_left in *. rewrite Hb, Hp. lia.
Qed.

Lemma bits_left_nonneg (endPos : Z) (st : lzw_state) :
  lzw_ok st -> 0 <= bits_left endPos st.
Proof. intros (_ & _ & _ & _ & _ & Hbits). unfold bits_left. lia. Qed.

(** The main loop returns, in a state that satisfies the invariant, as soon
    as it has nine units of fuel for every bit left. *)
Lemma lzw_loop_returns (input : list byte) (endPos : Z) (fuel : nat) (st : lzw_state) :
  lzw_ok st -> bits_left endPos st < 9 * Z.of_nat fuel ->
  exists st', lzw_loop fuel input endPos st = Returned st' /\ lzw_ok st'.
Proof.
  revert st. induction fuel as [|fuel IH]; intros st Hok Hfuel.
  - pose proof (bits_left_nonneg endPos st Hok). lia.
  - cbn [lzw_loop]. destruct (lzw_running endPos st); [|by exists st].
    pose proof (lzw_step_spec input endPos st Hok) as Hstep.
    destruct (lzw_step input endPos st) as [st'|st'|e]; [|by exists st'|contradiction].
    destruct Hstep as (Hok' & Hleft). apply IH; [exact Hok'|lia].
Qed.

Lemma lzw_states_ok (input : list byte) (endPos : Z) (fuel : nat) (st : lzw_state) :
  lzw_ok st -> Forall lzw_ok (lzw_states fuel input endPos st).
Proof.
  revert st. induction fuel as [|fuel IH]; intros st Hok; cbn [lzw_states].
  - constructor; [exact Hok | constructor].
  - constructor; [exact Hok|].
    destruct (lzw_running endPos st); [|constructor].
    pose proof (lzw_step_spec input endPos st Hok) as Hstep.
    destruct (lzw_step input endPos st) as [st'|st'|e].
    + apply IH. apply Hstep.
    + constructor; [exact Hstep | constructor].
    + constructor.
Qed.

Lemma lzw_init_ok (offset : Z) : lzw_ok (lzw_init offset).
Proof.
  pose proof (seed_dictionary_seeded []) as (Hl & Hg). cbn [length] in Hl, Hg.
  unfold lzw_ok, lzw_init; cbn [output dictionary nextCode codeSize oldCode bitsInBuffer].
  repeat split; try lia.
  intros c [Hc|Hc]; [|lia]. eexists. by apply Hg.
Qed.

(** [decompressLZW] returns for every input, offset and length. *)
Lemma decompressLZW_returns (input : list byte) (offset length : Z) :
  exists st,
    lzw_loop (S (Z.to_nat length)) input (offset + length) (lzw_init offset) = Returned st
    /\ lzw_ok st
    /\ decompressLZW input offset length = Returned (output st).
Proof.
  destruct (lzw_loop_returns input (offset + length) (S (Z.to_nat length))
              (lzw_init offset) (lzw_init_ok offset)) as (st & Hst & Hok).
  - unfold bits_left, lzw_init; cbn [bitsInBuffer bytePos]. lia.
  - exists st. split; [exact Hst|]. split; [exact Hok|].
    unfold decompressLZW. rewrite Hst. reflexivity.
Qed.

(** ** C10 *)

(** C10. For every input buffer, offset and length, [decompressLZW]
    terminates (the fuel of its loop is never used up) and returns a byte
    array without throwing; in every state the loop goes through, the last
    one included, the code size lies in [9, 12] and the dictionary has at
    most 4096 entries. *)
Theorem decompressLZW_total (input : list byte) (offset length : Z) :
  (exists out, decompressLZW input offset length = Returned out)
  /\ forall fuel : nat,
       Forall (fun st => 9 <= codeSize st <= 12
                         /\ (Datatypes.length (dictionary st) <= 4096)%nat)
         (lzw_states fuel input (offset + length) (lzw_init offset)).
Proof.
  split.
  - destruct (decompressLZW_returns input offset length) as (st & _ & _ & Hout).
    by exists (output st).
  - intros fuel.
    eapply Forall_impl; [apply lzw_states_ok, lzw_init_ok|].
    intros st (Hcs & Hnext & Hlen & _). cbv beta. lia.
Qed.

(** The states listed are those of the run: the run's result is the
    output of the last of them. *)
Lemma lzw_states_last (input : list byte) (endPos : Z) (fuel : nat) (st st' : lzw_state) :
  lzw_loop fuel input endPos st = Returned st' ->
  last (lzw_states fuel input endPos st) = Some st'.
Proof.
  revert st. induction fuel as [|fuel IH]; intros st; cbn [lzw_loop lzw_states].
  - discriminate.
  - destruct (lzw_running endPos st); [|by intros [= ->]].
    destruct (lzw_step input endPos st) as [st1|st1|e].
    + intros H. specialize (IH st1 H).
      destruct (lzw_states fuel input endPos st1) eqn:E; [discriminate|].
      exact IH.
    + by intros [= ->].
    + discriminate.
Qed.

(** ** The reference encoder and the decoder in step *)

(** ** Bit strings *)

Lemma length_bits_of (n : nat) (v : Z) : length (bits_of n v) = n.
Proof. induction n as [|n IH]; cbn [bits_of length]; [reflexivity | by rewrite IH]. Qed.

Lemma bits_of_ext (n : nat) (u v : Z) :
  (forall i, 0 <= i < Z.of_nat n -> Z.testbit u i = Z.testbit v i) ->
  bits_of n u = bits_of n v.
Proof.
  induction n as [|n IH]; intros H; cbn [bits_of]; [reflexivity|].
  rewrite H by lia. f_equal. apply IH. intros i Hi. apply H. lia.
Qed.

Lemma bits_of_app (a b : nat) (v : Z) :
  bits_of (a + b) v = bits_of a (Z.shiftr v (Z.of_nat b)) ++ bits_of b v.
Proof.
  induction a as [|a IH]; cbn [bits_of Nat.add app]; [reflexivity|].
  rewrite IH. f_equal. rewrite Z.shiftr_spec by lia. f_equal. lia.
Qed.

Lemma bits_of_lookup (n : nat) (v : Z) (k : nat) :
  (k < n)%nat -> bits_of n v !! k = Some (Z.testbit v (Z.of_nat (n - 1 - k))).
Proof.
  revert k. induction n as [|n IH]; intros k Hk; [lia|]. cbn [bits_of].
  destruct k as [|k]; cbn [lookup list_lookup].
  - do 2 f_equal. lia.
  - rewrite IH by lia. do 3 f_equal. lia.
Qed.

Lemma bits_of_inj (n : nat) (u v : Z) :
  0 <= u < 2 ^ Z.of_nat n -> 0 <= v < 2 ^ Z.of_nat n ->
  bits_of n u = bits_of n v -> u = v.
Proof.
  intros Hu Hv Heq. apply Z.bits_inj'. intros i Hi.
  destruct (Z.lt_ge_cases i (Z.of_nat n)) as [Hlt|Hge].
  - pose proof (bits_of_lookup n u (n - 1 - Z.to_nat i) ltac:(lia)) as Hlu.
    pose proof (bits_of_lookup n v (n - 1 - Z.to_nat i) ltac:(lia)) as Hlv.
    rewrite Heq, Hlv in Hlu. injection Hlu as Hlu.
    replace (Z.of_nat (n - 1 - (n - 1 - Z.to_nat i))) with i in Hlu by lia.
    by symmetry.
  - rewrite <- (Z.mod_small u (2 ^ Z.of_nat n)), <- (Z.mod_small v (2 ^ Z.of_nat n))
      by assumption.
    rewrite !Z.mod_pow2_bits_high by lia. reflexivity.
Qed.

(** The bits of a byte string, as [pack_bits] lays them out. *)
Definition bytes_bits (bytes : list byte) : list bool :=
  concat ((fun b => bits_of 8 (byte.unsigned b)) <$> bytes).

Lemma bits_of_double (n : nat) (acc : Z) (b : bool) :
  bits_of (S n) (2 * acc + Z.b2z b) = bits_of n acc ++ [b].
Proof.
  replace (S n) with (n + 1)%nat by lia. rewrite bits_of_app.
  cbn [bits_of]. f_equal.
  - apply bits_of_ext. intros i Hi. rewrite Z.shiftr_spec by lia.
    change (Z.of_nat 1) with 1. rewrite Z.add_1_r. apply Z.testbit_succ_r. lia.
  - by rewrite Z.testbit_0_r.
Qed.

Lemma bits_of_byte_of_Z (v : Z) : bits_of 8 (byte.unsigned (byte.of_Z v)) = bits_of 8 v.
Proof.
  rewrite byte.unsigned_of_Z. unfold byte.wrap. apply bits_of_ext.
  intros i Hi. apply Z.mod_pow2_bits_low. lia.
Qed.

Lemma bits_of_zero (n : nat) : bits_of n 0 = replicate n false.
Proof.
  induction n as [|n IH]; cbn [bits_of replicate]; [reflexivity|].
  by rewrite Z.bits_0, IH.
Qed.

(** Packing keeps the bits and adds fewer than eight zeros. *)
Lemma bytes_bits_pack (bits : list bool) (acc : Z) (n : nat) :
  (n < 8)%nat ->
  exists pad, bytes_bits (pack_bits bits acc n) = bits_of n acc ++ bits ++ replicate pad false.
Proof.
  revert acc n. induction bits as [|b bits IH]; intros acc n Hn; cbn [pack_bits].
  - destruct n as [|n].
    + by exists 0%nat.
    + exists (8 - S n)%nat. unfold bytes_bits. cbn [fmap list_fmap concat].
      rewrite app_nil_r, bits_of_byte_of_Z.
      replace 8%nat with (S n + (8 - S n))%nat at 1 by lia.
      rewrite bits_of_app. cbn [app]. f_equal.
      * apply bits_of_ext. intros i Hi. rewrite Z.shiftr_spec, Z.shiftl_spec by lia.
        f_equal. lia.
      * rewrite <- bits_of_zero. apply bits_of_ext. intros i Hi.
        rewrite Z.shiftl_spec_low by lia. by rewrite Z.bits_0.
  - destruct (Nat.eqb_spec n 7) as [->|Hne].
    + destruct (IH 0 0%nat ltac:(lia)) as (pad & Hpad). exists pad.
      unfold bytes_bits in *. cbn [fmap list_fmap concat].
      rewrite Hpad, bits_of_byte_of_Z, bits_of_double.
      change (bits_of 0 0) with (@nil bool). rewrite app_nil_l.
      by rewrite <- app_assoc.
    + destruct (IH (2 * acc + Z.b2z b) (S n) ltac:(lia)) as (pad & Hpad). exists pad.
      rewrite Hpad, bits_of_double. by rewrite <- app_assoc.
Qed.

(** ** The decoder's view of its input as a bit string *)

(** The bits of the [n] bytes of [input] from position [p] on. *)
Fixpoint window (input : list byte) (p : Z) (n : nat) : list bool :=
  match n with
  | O => []
  | S n' => bits_of 8 (or_zero (u8_get input p)) ++ window input (p + 1) n'
  end.

(** The bits the decoder has not consumed yet: the buffered ones, then
    those of the bytes up to [endPos]. *)
Definition stream (input : list byte) (endPos : Z) (st : lzw_state) : list bool :=
  bits_of (Z.to_nat (bitsInBuffer st)) (bitBuffer st)
  ++ window input (bytePos st) (Z.to_nat (endPos - bytePos st)).

Lemma length_window (input : list byte) (p : Z) (n : nat) :
  length (window input p n) = (8 * n)%nat.
Proof.
  revert p. induction n as [|n IH]; intros p; cbn [window]; [reflexivity|].
  rewrite length_app, length_bits_of, IH. lia.
Qed.

Lemma length_stream (input : list byte) (endPos : Z) (st : lzw_state) :
  0 <= bitsInBuffer st ->
  Z.of_nat (length (stream input endPos st)) = bits_left endPos st.
Proof.
  intros Hbits. unfold stream, bits_left.
  rewrite length_app, length_bits_of, length_window. lia.
Qed.

Lemma or_zero_u8_range (input : list byte) (p : Z) : 0 <= or_zero (u8_get input p) < 256.
Proof.
  destruct (u8_get input p) as [v|] eqn:Hv; cbn; [|lia].
  by apply u8_get_range in Hv.
Qed.

(** A byte shifted into the bit buffer goes below the bits held. *)
Lemma bits_of_shift_in (n : nat) (buffer b : Z) :
  (n + 8 <= 32)%nat -> 0 <= b < 256 ->
  bits_of (n + 8) (js_or (js_shl buffer 8) b) = bits_of n buffer ++ bits_of 8 b.
Proof.
  intros Hn Hb. rewrite bits_of_app. unfold js_or, js_shl.
  change (8 mod 32) with 8. change (Z.of_nat 8) with 8.
  assert (forall i, 8 <= i -> Z.testbit b i = false) as Hhigh.
  { intros i Hi. rewrite <- (Z.mod_small b (2 ^ 8)) by lia.
    apply Z.mod_pow2_bits_high. lia. }
  f_equal; apply bits_of_ext; intros i Hi.
  - rewrite Z.shiftr_spec, Z.lor_spec, !to_int32_testbit by lia.
    rewrite Z.shiftl_spec, to_int32_testbit by lia.
    rewrite Hhigh by lia. rewrite orb_false_r. f_equal. lia.
  - rewrite Z.lor_spec, !to_int32_testbit by lia.
    rewrite Z.shiftl_spec_low by lia. reflexivity.
Qed.

Lemma fill_step_stream (input : list byte) (endPos : Z) (st : lzw_state) :
  0 <= bitsInBuffer st <= 24 -> bytePos st < endPos ->
  stream input endPos (fill_step input st) = stream input endPos st.
Proof.
  intros Hbits Hpos. unfold stream, fill_step.
  cbn [bitsInBuffer bitBuffer bytePos].
  replace (Z.to_nat (bitsInBuffer st + 8)) with (Z.to_nat (bitsInBuffer st) + 8)%nat by lia.
  rewrite bits_of_shift_in by (lia || apply or_zero_u8_range).
  replace (Z.to_nat (endPos - bytePos st)) with (S (Z.to_nat (endPos - (bytePos st + 1))))
    by lia.
  cbn [window]. by rewrite <- app_assoc.
Qed.

Lemma fill_bits_stream (input : list byte) (endPos : Z) (fuel : nat) (st : lzw_state) :
  0 <= bitsInBuffer st -> codeSize st <= 12 ->
  stream input endPos (fill_bits fuel input endPos st) = stream input endPos st.
Proof.
  revert st. induction fuel as [|fuel IH]; intros st Hbits Hcs; cbn [fill_bits];
    [reflexivity|].
  destruct (Z.ltb_spec (bitsInBuffer st) (codeSize st)); cbn [andb]; [|reflexivity].
  destruct (Z.ltb_spec (bytePos st) endPos); [|reflexivity].
  rewrite IH.
  - apply fill_step_stream; lia.
  - change (bitsInBuffer (fill_step input st)) with (bitsInBuffer st + 8). lia.
  - exact Hcs.
Qed.

(** The code at the head of the stream is the code [readCode] returns. *)
Lemma readCode_stream (input : list byte) (endPos : Z) (st : lzw_state) (c : Z)
  (rest : list bool) :
  lzw_ok st -> 0 <= c < 2 ^ codeSize st ->
  stream input endPos st = bits_of (Z.to_nat (codeSize st)) c ++ rest ->
  exists st',
    readCode input endPos st = (c, st')
    /\ same_tables st st' /\ lzw_ok st'
    /\ stream input endPos st' = rest
    /\ lzw_running endPos st = true.
Proof.
  intros Hok Hc Hstream.
  pose proof Hok as (Hcs & _ & _ & _ & _ & Hbits).
  assert (lzw_running endPos st = true) as Hrun.
  { unfold lzw_running. apply orb_true_iff.
    destruct (Z.ltb_spec (bytePos st) endPos); [by left|]. right.
    apply (f_equal length) in Hstream.
    unfold stream in Hstream.
    rewrite !length_app, !length_bits_of, length_window in Hstream.
    apply Z.geb_le. lia. }
  unfold readCode.
  pose proof (fill_bits_spec input endPos (Z.to_nat (codeSize st - bitsInBuffer st)) st)
    as Hfill.
  pose proof (fill_bits_complete input endPos (Z.to_nat (codeSize st - bitsInBuffer st)) st
                ltac:(lia)) as Hdone.
  pose proof (fill_bits_stream input endPos (Z.to_nat (codeSize st - bitsInBuffer st)) st
                ltac:(lia) ltac:(lia)) as Hkeep.
  cbv zeta in Hfill, Hdone.
  destruct (fill_bits _ input endPos st) as [out d nc cs bb bib bp oc] eqn:Hfilled.
  destruct Hfill as ((Ho & Hd & Hn & Hcs' & Hoc) & Hleft & Hmono & Hbound).
  cbn [output dictionary nextCode codeSize oldCode bitsInBuffer bytePos] in *.
  subst out d nc cs oc.
  rewrite Hstream in Hkeep. unfold stream in Hkeep.
  cbn [bitsInBuffer bitBuffer bytePos] in Hkeep.
  assert (codeSize st <= bib) as Hfull.
  { apply andb_false_iff in Hdone as [Hd|Hd]; apply Z.ltb_ge in Hd; [exact Hd|].
    apply (f_equal length) in Hkeep.
    rewrite !length_app, !length_bits_of in Hkeep.
    replace (Z.to_nat (endPos - bp)) with 0%nat in Hkeep by lia.
    cbn [window length] in Hkeep. lia. }
  destruct (Z.ltb_spec bib (codeSize st)); [lia|].
  unfold take_bits. cbn [output dictionary nextCode codeSize oldCode bitsInBuffer bitBuffer bytePos].
  (* the buffered bits split into the code and the bits that stay *)
  replace (Z.to_nat bib) with (Z.to_nat (codeSize st) + Z.to_nat (bib - codeSize st))%nat
    in Hkeep by lia.
  rewrite bits_of_app, <- app_assoc in Hkeep.
  apply app_inj_1 in Hkeep as [Hcode Hrest]; [|by rewrite !length_bits_of].
  assert (js_and (js_sar bb (bib - codeSize st)) (js_shl 1 (codeSize st) - 1) = c) as ->.
  { rewrite js_and_ones by lia.
    apply (bits_of_inj (Z.to_nat (codeSize st))).
    - rewrite Z2Nat.id by lia. apply Z.mod_pos_bound. lia.
    - rewrite Z2Nat.id by lia. exact Hc.
    - rewrite <- Hcode. apply bits_of_ext. intros i Hi.
      rewrite Z.mod_pow2_bits_low by lia.
      unfold js_sar. rewrite Z.mod_small by lia.
      rewrite to_int32_testbit by lia.
      rewrite !Z.shiftr_spec by lia. rewrite to_int32_testbit by lia.
      f_equal. lia. }
  eexists. split; [reflexivity|]. split; [by repeat split|]. split; [|split].
  - destruct Hok as (? & ? & ? & ? & ? & ?).
    unfold lzw_ok. cbn [output dictionary nextCode codeSize oldCode bitsInBuffer].
    repeat split; try lia; assumption.
  - unfold stream. cbn [bitsInBuffer bitBuffer bytePos]. exact Hrest.
  - exact Hrun.
Qed.

(** ** The encoder's table *)

Lemma bytes_eqb_eq (a b : list byte) : bytes_eqb a b = true -> a = b.
Proof.
  revert b. induction a as [|x a IH]; intros [|y b]; cbn [bytes_eqb]; try discriminate;
    [reflexivity|].
  intros [Hxy Hab]%andb_true_iff. apply Byte.byte_dec_bl in Hxy. subst y.
  by rewrite (IH b Hab).
Qed.

Lemma find_code_sound (table : list (list byte)) (s : list byte) (code0 code : Z) :
  find_code table s code0 = Some code ->
  code0 <= code /\ table !! Z.to_nat (code - code0) = Some s.
Proof.
  revert code0. induction table as [|entry table IH]; intros code0; cbn [find_code];
    [discriminate|].
  destruct (bytes_eqb entry s) eqn:Heq.
  - intros [= <-]. apply bytes_eqb_eq in Heq. subst entry.
    rewrite Z.sub_diag. split; [lia | reflexivity].
  - intros H. apply IH in H as [Hle Hlk]. split; [lia|].
    replace (Z.to_nat (code - code0)) with (S (Z.to_nat (code - (code0 + 1)))) by lia.
    exact Hlk.
Qed.

(** [wcode] is the code of the string [w]: a single byte, or an entry of
    the table. *)
Definition code_known (table : list (list byte)) (w : list byte) (wcode : Z) : Prop :=
  (exists b, w = [b] /\ wcode = byte.unsigned b)
  \/ (258 <= wcode /\ table !! Z.to_nat (wcode - 258) = Some w).

(** ** The decoder in step with the encoder *)

(** The decoder's state when the encoder, with the table [table], is about
    to emit the code of a string that starts like [w]: the dictionary holds
    the table but for its last entry, which the decoder will add on reading
    that code. *)
Definition sync (table : list (list byte)) (first : bool) (nc cs : Z) (w : list byte)
  (st : lzw_state) : Prop :=
  lzw_ok st
  /\ nextCode st = nc /\ codeSize st = cs
  /\ (nc < 2 ^ cs \/ (nc = 4096 /\ cs = 12))
  /\ (forall b, arr_get (dictionary st) (byte.unsigned b) = Some [b])
  /\ (forall k, 258 <= k < nc -> arr_get (dictionary st) k = table !! Z.to_nat (k - 258))
  /\ Z.of_nat (length table) = nc - 258 + (if negb first && (nc <? 4096) then 1 else 0)
  /\ (first = true -> oldCode st = -1 /\ table = [])
  /\ (first = false ->
      exists prev,
        0 <= oldCode st /\ arr_get (dictionary st) (oldCode st) = Some prev /\ prev <> []
        /\ (nc < 4096 -> table !! Z.to_nat (nc - 258) = Some (prev ++ [first_byte w]))).

(** The decoder's state once it has read the code [wcode] of [w]. *)
Definition after_emit (table : list (list byte)) (nc cs : Z) (w : list byte) (wcode : Z)
  (st : lzw_state) : Prop :=
  lzw_ok st
  /\ nextCode st = nc /\ codeSize st = cs
  /\ (nc < 2 ^ cs \/ (nc = 4096 /\ cs = 12))
  /\ (forall b, arr_get (dictionary st) (byte.unsigned b) = Some [b])
  /\ (forall k, 258 <= k < nc -> arr_get (dictionary st) k = table !! Z.to_nat (k - 258))
  /\ Z.of_nat (length table) = nc - 258
  /\ oldCode st = wcode /\ 0 <= wcode
  /\ arr_get (dictionary st) wcode = Some w.

Lemma first_byte_app (w : list byte) (c : byte) :
  w <> [] -> first_byte (w ++ [c]) = first_byte w.
Proof. by destruct w. Qed.

Lemma sync_extend (table : list (list byte)) (first : bool) (nc cs : Z) (w : list byte)
  (c : byte) (st : lzw_state) :
  w <> [] -> sync table first nc cs w st -> sync table first nc cs (w ++ [c]) st.
Proof.
  intros Hw (H1 & H2 & H3 & H4 & H5 & H6 & H7 & H8 & H9).
  do 8 (split; [assumption|]).
  intros Hf. destruct (H9 Hf) as (prev & Hp1 & Hp2 & Hp3 & Hp4).
  exists prev. do 3 (split; [assumption|]).
  intros Hroom. rewrite first_byte_app by assumption. by apply Hp4.
Qed.

Lemma sync_after_emit (table : list (list byte)) (nc cs : Z) (w : list byte) (wcode : Z)
  (c : byte) (st : lzw_state) :
  w <> [] ->
  after_emit table nc cs w wcode st ->
  sync (if 258 + Z.of_nat (length table) <? 4096 then table ++ [w ++ [c]] else table)
       false nc cs [c] st.
Proof.
  intros Hw (H1 & H2 & H3 & H4 & H5 & H6 & H7 & H8 & H9 & H10).
  unfold sync. cbn [negb andb].
  replace (258 + Z.of_nat (length table) <? 4096) with (nc <? 4096)
    by (f_equal; lia).
  do 5 (split; [assumption|]).
  split; [|split; [|split; [discriminate|]]].
  - intros k Hk. rewrite H6 by assumption.
    destruct (nc <? 4096); [|reflexivity].
    rewrite lookup_app_l by lia. reflexivity.
  - destruct (nc <? 4096); [rewrite length_app; cbn [length]|]; lia.
  - intros _. exists w. rewrite H8. do 3 (split; [assumption|]).
    intros Hroom. destruct (Z.ltb_spec nc 4096); [|lia].
    rewrite lookup_app_r by lia.
    replace (Z.to_nat (nc - 258) - length table)%nat with 0%nat by lia.
    reflexivity.
Qed.

Lemma pow2_cs_bounds (cs : Z) : 9 <= cs <= 12 -> 512 <= 2 ^ cs <= 4096.
Proof.
  intros Hcs. split.
  - change 512 with (2 ^ 9). apply Z.pow_le_mono_r; lia.
  - change 4096 with (2 ^ 12). apply Z.pow_le_mono_r; lia.
Qed.

(** The code the encoder emits fits the width it is written with. *)
Lemma sync_code_range (table : list (list byte)) (first : bool) (nc cs : Z)
  (w : list byte) (wcode : Z) (st : lzw_state) :
  sync table first nc cs w st -> code_known table w wcode ->
  0 <= wcode < 2 ^ cs /\ wcode <> CLEAR_CODE /\ wcode <> EOI_CODE
  /\ (wcode < 256 \/ 258 <= wcode < nc \/ (wcode = nc /\ first = false /\ nc < 4096)).
Proof.
  intros (Hok & Hnc & Hcs & Hfit & _ & _ & Hlen & _ & _) Hknown.
  destruct Hok as (Hcsr & _). rewrite Hcs in Hcsr.
  pose proof (pow2_cs_bounds cs Hcsr) as Hpow.
  unfold CLEAR_CODE, EOI_CODE.
  destruct Hknown as [(b & -> & ->)|(Hge & Hlk)].
  - pose proof (byte.unsigned_range b). lia.
  - apply lookup_lt_Some in Hlk.
    assert (nc <= 2 ^ cs) as Hle.
    { destruct Hfit as [?|(-> & ->)]; [lia | reflexivity]. }
    assert (nc < 4096 -> nc < 2 ^ cs) as Hlt by (destruct Hfit as [?|(-> & ->)]; lia).
    destruct first; cbn [negb andb] in Hlen.
    + split; [lia|]. split; [lia|]. split; [lia|]. right. left. lia.
    + destruct (Z.ltb_spec nc 4096).
      * split; [lia|]. split; [lia|]. split; [lia|].
        destruct (Z.eq_dec wcode nc); [right; right; by repeat split | right; left; lia].
      * split; [lia|]. split; [lia|]. split; [lia|]. right. left. lia.
Qed.

Lemma emit_step (input : list byte) (endPos : Z) (table : list (list byte)) (first : bool)
  (nc cs : Z) (w : list byte) (wcode : Z) (st : lzw_state) (rest : list bool) :
  sync table first nc cs w st -> code_known table w wcode -> w <> [] ->
  stream input endPos st = bits_of (Z.to_nat cs) wcode ++ rest ->
  exists st',
    lzw_running endPos st = true
    /\ lzw_step input endPos st = Continue st'
    /\ output st' = output st ++ w
    /\ stream input endPos st' = rest
    /\ after_emit table (fst (reader_after first nc cs)) (snd (reader_after first nc cs))
         w wcode st'.
Proof.
  intros Hsync Hknown Hw Hstream.
  destruct (sync_code_range _ _ _ _ _ _ _ Hsync Hknown) as (Hrange & Hnclear & Hneoi & Hwhere).
  destruct Hsync as (Hok & Hnc & Hcs & Hfit & Hsingle & Htable & Hlen & Hfirst & Hprev).
  subst nc cs.
  destruct (readCode_stream input endPos st wcode rest Hok Hrange Hstream)
    as (st1 & Hread & Hsame & Hok1 & Hrest & Hrun).
  exists (match lzw_emit st1 wcode w with Continue st' => st' | _ => st1 end).
  split; [exact Hrun|].
  unfold lzw_step. rewrite Hread.
  destruct (Z.eqb_spec wcode EOI_CODE); [contradiction|].
  destruct (Z.eqb_spec wcode CLEAR_CODE); [contradiction|].
  destruct Hsame as (Hout1 & Hdict1 & Hnc1 & Hcs1 & Hold1).
  pose proof Hok as (Hcsr & Hncr & Hdlen & Hdef & _ & _).
  (* the entry selected is [w] *)
  assert (choose_entry st1 wcode = EntryIs w) as Hchoose.
  { unfold choose_entry. rewrite Hdict1, Hnc1, Hold1.
    destruct Hwhere as [Hlow|[Hmid|(Heq & Hf & Hroom)]].
    - assert (arr_get (dictionary st) wcode = Some w) as Hget.
      { destruct Hknown as [(b & -> & ->)|(Hge & _)]; [apply Hsingle | lia]. }
      pose proof (arr_get_Some_lt _ _ _ Hget).
      destruct (Z.ltb_spec wcode (Z.of_nat (length (dictionary st)))); [|lia].
      by rewrite Hget.
    - assert (arr_get (dictionary st) wcode = Some w) as Hget.
      { destruct Hknown as [(b & -> & ->)|(Hge & Hlk)].
        - pose proof (byte.unsigned_range b). lia.
        - rewrite Htable by lia. exact Hlk. }
      pose proof (arr_get_Some_lt _ _ _ Hget).
      destruct (Z.ltb_spec wcode (Z.of_nat (length (dictionary st)))); [|lia].
      by rewrite Hget.
    - destruct (Hprev Hf) as (prev & Hold0 & Hgetp & Hpne & Hpend).
      destruct (Z.ltb_spec wcode (Z.of_nat (length (dictionary st)))); [lia|].
      rewrite Heq, Z.eqb_refl. cbn [andb].
      destruct (Z.geb_spec (oldCode st) 0); [|lia].
      rewrite Hgetp. f_equal.
      destruct Hknown as [(b & -> & ->)|(Hge & Hlk)].
      { pose proof (byte.unsigned_range b). lia. }
      rewrite Heq, Hpend in Hlk by assumption. injection Hlk as Hlk.
      assert (first_byte w = first_byte prev) as Hfb.
      { rewrite <- Hlk at 1. by apply first_byte_app. }
      by rewrite <- Hfb. }
  rewrite Hchoose.
  (* the entry the decoder adds is the table's last *)
  unfold lzw_emit, reader_after. rewrite Hdict1, Hnc1, Hcs1, Hold1, Hout1.
  destruct first.
  - destruct (Hfirst eq_refl) as (Hold & ->). rewrite Hold.
    change (-1 >=? 0) with false. cbn [negb andb fst snd].
    split; [reflexivity|]. cbn [output]. split; [reflexivity|].
    split; [unfold stream in *; exact Hrest|].
    unfold after_emit. cbn [output dictionary nextCode codeSize oldCode bitsInBuffer].
    cbn [negb andb] in Hlen.
    assert (arr_get (dictionary st) wcode = Some w) as Hget.
    { destruct Hknown as [(b & -> & ->)|(Hge & Hlk)]; [apply Hsingle|].
      by rewrite lookup_nil in Hlk. }
    pose proof (lzw_emit_spec st1 wcode w Hok1) as Hspec.
    unfold lzw_emit in Hspec. rewrite Hold1, Hold in Hspec.
    change (-1 >=? 0) with false in Hspec. cbn [andb] in Hspec.
    rewrite Hdict1, Hnc1, Hcs1, Hout1 in Hspec.
    destruct Hspec as (Hok' & _).
    { left. unfold known_code. rewrite Hnc1.
      destruct Hwhere as [?|[?|(_ & ? & _)]]; [lia | lia | discriminate]. }
    split; [exact Hok'|].
    do 6 (split; [first [assumption | reflexivity | lia]|]).
    split; [reflexivity|]. split; [lia | exact Hget].
  - destruct (Hprev eq_refl) as (prev & Hold0 & Hgetp & Hpne & Hpend).
    cbn [negb andb] in Hlen |- *.
    destruct (Z.geb_spec (oldCode st) 0); [|lia]. cbn [andb].
    pose proof (lzw_emit_spec st1 wcode w Hok1) as Hspec.
    unfold lzw_emit in Hspec. rewrite Hold1, Hdict1, Hnc1, Hcs1, Hout1 in Hspec.
    destruct (Z.geb_spec (oldCode st) 0) in Hspec; [|lia]. cbn [andb] in Hspec.
    unfold known_code in Hspec. rewrite ?Hnc1, ?Hold1 in Hspec.
    destruct (Z.ltb_spec (nextCode st) 4096) as [Hroom|Hfull].
    + rewrite Hgetp in Hspec |- *. cbn [fst snd].
      rewrite js_shl_one in Hspec |- * by lia.
      destruct Hspec as (Hok' & _); [lia|].
      split; [reflexivity|]. cbn [output]. split; [reflexivity|].
      split; [unfold stream in *; exact Hrest|].
      unfold after_emit. cbn [output dictionary nextCode codeSize oldCode bitsInBuffer].
      split; [exact Hok'|]. split; [reflexivity|]. split; [reflexivity|].
      pose proof (pow2_cs_bounds _ Hcsr) as Hpow.
      assert (2 ^ (codeSize st + 1) = 2 * 2 ^ codeSize st) as Hsucc
        by (rewrite Z.pow_add_r by lia; lia).
      assert (codeSize st = 12 -> 2 ^ codeSize st = 4096) as Htop by (by intros ->).
      split.
      { destruct (Z.geb_spec (nextCode st + 1) (2 ^ codeSize st)), (Z.ltb_spec (codeSize st) 12);
          cbn [andb]; lia. }
      split.
      { intros b. pose proof (byte.unsigned_range b).
        rewrite arr_get_set_ne by lia. apply Hsingle. }
      split.
      { intros k Hk. destruct (Z.eq_dec k (nextCode st)) as [->|Hne].
        - rewrite arr_get_set_eq by lia. symmetry. by apply Hpend.
        - rewrite arr_get_set_ne by lia. apply Htable. lia. }
      split; [lia|]. split; [reflexivity|]. split; [lia|].
      destruct Hwhere as [Hlow|[Hmid|(Heq & _ & _)]].
      * rewrite arr_get_set_ne by lia.
        destruct Hknown as [(b & -> & ->)|(Hge & _)]; [apply Hsingle | lia].
      * rewrite arr_get_set_ne by lia.
        destruct Hknown as [(b & -> & ->)|(Hge & Hlk)].
        { pose proof (byte.unsigned_range b). lia. }
        rewrite Htable by lia. exact Hlk.
      * rewrite Heq, arr_get_set_eq by lia.
        destruct Hknown as [(b & -> & ->)|(Hge & Hlk)].
        { pose proof (byte.unsigned_range b). lia. }
        rewrite Heq, Hpend in Hlk by assumption. exact Hlk.
    + cbn [fst snd].
      destruct Hspec as (Hok' & _).
      { destruct Hwhere as [?|[?|(_ & _ & ?)]]; lia. }
      split; [reflexivity|]. cbn [output]. split; [reflexivity|].
      split; [unfold stream in *; exact Hrest|].
      unfold after_emit. cbn [output dictionary nextCode codeSize oldCode bitsInBuffer].
      split; [exact Hok'|].
      do 6 (split; [first [assumption | reflexivity | lia]|]).
      split; [reflexivity|]. split; [lia|].
      destruct Hwhere as [Hlow|[Hmid|(Heq & _ & ?)]]; [| |lia].
      * destruct Hknown as [(b & -> & ->)|(Hge & _)]; [apply Hsingle | lia].
      * destruct Hknown as [(b & -> & ->)|(Hge & Hlk)].
        { pose proof (byte.unsigned_range b). lia. }
        rewrite Htable by lia. exact Hlk.
Qed.

Lemma code_bits_cons (code width : Z) (codes : list (Z * Z)) :
  code_bits ((code, width) :: codes) = bits_of (Z.to_nat width) code ++ code_bits codes.
Proof. reflexivity. Qed.

(** The end-of-information code stops the loop with the output as it is. *)
Lemma eoi_step (input : list byte) (endPos : Z) (st : lzw_state) (rest : list bool)
  (fuel : nat) :
  lzw_ok st ->
  stream input endPos st = bits_of (Z.to_nat (codeSize st)) EOI_CODE ++ rest ->
  exists st', lzw_loop (S fuel) input endPos st = Returned st' /\ output st' = output st.
Proof.
  intros Hok Hstream.
  pose proof Hok as (Hcsr & _). pose proof (pow2_cs_bounds _ Hcsr) as Hpow.
  destruct (readCode_stream input endPos st EOI_CODE rest Hok) as
    (st1 & Hread & (Hout & _) & _ & _ & Hrun); [unfold EOI_CODE; lia | exact Hstream |].
  exists st1. cbn [lzw_loop]. rewrite Hrun. unfold lzw_step. rewrite Hread.
  rewrite Z.eqb_refl. by split.
Qed.

(** ** The encoded strip inside the file *)

Lemma window_app (enc : list byte) :
  forall pre post : list byte,
    window (pre ++ enc ++ post) (byteLength pre) (length enc) = bytes_bits enc.
Proof.
  induction enc as [|b enc IH]; intros pre post; [reflexivity|].
  cbn [length window app]. unfold bytes_bits. cbn [fmap list_fmap concat].
  f_equal.
  - unfold u8_get, byteLength.
    destruct (Z.ltb_spec (Z.of_nat (length pre)) 0); [lia|].
    rewrite Nat2Z.id, list_lookup_middle by reflexivity. reflexivity.
  - specialize (IH (pre ++ [b]) post).
    rewrite <- app_assoc in IH. cbn [app] in IH.
    unfold byteLength in *. rewrite length_app in IH. cbn [length] in IH.
    replace (Z.of_nat (length pre) + 1) with (Z.of_nat (length pre + 1)) by lia.
    exact IH.
Qed.

Lemma stream_init (pre enc post : list byte) :
  stream (pre ++ enc ++ post) (byteLength pre + byteLength enc) (lzw_init (byteLength pre))
  = bytes_bits enc.
Proof.
  unfold stream, lzw_init. cbn [bitsInBuffer bitBuffer bytePos bits_of Z.to_nat app].
  replace (Z.to_nat (byteLength pre + byteLength enc - byteLength pre)) with (length enc)
    by (unfold byteLength; lia).
  apply window_app.
Qed.

Lemma sync_start (c : byte) (st : lzw_state) :
  lzw_ok st -> sync [] true 258 9 [c] (lzw_clear st).
Proof.
  intros Hok. unfold sync.
  split; [by apply lzw_clear_ok|].
  split; [reflexivity|]. split; [reflexivity|]. split; [left; reflexivity|].
  split.
  { intros b. cbn [lzw_clear dictionary].
    destruct (seed_dictionary_seeded (arr_set_length (dictionary st) 258)) as (_ & Hget).
    pose proof (byte.unsigned_range b).
    rewrite Hget by lia. by rewrite byte.of_Z_unsigned. }
  split; [intros k Hk; lia|].
  split; [reflexivity|].
  split; [by intros _|discriminate].
Qed.

(** ** The reference encoder: examples *)

(** The codes of ["ABABABA"], the last of them one the reader has not yet
    in its table when it arrives, and the bytes they pack into. *)
Example lzw_codes_ABABABA :
  lzw_codes (byte.of_Z <$> [65; 66; 65; 66; 65; 66; 65])
  = [(256, 9); (65, 9); (66, 9); (258, 9); (260, 9); (257, 9)].
Proof. reflexivity. Qed.

Example lzw_encode_ABABABA :
  byte.unsigned <$> lzw_encode (byte.of_Z <$> [65; 66; 65; 66; 65; 66; 65])
  = [128; 16; 72; 80; 40; 36; 4].
Proof. reflexivity. Qed.

(** On the 256 distinct bytes in order the codes widen to ten bits after
    the 255th code of data. *)
Example lzw_codes_widen :
  let codes := lzw_codes ((fun k => byte.of_Z (Z.of_nat k)) <$> seq 0 256) in
  codes !! 255%nat = Some (254, 9) /\ codes !! 256%nat = Some (255, 10)
  /\ codes !! 257%nat = Some (257, 10).
Proof. vm_compute. by repeat split. Qed.

(** ** DataView reads inside the buffer *)

Lemma in_view_true (buf : list byte) (off n : Z) :
  0 <= off -> off + n <= byteLength buf -> in_view buf off n = true.
Proof.
  intros H0 H1. unfold in_view. apply andb_true_intro.
  split; apply Z.leb_le; assumption.
Qed.

Lemma combine_bytes_nonneg (littleEndian : bool) (bs : list byte) :
  0 <= combine_bytes littleEndian bs.
Proof. unfold combine_bytes. apply le_combine_bound. Qed.

Lemma getUint8_returns (buf : list byte) (off : Z) :
  0 <= off -> off + 1 <= byteLength buf ->
  getUint8 buf off = Returned (or_zero (u8_get buf off)).
Proof.
  intros H0 H1. unfold getUint8. rewrite in_view_true by assumption. f_equal.
  unfold combine_bytes, bytes_at. cbn [seq fmap list_fmap].
  rewrite le_combine_1, Z.add_0_r, byte.unsigned_of_Z.
  destruct (u8_get_Some buf off) as (b & _ & ->); [lia|].
  apply byte.wrap_unsigned.
Qed.

Lemma getUint16_returns (buf : list byte) (off : Z) (littleEndian : bool) :
  0 <= off -> off + 2 <= byteLength buf ->
  exists v, getUint16 buf off littleEndian = Returned v /\ 0 <= v.
Proof.
  intros H0 H1. unfold getUint16. rewrite in_view_true by assumption.
  eexists. split; [reflexivity | apply combine_bytes_nonneg].
Qed.

Lemma getUint32_returns (buf : list byte) (off : Z) (littleEndian : bool) :
  0 <= off -> off + 4 <= byteLength buf ->
  exists v, getUint32 buf off littleEndian = Returned v /\ 0 <= v.
Proof.
  intros H0 H1. unfold getUint32. rewrite in_view_true by assumption.
  eexists. split; [reflexivity | apply combine_bytes_nonneg].
Qed.

(** ** The tag loop *)

Section TiffProofs.

Variable decompressionStream : CompressionFormat -> list byte -> option (list byte).

(** The offsets and byte counts collected are unsigned numbers. *)
Definition unsigned_list (arr : list Z) : Prop := Forall (fun v => 0 <= v) arr.

Definition ifd_unsigned (ifd : tiff_ifd) : Prop :=
  unsigned_list (stripOffsets ifd) /\ unsigned_list (stripByteCounts ifd).

Lemma read_longs_returns (buffer : list byte) (littleEndian : bool) (fuel : nat)
  (ptr j : Z) (arr : list Z) :
  0 <= ptr -> 0 <= j -> unsigned_list arr ->
  exists arr', read_longs fuel buffer littleEndian ptr j arr = Returned arr'
               /\ unsigned_list arr'.
Proof.
  revert j arr. induction fuel as [|fuel IH]; intros j arr Hptr Hj Harr; cbn [read_longs].
  - by exists arr.
  - destruct (Z.leb_spec (ptr + j * 4 + 4) (byteLength buffer)); [|by exists arr].
    destruct (getUint32_returns buffer (ptr + j * 4) littleEndian) as (v & -> & Hv);
      [lia | lia |].
    cbn [bind]. apply IH; [lia | lia |].
    apply Forall_app. split; [exact Harr | by constructor].
Qed.

Lemma ifd_entry_returns (buffer : list byte) (littleEndian : bool) (entryOffset : Z)
  (ifd : tiff_ifd) :
  0 <= entryOffset -> entryOffset + 12 <= byteLength buffer -> ifd_unsigned ifd ->
  exists ifd', ifd_entry buffer littleEndian entryOffset ifd = Returned ifd'
               /\ ifd_unsigned ifd'.
Proof.
  intros H0 H1 [Hoffs Hcounts]. unfold ifd_entry.
  destruct (getUint16_returns buffer entryOffset littleEndian) as (tag & -> & _);
    [lia | lia |].
  destruct (getUint16_returns buffer (entryOffset + 2) littleEndian) as (type & -> & _);
    [lia | lia |].
  destruct (getUint32_returns buffer (entryOffset + 4) littleEndian) as (count & -> & _);
    [lia | lia |].
  cbn [bind].
  destruct (getUint16_returns buffer (entryOffset + 8) littleEndian) as (v16 & Hv16 & _);
    [lia | lia |].
  destruct (getUint32_returns buffer (entryOffset + 8) littleEndian) as (v32 & Hv32 & Hptr);
    [lia | lia |].
  destruct (getUint16_returns buffer (entryOffset + 8) littleEndian) as (v16' & Hv16' & H16);
    [lia | lia |].
  assert (exists v, (if type =? 3 then getUint16 buffer (entryOffset + 8) littleEndian
                     else getUint32 buffer (entryOffset + 8) littleEndian) = Returned v
                    /\ 0 <= v)
    as (v & Hv & Hv0) by (destruct (type =? 3); eauto).
  rewrite Hv, Hv32. cbn [bind].
  assert (forall arr, unsigned_list arr ->
            exists arr',
              (if count =? 1 then Returned [v]
               else read_longs (Z.to_nat count) buffer littleEndian v32 0 arr)
              = Returned arr' /\ unsigned_list arr') as Harr.
  { intros arr Hu. destruct (count =? 1).
    - exists [v]. split; [reflexivity | by repeat constructor].
    - apply read_longs_returns; (lia || assumption). }
  destruct (tag =? 259); [by eexists|].
  destruct (tag =? 278); [by eexists|].
  destruct (tag =? 273).
  { destruct (Harr (stripOffsets ifd) Hoffs) as (l & -> & Hl). by eexists. }
  destruct (tag =? 279).
  { destruct (Harr (stripByteCounts ifd) Hcounts) as (l & -> & Hl). by eexists. }
  by eexists.
Qed.

Lemma ifd_loop_returns (buffer : list byte) (littleEndian : bool) (n : nat)
  (ifdOffset i : Z) (ifd : tiff_ifd) :
  0 <= ifdOffset -> 0 <= i -> ifd_unsigned ifd ->
  exists ifd', ifd_loop n buffer littleEndian ifdOffset i ifd = Returned ifd'
               /\ ifd_unsigned ifd'.
Proof.
  revert i ifd. induction n as [|n IH]; intros i ifd H0 Hi Hu; cbn [ifd_loop].
  - by exists ifd.
  - destruct (Z.gtb_spec (ifdOffset + 2 + i * 12 + 12) (byteLength buffer));
      [by exists ifd|].
    destruct (ifd_entry_returns buffer littleEndian (ifdOffset + 2 + i * 12) ifd)
      as (ifd' & -> & Hu'); [lia | lia | exact Hu |].
    cbn [bind]. apply IH; (lia || assumption).
Qed.

(** ** The header *)

(** The first two bytes, the byte order they select and the offset of the
    tag directory read in that order. *)
Definition header_byte0 (buffer : list byte) : Z := or_zero (u8_get buffer 0).
Definition header_byte1 (buffer : list byte) : Z := or_zero (u8_get buffer 1).
Definition header_littleEndian (buffer : list byte) : bool :=
  (header_byte0 buffer =? 73) && (header_byte1 buffer =? 73).
Definition header_ifdOffset (buffer : list byte) : Z :=
  combine_bytes (header_littleEndian buffer) (bytes_at buffer 4 4).

(** The three conditions under which the header is refused. *)
Definition header_refused (buffer : list byte) : Prop :=
  byteLength buffer < 8
  \/ (header_byte0 buffer <> 73 /\ header_byte0 buffer <> 77)
  \/ byteLength buffer < header_ifdOffset buffer + 2.

Lemma read_header_cases (buffer : list byte) (height : Z) :
  (byteLength buffer < 8 /\
   read_header buffer height = Threw (Error "Buffer too small for TIFF"))
  \/ (8 <= byteLength buffer /\ header_byte0 buffer <> 73 /\ header_byte0 buffer <> 77 /\
      read_header buffer height = Threw (Error "Invalid TIFF header"))
  \/ (8 <= byteLength buffer /\ (header_byte0 buffer = 73 \/ header_byte0 buffer = 77) /\
      byteLength buffer < header_ifdOffset buffer + 2 /\
      read_header buffer height = Threw (Error "Invalid IFD offset"))
  \/ (8 <= byteLength buffer /\ (header_byte0 buffer = 73 \/ header_byte0 buffer = 77) /\
      header_ifdOffset buffer + 2 <= byteLength buffer /\
      exists ifd, read_header buffer height = Returned (header_littleEndian buffer, ifd)
                  /\ ifd_unsigned ifd).
Proof.
  unfold read_header.
  destruct (Z.ltb_spec (byteLength buffer) 8) as [Hshort|Hlen]; [by left|]. right.
  rewrite !getUint8_returns by lia. cbn [bind].
  fold (header_byte0 buffer) (header_byte1 buffer) (header_littleEndian buffer).
  destruct (Z.eqb_spec (header_byte0 buffer) 73) as [H73|H73]; cbn [negb andb].
  2: destruct (Z.eqb_spec (header_byte0 buffer) 77) as [H77|H77]; cbn [negb andb];
       [|by left].
  all: right.
  all: unfold getUint32; rewrite in_view_true by lia; cbn [bind];
       fold (header_ifdOffset buffer);
       pose proof (combine_bytes_nonneg (header_littleEndian buffer) (bytes_at buffer 4 4))
         as Hifd; fold (header_ifdOffset buffer) in Hifd;
       destruct (Z.gtb_spec (header_ifdOffset buffer + 2) (byteLength buffer)) as [Hbad|Hgood];
       [ left; repeat split; (lia || tauto || reflexivity) | right ].
  all: destruct (getUint16_returns buffer (header_ifdOffset buffer) (header_littleEndian buffer))
         as (numEntries & -> & _); [lia | lia |]; cbn [bind].
  all: destruct (ifd_loop_returns buffer (header_littleEndian buffer) (Z.to_nat numEntries)
                   (header_ifdOffset buffer) 0
                   {| compression := 1; stripOffsets := []; stripByteCounts := [];
                      rowsPerStrip := height |}) as (ifd & -> & Hu);
         [lia | lia | by split; constructor |]; cbn [bind].
  all: repeat split; try lia; try tauto; by exists ifd.
Qed.


(** ** The decode passes *)

Lemma or_zero_num_get_nonneg (arr : list Z) (s : Z) :
  unsigned_list arr -> 0 <= or_zero (num_get arr s).
Proof.
  intros Harr. unfold num_get. destruct (s <? 0); [cbn; lia|].
  destruct (arr !! Z.to_nat s) as [v|] eqn:Hv; [|cbn; lia].
  cbn. by apply (Forall_lookup_1 _ _ _ _ Harr Hv).
Qed.

(** What a counted loop yields when every turn yields a list. *)
Fixpoint gather {A : Type} (n : nat) (i : Z) (yield : Z -> list A) : list A :=
  match n with
  | O => []
  | S n' => yield i ++ gather n' (i + 1) yield
  end.

(** The state of a pass that has been handed the values [zs]: the raster
    holds them up to its size, zeros follow, and the index has stopped at
    the size. *)
Definition fill_state (total : Z) (zs : list spec_float) : pass_state :=
  (take (Z.to_nat total) zs ++ replicate (Z.to_nat total - length zs) F64.zero,
   Z.min total (Z.of_nat (length zs))).

Lemma fill_state_nil (total : Z) :
  0 <= total -> fill_state total [] = (new_Float32Array total, 0).
Proof.
  intros Htotal. unfold fill_state, new_Float32Array. cbn [length].
  rewrite take_nil, Nat.sub_0_r, Z.min_r by lia. reflexivity.
Qed.

Lemma more_pixels_fill (total : Z) (zs : list spec_float) :
  more_pixels total (fill_state total zs) = (Z.of_nat (length zs) <? total).
Proof.
  unfold more_pixels, fill_state. cbn [snd].
  destruct (Z.ltb_spec (Z.of_nat (length zs)) total);
    destruct (Z.ltb_spec (Z.min total (Z.of_nat (length zs))) total); lia.
Qed.

Lemma fill_state_full (total : Z) (zs ys : list spec_float) :
  total <= Z.of_nat (length zs) -> fill_state total (zs ++ ys) = fill_state total zs.
Proof.
  intros Hfull. unfold fill_state. rewrite length_app.
  rewrite take_app_le by lia.
  replace (Z.to_nat total - (length zs + length ys))%nat with 0%nat by lia.
  replace (Z.to_nat total - length zs)%nat with 0%nat by lia.
  f_equal. lia.
Qed.

Lemma fill_state_store (total : Z) (zs : list spec_float) (v : spec_float) :
  Z.of_nat (length zs) < total ->
  (f32_set (fst (fill_state total zs)) (snd (fill_state total zs)) v,
   snd (fill_state total zs) + 1)
  = fill_state total (zs ++ [F32.round v]).
Proof.
  intros Hroom. unfold fill_state. cbn [fst snd]. rewrite length_app. cbn [length].
  rewrite !firstn_all2 by (rewrite ?length_app; cbn [length]; lia).
  rewrite Z.min_r by lia. f_equal; [|lia].
  unfold f32_set. destruct (Z.ltb_spec (Z.of_nat (length zs)) 0); [lia|].
  rewrite Nat2Z.id.
  replace (Z.to_nat total - length zs)%nat with (S (Z.to_nat total - (length zs + 1)))
    by lia.
  cbn [replicate]. rewrite insert_app_r_alt by lia.
  rewrite Nat.sub_diag. cbn. by rewrite <- app_assoc.
Qed.

Lemma for_whileM_fill (total : Z) (yield : Z -> list spec_float)
  (body : Z -> pass_state -> outcome pass_state) (n : nat) (i0 : Z)
  (zs : list spec_float) :
  (forall i ys, i0 <= i < i0 + Z.of_nat n -> Z.of_nat (length ys) < total ->
     body i (fill_state total ys) = Returned (fill_state total (ys ++ yield i))) ->
  for_whileM n i0 (more_pixels total) body (fill_state total zs)
  = Returned (fill_state total (zs ++ gather n i0 yield)).
Proof.
  revert i0 zs. induction n as [|n IH]; intros i0 zs Hbody; cbn [for_whileM gather].
  - by rewrite app_nil_r.
  - rewrite more_pixels_fill.
    destruct (Z.ltb_spec (Z.of_nat (length zs)) total) as [Hroom|Hfull].
    + rewrite Hbody by lia. cbn [bind]. rewrite IH.
      * by rewrite <- app_assoc.
      * intros i ys Hi. apply Hbody. lia.
    + by rewrite fill_state_full.
Qed.

(** The values of a decompressed strip: its 16-bit samples, scaled. *)
Definition strip_values (strip : list byte) (littleEndian : bool) : list spec_float :=
  gather (Z.to_nat (byteLength strip / 2)) 0
    (fun i => [F32.round (reflectance
                 (to_int16 (combine_bytes littleEndian (bytes_at strip (i * 2) 2))))]).

Lemma store_samples_fill (strip : list byte) (littleEndian : bool) (total : Z)
  (zs : list spec_float) :
  store_samples strip littleEndian total (fill_state total zs)
  = Returned (fill_state total (zs ++ strip_values strip littleEndian)).
Proof.
  unfold store_samples, strip_values. apply for_whileM_fill.
  intros i ys Hi Hroom.
  assert (0 <= byteLength strip / 2) by (apply Z.div_pos; [apply byteLength_nonneg | lia]).
  assert (2 * (byteLength strip / 2) <= byteLength strip)
    by (apply Z.mul_div_le; lia).
  cbv beta. rewrite <- fill_state_store by assumption.
  destruct (fill_state total ys) as [result pixelIndex]. cbn [fst snd].
  unfold getInt16. rewrite in_view_true by lia. reflexivity.
Qed.

Lemma zero_fill_fill (expectedPixels total : Z) (zs : list spec_float) :
  zero_fill expectedPixels total (fill_state total zs)
  = Returned (fill_state total (zs ++ replicate (Z.to_nat expectedPixels) F64.zero)).
Proof.
  unfold zero_fill.
  rewrite (for_whileM_fill total (fun _ => [F64.zero])).
  - do 3 f_equal. generalize 0. induction (Z.to_nat expectedPixels) as [|n IH];
      intros i; cbn [gather replicate app]; [reflexivity | by rewrite IH].
  - intros i ys Hi Hroom. cbv beta.
    change [F64.zero] with [F32.round F64.zero].
    rewrite <- fill_state_store by assumption.
    by destruct (fill_state total ys).
Qed.

(** The bytes [decompressLZW] returns for strip [s]. *)
Definition lzw_strip_data (buffer : list byte) (ifd : tiff_ifd) (s : Z) : list byte :=
  match lzw_strip buffer (or_zero (num_get (stripOffsets ifd) s))
          (num_get (stripByteCounts ifd) s) with
  | Returned stripData => stripData
  | _ => []
  end.

Lemma lzw_strip_returns (buffer : list byte) (ifd : tiff_ifd) (s : Z) :
  lzw_strip buffer (or_zero (num_get (stripOffsets ifd) s))
    (num_get (stripByteCounts ifd) s)
  = Returned (lzw_strip_data buffer ifd s).
Proof.
  unfold lzw_strip_data, lzw_strip.
  destruct (num_get (stripByteCounts ifd) s) as [n|]; [|reflexivity].
  destruct (decompressLZW_returns buffer (or_zero (num_get (stripOffsets ifd) s)) n)
    as (st & _ & _ & ->). reflexivity.
Qed.

(** The values each pass stores, strip after strip. *)
Definition lzw_values (buffer : list byte) (littleEndian : bool) (ifd : tiff_ifd)
  : list spec_float :=
  gather (length (stripOffsets ifd)) 0
    (fun s => strip_values (lzw_strip_data buffer ifd s) littleEndian).

Definition raw_values (buffer : list byte) (littleEndian : bool) (totalPixels : Z)
  (ifd : tiff_ifd) : list spec_float :=
  gather (length (stripOffsets ifd)) 0
    (fun s =>
       let offset := or_zero (num_get (stripOffsets ifd) s) in
       let byteCount := count_or_all (num_get (stripByteCounts ifd) s) totalPixels in
       gather (Z.to_nat (byteCount / 2)) 0
         (fun i =>
            if offset + i * 2 + 2 <=? byteLength buffer
            then [F32.round (reflectance
                    (to_int16 (combine_bytes littleEndian
                                 (bytes_at buffer (offset + i * 2) 2))))]
            else [])).

Definition deflate_values (buffer : list byte) (littleEndian : bool) (width : Z)
  (ifd : tiff_ifd) : list spec_float :=
  gather (length (stripOffsets ifd)) 0
    (fun s =>
       let offset := or_zero (num_get (stripOffsets ifd) s) in
       match decompressDeflate decompressionStream
               (u8_slice buffer offset
                  (strip_end offset (num_get (stripByteCounts ifd) s))) with
       | Returned decompressed => strip_values decompressed littleEndian
       | _ => replicate (Z.to_nat (rowsPerStrip ifd * width)) F64.zero
       end).

Lemma lzw_pass_fill (buffer : list byte) (littleEndian : bool) (total : Z) (ifd : tiff_ifd) :
  0 <= total ->
  lzw_pass buffer littleEndian total ifd (new_Float32Array total)
  = Returned (fill_state total (lzw_values buffer littleEndian ifd)).
Proof.
  intros Htotal. unfold lzw_pass, lzw_values.
  rewrite <- fill_state_nil by assumption.
  rewrite (for_whileM_fill total
             (fun s => strip_values (lzw_strip_data buffer ifd s) littleEndian)).
  - reflexivity.
  - intros s ys Hs Hroom. rewrite lzw_strip_returns. cbn [bind].
    apply store_samples_fill.
Qed.

Lemma raw_pass_fill (buffer : list byte) (littleEndian : bool) (total : Z) (ifd : tiff_ifd) :
  0 <= total -> ifd_unsigned ifd ->
  raw_pass buffer littleEndian total ifd (new_Float32Array total)
  = Returned (fill_state total (raw_values buffer littleEndian total ifd)).
Proof.
  intros Htotal [Hoffs _]. unfold raw_pass, raw_values.
  rewrite <- fill_state_nil by assumption.
  erewrite for_whileM_fill; [reflexivity|].
  intros s ys Hs Hroom. cbv beta zeta.
  apply for_whileM_fill.
  intros i zs Hi Hroom'. cbv beta.
  pose proof (or_zero_num_get_nonneg (stripOffsets ifd) s Hoffs) as Hoff.
  destruct (Z.leb_spec (or_zero (num_get (stripOffsets ifd) s) + i * 2 + 2)
              (byteLength buffer)) as [Hin|Hout].
  - rewrite <- fill_state_store by assumption.
    destruct (fill_state total zs) as [result pixelIndex]. cbn [fst snd].
    unfold getInt16. rewrite in_view_true by lia. reflexivity.
  - rewrite app_nil_r. by destruct (fill_state total zs).
Qed.

Lemma deflate_pass_fill (buffer : list byte) (littleEndian : bool) (width total : Z)
  (ifd : tiff_ifd) :
  0 <= total ->
  deflate_pass decompressionStream buffer littleEndian width total ifd
    (new_Float32Array total)
  = Returned (fill_state total (deflate_values buffer littleEndian width ifd)).
Proof.
  intros Htotal. unfold deflate_pass, deflate_values.
  rewrite <- fill_state_nil by assumption.
  erewrite for_whileM_fill; [reflexivity|].
  intros s ys Hs Hroom. cbv beta zeta.
  destruct (decompressDeflate decompressionStream _) as [decompressed|e|] eqn:Hinflate;
    cbn [bind try_catch].
  - rewrite store_samples_fill. reflexivity.
  - apply zero_fill_fill.
  - unfold decompressDeflate in Hinflate.
    destruct (decompressionStream deflate_raw _); [discriminate|].
    destruct (decompressionStream deflate _); discriminate.
Qed.

(** The values the codec pass selected by the compression code stores. *)
Definition codec_values (buffer : list byte) (littleEndian : bool) (width total : Z)
  (ifd : tiff_ifd) : list spec_float :=
  if compression ifd =? 5 then lzw_values buffer littleEndian ifd
  else if compression ifd =? 1 then raw_values buffer littleEndian total ifd
  else if (compression ifd =? 8) || (compression ifd =? 32946)
       then deflate_values buffer littleEndian width ifd
  else [].

(** How many pixels the codec pass has set when it ends. *)
Definition pixels_recovered (buffer : list byte) (littleEndian : bool) (width total : Z)
  (ifd : tiff_ifd) : Z :=
  Z.min total (Z.of_nat (length (codec_values buffer littleEndian width total ifd))).

(** When [parseTiffInt16ToFloat32] hands the buffer to [extractFallback]. *)
Definition uses_fallback (buffer : list byte) (littleEndian : bool) (width total : Z)
  (ifd : tiff_ifd) : bool :=
  if compression ifd =? 5 then false
  else if compression ifd =? 1 then false
  else if (compression ifd =? 8) || (compression ifd =? 32946)
       then 2 * pixels_recovered buffer littleEndian width total ifd <? total
  else true.

(** The raster of [total] values that starts with [zs] and ends in zeros. *)
Definition padded (total : Z) (zs : list spec_float) : list spec_float :=
  take (Z.to_nat total) zs ++ replicate (Z.to_nat total - length zs) F64.zero.

Lemma length_padded (total : Z) (zs : list spec_float) :
  length (padded total zs) = Z.to_nat total.
Proof. unfold padded. rewrite length_app, length_take, length_replicate. lia. Qed.

Lemma decode_strips_route (buffer : list byte) (littleEndian : bool) (width height : Z)
  (ifd : tiff_ifd) :
  0 <= width * height -> ifd_unsigned ifd ->
  decode_strips decompressionStream buffer littleEndian width height ifd
  = Returned
      (if uses_fallback buffer littleEndian width (width * height) ifd then ViaFallback
       else ViaCodec
              (padded (width * height)
                 (codec_values buffer littleEndian width (width * height) ifd))).
Proof.
  intros Htotal Hu. unfold decode_strips, uses_fallback, pixels_recovered, codec_values.
  destruct (Z.ltb_spec (width * height) 0); [lia|].
  destruct (compression ifd =? 5).
  { by rewrite lzw_pass_fill. }
  destruct (compression ifd =? 1).
  { by rewrite raw_pass_fill. }
  destruct ((compression ifd =? 8) || (compression ifd =? 32946)); [|reflexivity].
  rewrite deflate_pass_fill by assumption. cbn [bind fill_state fst snd].
  by destruct (_ <? _).
Qed.

Lemma extractFallback_returns (buffer : list byte) (width height : Z)
  (littleEndian : bool) :
  0 <= width * height ->
  exists raster,
    extractFallback buffer width height littleEndian = Returned raster
    /\ length raster = Z.to_nat (width * height).
Proof.
  intros Htotal. unfold extractFallback.
  destruct (Z.ltb_spec (width * height) 0); [lia|].
  unfold new_Float32Array.
  remember (Z.to_nat (width * height)) as n eqn:Hn.
  replace (width * height) with (Z.of_nat n) by lia.
  rewrite scan_starts_find. eexists. split; [reflexivity|].
  destruct (find _ _).
  - unfold raster_at. by rewrite length_fmap, length_seq.
  - apply length_replicate.
Qed.

(** What [parseTiffInt16ToFloat32] returns once the header is accepted. *)
Lemma parse_after_header (buffer : list byte) (width height : Z) (littleEndian : bool)
  (ifd : tiff_ifd) :
  0 <= width * height -> ifd_unsigned ifd ->
  read_header buffer height = Returned (littleEndian, ifd) ->
  exists raster,
    parseTiffInt16ToFloat32 decompressionStream buffer width height = Returned raster
    /\ length raster = Z.to_nat (width * height)
    /\ tiff_route decompressionStream buffer width height
       = Returned (if uses_fallback buffer littleEndian width (width * height) ifd
                   then ViaFallback else ViaCodec raster)
    /\ (uses_fallback buffer littleEndian width (width * height) ifd = false ->
        raster = padded (width * height)
                   (codec_values buffer littleEndian width (width * height) ifd))
    /\ (uses_fallback buffer littleEndian width (width * height) ifd = true ->
        extractFallback buffer width height littleEndian = Returned raster).
Proof.
  intros Htotal Hu Hhdr. unfold parseTiffInt16ToFloat32, tiff_route.
  rewrite Hhdr. cbn [bind fst snd]. rewrite decode_strips_route by assumption.
  cbn [bind].
  destruct (uses_fallback buffer littleEndian width (width * height) ifd).
  - destruct (extractFallback_returns buffer width height littleEndian Htotal)
      as (raster & Hr & Hlen).
    exists raster. rewrite Hr. repeat split; try assumption; try discriminate.
  - eexists. split; [reflexivity|]. split; [apply length_padded|].
    repeat split; discriminate.
Qed.

End TiffProofs.

(** ** C5 *)

(** C5, amended. [parseTiffInt16ToFloat32] throws exactly when the buffer
    is shorter than 8 bytes, or its first byte is neither 0x49 ('I') nor
    0x4D ('M') (the second byte is not checked), or the directory offset
    read at byte 4 plus 2 exceeds the buffer length. In these cases it
    returns no raster; in every other case it returns a raster of
    [width * height] values. The byte order is little-endian when the
    first two bytes are "II" and big-endian otherwise, so for "MM". *)
Theorem parse_fatal_exactly
  (decompressionStream : CompressionFormat -> list byte -> option (list byte))
  (buffer : list byte) (w h : nat) :
  let parsed :=
    parseTiffInt16ToFloat32 decompressionStream buffer (Z.of_nat w) (Z.of_nat h) in
  (throws parsed <->
     byteLength buffer < 8
     \/ (header_byte0 buffer <> 73 /\ header_byte0 buffer <> 77)
     \/ byteLength buffer < header_ifdOffset buffer + 2)
  /\ (throws parsed -> forall raster, parsed <> Returned raster)
  /\ (~ throws parsed ->
      exists raster ifd,
        parsed = Returned raster /\ length raster = (w * h)%nat
        /\ read_header buffer (Z.of_nat h) = Returned (header_littleEndian buffer, ifd))
  /\ (header_littleEndian buffer = true <->
      header_byte0 buffer = 73 /\ header_byte1 buffer = 73)
  /\ (header_byte0 buffer = 77 -> header_littleEndian buffer = false).
Proof.
  intros parsed.
  assert (throws parsed \/
          exists raster ifd,
            parsed = Returned raster /\ length raster = (w * h)%nat
            /\ read_header buffer (Z.of_nat h) = Returned (header_littleEndian buffer, ifd))
    as Hcases.
  { subst parsed.
    destruct (read_header_cases buffer (Z.of_nat h))
      as [(_ & Hh)|[(_ & _ & _ & Hh)|[(_ & _ & _ & Hh)|(_ & _ & _ & ifd & Hh & Hu)]]].
    1-3: left; eexists; unfold parseTiffInt16ToFloat32; rewrite Hh; reflexivity.
    right.
    destruct (parse_after_header decompressionStream buffer (Z.of_nat w) (Z.of_nat h)
                _ ifd ltac:(lia) Hu Hh) as (raster & Hr & Hlen & _).
    exists raster, ifd. repeat split; [exact Hr | lia | exact Hh]. }
  assert (throws parsed <->
          byteLength buffer < 8
          \/ (header_byte0 buffer <> 73 /\ header_byte0 buffer <> 77)
          \/ byteLength buffer < header_ifdOffset buffer + 2) as Hiff.
  { subst parsed. unfold parseTiffInt16ToFloat32.
    destruct (read_header_cases buffer (Z.of_nat h))
      as [(Hc & Hh)|[(Hc & H1 & H2 & Hh)|[(Hc & H1 & H2 & Hh)|(Hc & H1 & H2 & ifd & Hh & Hu)]]].
    1-3: rewrite Hh; cbn [bind]; split; [intros _; tauto | intros _; by eexists].
    split; [|lia].
    intros [e He].
    destruct (parse_after_header decompressionStream buffer (Z.of_nat w) (Z.of_nat h)
                _ ifd ltac:(lia) Hu Hh) as (raster & Hr & _).
    unfold parseTiffInt16ToFloat32 in Hr. rewrite Hr in He. discriminate. }
  split; [exact Hiff|]. split; [|split; [|split]].
  - intros [e ->] raster. discriminate.
  - intros Hno. destruct Hcases as [Hthrows|Hret]; [contradiction | exact Hret].
  - unfold header_littleEndian. rewrite andb_true_iff, !Z.eqb_eq. tauto.
  - intros H77. unfold header_littleEndian. rewrite H77. reflexivity.
Qed.

Definition bytes_of (l : list Z) : list byte := byte.of_Z <$> l.

(** A buffer whose first two bytes are "IM", followed by 42, the directory
    offset 8 in big-endian order and an empty directory. *)
Definition header_IM : list byte := bytes_of [73; 77; 0; 42; 0; 0; 0; 8; 0; 0].

(** The first two bytes are neither "II" nor "MM", and yet nothing is
    thrown: the buffer is read in big-endian order. *)
Lemma header_IM_accepted :
  take 2 header_IM <> bytes_of [73; 73]
  /\ take 2 header_IM <> bytes_of [77; 77]
  /\ parseTiffInt16ToFloat32 (fun _ _ => None) header_IM 1 1 = Returned [F64.zero]
  /\ header_littleEndian header_IM = false.
Proof. vm_compute. repeat split; discriminate. Qed.

(** ** C8 *)

(** The fallback scanner is reached for an unknown compression code and
    for a Deflate pass that set fewer than half of the pixels, and in no
    other case: not after an LZW pass, however few pixels it set. *)
Lemma fallback_only_for_deflate_or_unknown
  (decompressionStream : CompressionFormat -> list byte -> option (list byte))
  (buffer : list byte) (w h : nat) (littleEndian : bool) (ifd : tiff_ifd) :
  read_header buffer (Z.of_nat h) = Returned (littleEndian, ifd) ->
  let total := Z.of_nat w * Z.of_nat h in
  let deflated := (compression ifd =? 8) || (compression ifd =? 32946) in
  tiff_route decompressionStream buffer (Z.of_nat w) (Z.of_nat h) = Returned ViaFallback
  <->
  (compression ifd <> 1 /\ compression ifd <> 5 /\ deflated = false)
  \/ (deflated = true
      /\ 2 * pixels_recovered decompressionStream buffer littleEndian (Z.of_nat w) total ifd
         < total).
Proof.
  intros Hhdr total deflated.
  assert (ifd_unsigned ifd) as Hu.
  { destruct (read_header_cases buffer (Z.of_nat h))
      as [(_ & Hh)|[(_ & _ & _ & Hh)|[(_ & _ & _ & Hh)|(_ & _ & _ & ifd' & Hh & Hu)]]];
      rewrite Hh in Hhdr; try discriminate.
    by injection Hhdr as _ <-. }
  destruct (parse_after_header decompressionStream buffer (Z.of_nat w) (Z.of_nat h)
              littleEndian ifd ltac:(lia) Hu Hhdr) as (raster & _ & _ & -> & _).
  fold total. unfold uses_fallback. subst deflated.
  destruct (Z.eqb_spec (compression ifd) 5) as [H5|H5].
  { rewrite H5. cbn. split; [discriminate | intros [(_ & ? & _)|(? & _)]; [lia | discriminate]]. }
  destruct (Z.eqb_spec (compression ifd) 1) as [H1|H1].
  { rewrite H1. cbn. split; [discriminate | intros [(? & _)|(? & _)]; [lia | discriminate]]. }
  destruct ((compression ifd =? 8) || (compression ifd =? 32946)).
  - destruct (Z.ltb_spec
      (2 * pixels_recovered decompressionStream buffer littleEndian (Z.of_nat w) total ifd)
      total).
    + split; [intros _; right; by split | reflexivity].
    + split; [discriminate | intros [(_ & _ & ?)|(_ & ?)]; [discriminate | lia]].
  - split; [intros _; left; by repeat split | reflexivity].
Qed.

(** A little-endian TIFF of 2 x 2 pixels, compression 5, whose single
    strip holds the LZW codes 256, 16, 39, 257: the strip decompresses to
    the one sample 10000. [compression] is the value of tag 259 and
    [strip] the strip's bytes. *)
Definition one_sample_tiff (compression : Z) (strip : list Z) : list byte :=
  bytes_of ([73; 73; 42; 0; 8; 0; 0; 0;
             3; 0;
             3; 1; 3; 0; 1; 0; 0; 0; compression; 0; 0; 0;
             17; 1; 4; 0; 1; 0; 0; 0; 50; 0; 0; 0;
             23; 1; 4; 0; 1; 0; 0; 0; Z.of_nat (length strip); 0; 0; 0;
             0; 0; 0; 0]
            ++ strip).

Definition lzw_one_sample : list Z := [128; 4; 4; 240; 16].

(** C8: the failing input. The LZW pass sets 1 of the 4 pixels, fewer than
    half, and the raster of the pass is returned as it is: the fallback
    scanner is not invoked. *)
Theorem lzw_short_strip_not_rescued :
  let buffer := one_sample_tiff 5 lzw_one_sample in
  decompressLZW buffer 50 5 = Returned (bytes_of [16; 39])
  /\ tiff_route (fun _ _ => None) buffer 2 2
     = Returned (ViaCodec [S754_finite false 8388608 (-23); F64.zero; F64.zero; F64.zero])
  /\ tiff_route (fun _ _ => None) buffer 2 2 <> Returned ViaFallback.
Proof. vm_compute. repeat split; discriminate. Qed.

(** ** C6 *)

(** C6, amended. Once the header is accepted the raster returned has
    exactly [width * height] values. When it is the raster of the codec
    pass (compression 1 or 5, or Deflate with at least half of the pixels
    set), position [k] holds the [k]-th value the pass stored, a 16-bit
    sample of the decompressed strips divided by 10000 (or a zero written
    for a Deflate strip that failed), and every position past the values
    stored holds 0; the conversion of a stream shorter than
    [width * height] samples does not throw. When the fallback scanner is
    used instead, the raster is the scanner's, whatever the pass had
    stored. *)
Theorem decoded_raster_values
  (decompressionStream : CompressionFormat -> list byte -> option (list byte))
  (buffer : list byte) (w h : nat) (littleEndian : bool) (ifd : tiff_ifd) :
  read_header buffer (Z.of_nat h) = Returned (littleEndian, ifd) ->
  let total := Z.of_nat w * Z.of_nat h in
  let values := codec_values decompressionStream buffer littleEndian (Z.of_nat w) total ifd in
  let fallback := uses_fallback decompressionStream buffer littleEndian (Z.of_nat w) total ifd in
  exists raster,
    parseTiffInt16ToFloat32 decompressionStream buffer (Z.of_nat w) (Z.of_nat h)
      = Returned raster
    /\ length raster = (w * h)%nat
    /\ (fallback = false ->
        forall k : nat, (k < w * h)%nat ->
          raster !! k = Some (default F64.zero (values !! k)))
    /\ (fallback = true ->
        extractFallback buffer (Z.of_nat w) (Z.of_nat h) littleEndian = Returned raster)
    /\ (forall strip zs,
          store_samples strip littleEndian total (fill_state total zs)
          = Returned (fill_state total (zs ++ strip_values strip littleEndian))).
Proof.
  intros Hhdr total values fallback.
  assert (ifd_unsigned ifd) as Hu.
  { destruct (read_header_cases buffer (Z.of_nat h))
      as [(_ & Hh)|[(_ & _ & _ & Hh)|[(_ & _ & _ & Hh)|(_ & _ & _ & ifd' & Hh & Hu)]]];
      rewrite Hh in Hhdr; try discriminate.
    by injection Hhdr as _ <-. }
  destruct (parse_after_header decompressionStream buffer (Z.of_nat w) (Z.of_nat h)
              littleEndian ifd ltac:(lia) Hu Hhdr) as (raster & Hr & Hlen & _ & Hcodec & Hfb).
  exists raster. split; [exact Hr|]. split; [lia|]. split; [|split].
  - intros Hno k Hk. rewrite (Hcodec Hno). fold total values. unfold padded.
    destruct (values !! k) as [v|] eqn:Hv.
    + rewrite lookup_app_l by (rewrite length_take; apply lookup_lt_Some in Hv; lia).
      rewrite lookup_take. destruct (decide (k < Z.to_nat total)%nat); [exact Hv | lia].
    + apply lookup_ge_None in Hv.
      rewrite lookup_app_r by (rewrite length_take; lia).
      rewrite length_take. apply lookup_replicate. split; [reflexivity | lia].
  - exact Hfb.
  - intros strip zs. apply store_samples_fill.
Qed.

(** An uncompressed little-endian TIFF of 2 x 2 pixels whose strip holds
    the two samples 10000 and -5000: the raster is 1.0, -0.5, 0, 0. *)
Lemma decoded_raster_values_witness :
  let buffer := one_sample_tiff 1 [16; 39; 120; 236] in
  exists raster,
    parseTiffInt16ToFloat32 (fun _ _ => None) buffer 2 2 = Returned raster
    /\ length raster = 4%nat
    /\ raster !! 0%nat = Some (F32.round (reflectance 10000))
    /\ raster !! 1%nat = Some (F32.round (reflectance (-5000)))
    /\ raster !! 2%nat = Some F64.zero
    /\ raster !! 3%nat = Some F64.zero.
Proof.
  intros buffer.
  destruct (decoded_raster_values (fun _ _ => None) buffer 2 2 true
              {| compression := 1; stripOffsets := [50]; stripByteCounts := [4];
                 rowsPerStrip := 2 |} eq_refl)
    as (raster & Hr & Hlen & Hvals & _).
  exists raster. split; [exact Hr|]. split; [exact Hlen|].
  repeat split; (rewrite Hvals; [reflexivity | reflexivity | lia]).
Defined.

(** [DecompressionStream] on a raw Deflate stream that consists of one
    final stored block: the block's payload. It stands for the platform's
    decompressor on the strip of the example below only, which the first
    format tried, [deflate-raw], accepts. *)
Definition inflate_stored (format : CompressionFormat) (data : list byte)
  : option (list byte) :=
  match format, data with
  | deflate_raw, b :: l0 :: l1 :: n0 :: n1 :: payload =>
      let len := byte.unsigned l0 + 256 * byte.unsigned l1 in
      let nlen := byte.unsigned n0 + 256 * byte.unsigned n1 in
      if (byte.unsigned b =? 1) && (len + nlen =? 65535)
         && (len =? Z.of_nat (length payload))
      then Some payload else None
  | _, _ => None
  end.

(** The same TIFF with compression 8 and the sample 10000 in a stored
    Deflate block. The stream yields a sample for position 0, but the pass
    has set 1 pixel of 4, the fallback scanner takes over and returns
    zeros: position 0 does not hold the sample divided by 10000. *)
Lemma deflate_sample_discarded :
  let buffer := one_sample_tiff 8 [1; 2; 0; 253; 255; 16; 39] in
  decompressDeflate inflate_stored (u8_slice buffer 50 57) = Returned (bytes_of [16; 39])
  /\ strip_values (bytes_of [16; 39]) true = [F32.round (reflectance 10000)]
  /\ parseTiffInt16ToFloat32 inflate_stored buffer 2 2
     = Returned [F64.zero; F64.zero; F64.zero; F64.zero]
  /\ F32.round (reflectance 10000) <> F64.zero.
Proof. vm_compute. repeat split; discriminate. Qed.

(** ** Runs of the decoder's loop *)

(** The loop started in [st] ends in [st'], given turns enough. *)
Definition lzw_halts (input : list byte) (endPos : Z) (st st' : lzw_state) : Prop :=
  exists fuel, lzw_loop fuel input endPos st = Returned st'.

Lemma lzw_loop_more_fuel (input : list byte) (endPos : Z) (fuel k : nat)
  (st st' : lzw_state) :
  lzw_loop fuel input endPos st = Returned st' ->
  lzw_loop (fuel + k) input endPos st = Returned st'.
Proof.
  revert st. induction fuel as [|fuel IH]; intros st; cbn [lzw_loop Nat.add];
    [discriminate|].
  destruct (lzw_running endPos st); [|done].
  destruct (lzw_step input endPos st) as [st1|st1|e]; [apply IH|done|done].
Qed.

Lemma lzw_halts_step (input : list byte) (endPos : Z) (st st1 st' : lzw_state) :
  lzw_running endPos st = true -> lzw_step input endPos st = Continue st1 ->
  lzw_halts input endPos st1 st' -> lzw_halts input endPos st st'.
Proof.
  intros Hrun Hstep (fuel & Hloop). exists (S fuel). cbn [lzw_loop].
  by rewrite Hrun, Hstep.
Qed.

Lemma lzw_halts_idle (input : list byte) (endPos : Z) (st : lzw_state) :
  lzw_running endPos st = false -> lzw_halts input endPos st st.
Proof. intros Hrun. exists 1%nat. cbn [lzw_loop]. by rewrite Hrun. Qed.

(** What the loop ends in is what [decompressLZW] returns. *)
Lemma decompressLZW_halts (input : list byte) (offset length : Z) (st : lzw_state) :
  lzw_halts input (offset + length) (lzw_init offset) st ->
  decompressLZW input offset length = Returned (output st).
Proof.
  intros (fuel & Hloop).
  destruct (decompressLZW_returns input offset length) as (st' & Hloop' & _ & ->).
  apply (lzw_loop_more_fuel _ _ _ (S (Z.to_nat length))) in Hloop.
  apply (lzw_loop_more_fuel _ _ _ fuel) in Hloop'.
  rewrite Nat.add_comm, Hloop in Hloop'. by injection Hloop' as ->.
Qed.

Lemma encode_from_last (data : list byte) :
  forall (table : list (list byte)) (first : bool) (nc cs : Z) (w : list byte) (wcode : Z),
    exists codes width,
      encode_from data table first nc cs w wcode = codes ++ [(EOI_CODE, width)].
Proof.
  induction data as [|c data IH]; intros table first nc cs w wcode; cbn [encode_from].
  - destruct (reader_after first nc cs) as [nc' cs']. by exists [(wcode, cs)], cs'.
  - destruct (find_code table (w ++ [c]) 258) as [code|]; [apply IH|].
    destruct (reader_after first nc cs) as [nc' cs'].
    edestruct IH as (codes & width & ->). by exists ((wcode, cs) :: codes), width.
Qed.

(** The decoder reads the codes of the data, emits the data, and is left
    with the width the encoder would write the next code with. *)
Lemma encode_from_run (data : list byte) :
  forall (table : list (list byte)) (first : bool) (nc cs : Z) (w : list byte) (wcode : Z)
         (st : lzw_state) (input : list byte) (endPos : Z) (tail : list bool)
         (codes : list (Z * Z)) (width : Z),
    sync table first nc cs w st -> code_known table w wcode -> w <> [] ->
    encode_from data table first nc cs w wcode = codes ++ [(EOI_CODE, width)] ->
    stream input endPos st = code_bits codes ++ tail ->
    exists st',
      output st' = output st ++ w ++ data
      /\ lzw_ok st' /\ codeSize st' = width
      /\ stream input endPos st' = tail
      /\ forall r, lzw_halts input endPos st' r -> lzw_halts input endPos st r.
Proof.
  induction data as [|c data IH];
    intros table first nc cs w wcode st input endPos tail codes width
      Hsync Hknown Hw Hcodes Hstream; cbn [encode_from] in Hcodes.
  - destruct (reader_after first nc cs) as [nc' cs'] eqn:Hafter.
    change [(wcode, cs); (EOI_CODE, cs')] with ([(wcode, cs)] ++ [(EOI_CODE, cs')]) in Hcodes.
    apply app_inj_tail in Hcodes as [<- [= <-]].
    rewrite code_bits_cons, <- app_assoc in Hstream. cbn [code_bits fmap list_fmap concat app] in Hstream.
    destruct (emit_step _ _ _ _ _ _ _ _ _ _ Hsync Hknown Hw Hstream)
      as (st1 & Hrun & Hstep & Hout & Hrest & Hemit).
    rewrite Hafter in Hemit. cbn [fst snd] in Hemit.
    destruct Hemit as (Hok1 & _ & Hcs1 & _).
    exists st1. rewrite app_nil_r.
    do 4 (split; [assumption|]).
    intros r. by apply lzw_halts_step.
  - destruct (find_code table (w ++ [c]) 258) as [code|] eqn:Hfind.
    + destruct (IH table first nc cs (w ++ [c]) code st input endPos tail codes width)
        as (st' & Hout & Hrest); try assumption.
      * by apply sync_extend.
      * right. by apply find_code_sound.
      * by destruct w.
      * exists st'. split; [|exact Hrest]. by rewrite Hout, <- app_assoc.
    + destruct (reader_after first nc cs) as [nc' cs'] eqn:Hafter.
      destruct (encode_from_last data
                  (if 258 + Z.of_nat (length table) <? 4096 then table ++ [w ++ [c]] else table)
                  false nc' cs' [c] (byte.unsigned c)) as (codes' & width' & Hrec).
      rewrite Hrec in Hcodes.
      change ((wcode, cs) :: codes' ++ [(EOI_CODE, width')])
        with (((wcode, cs) :: codes') ++ [(EOI_CODE, width')]) in Hcodes.
      apply app_inj_tail in Hcodes as [<- [= <-]].
      rewrite code_bits_cons, <- app_assoc in Hstream.
      destruct (emit_step _ _ _ _ _ _ _ _ _ _ Hsync Hknown Hw Hstream)
        as (st1 & Hrun & Hstep & Hout & Hrest & Hemit).
      rewrite Hafter in Hemit. cbn [fst snd] in Hemit.
      destruct (IH (if 258 + Z.of_nat (length table) <? 4096 then table ++ [w ++ [c]] else table)
                  false nc' cs' [c] (byte.unsigned c) st1 input endPos tail codes' width')
        as (st' & Hout' & Hok' & Hcs' & Hrest' & Hhalt); try assumption.
      * apply sync_after_emit with (wcode := wcode); assumption.
      * left. by exists c.
      * discriminate.
      * exists st'. split; [by rewrite Hout', Hout, <- app_assoc|].
        do 3 (split; [assumption|]).
        intros r Hr. apply (lzw_halts_step _ _ _ st1); auto.
Qed.

Lemma window_split (input : list byte) (n m : nat) :
  forall p : Z,
    window input p (n + m) = window input p n ++ window input (p + Z.of_nat n) m.
Proof.
  induction n as [|n IH]; intros p; cbn [window Nat.add app].
  - f_equal. lia.
  - rewrite IH, <- app_assoc. do 3 f_equal. lia.
Qed.

(** The bit string the decoder starts on when the byte count covers [k]
    bytes more than the encoded strip. *)
Lemma stream_init_longer (pre enc post : list byte) (k : nat) :
  stream (pre ++ enc ++ post) (byteLength pre + (byteLength enc + Z.of_nat k))
    (lzw_init (byteLength pre))
  = bytes_bits enc
    ++ window (pre ++ enc ++ post) (byteLength pre + byteLength enc) k.
Proof.
  unfold stream, lzw_init. cbn [bitsInBuffer bitBuffer bytePos bits_of Z.to_nat app].
  replace (Z.to_nat (byteLength pre + (byteLength enc + Z.of_nat k) - byteLength pre))
    with (length enc + k)%nat by (unfold byteLength; lia).
  rewrite window_split. change (bits_of (Z.to_nat 0) 0) with (@nil bool). cbn [app].
  f_equal. apply window_app.
Qed.

Lemma bytes_bits_pack_pad (bits : list bool) (acc : Z) (n : nat) :
  (n < 8)%nat ->
  exists pad, (pad < 8)%nat
    /\ bytes_bits (pack_bits bits acc n) = bits_of n acc ++ bits ++ replicate pad false.
Proof.
  revert acc n. induction bits as [|b bits IH]; intros acc n Hn; cbn [pack_bits].
  - destruct n as [|n].
    + exists 0%nat. split; [lia|reflexivity].
    + exists (8 - S n)%nat. split; [lia|]. unfold bytes_bits. cbn [fmap list_fmap concat].
      rewrite app_nil_r, bits_of_byte_of_Z.
      replace 8%nat with (S n + (8 - S n))%nat at 1 by lia.
      rewrite bits_of_app. cbn [app]. f_equal.
      * apply bits_of_ext. intros i Hi. rewrite Z.shiftr_spec, Z.shiftl_spec by lia.
        f_equal. lia.
      * rewrite <- bits_of_zero. apply bits_of_ext. intros i Hi.
        rewrite Z.shiftl_spec_low by lia. by rewrite Z.bits_0.
  - destruct (Nat.eqb_spec n 7) as [->|Hne].
    + destruct (IH 0 0%nat ltac:(lia)) as (pad & Hlt & Hpad). exists pad.
      split; [exact Hlt|].
      unfold bytes_bits in *. cbn [fmap list_fmap concat].
      rewrite Hpad, bits_of_byte_of_Z, bits_of_double.
      change (bits_of 0 0) with (@nil bool). rewrite app_nil_l.
      by rewrite <- app_assoc.
    + destruct (IH (2 * acc + Z.b2z b) (S n) ltac:(lia)) as (pad & Hlt & Hpad). exists pad.
      split; [exact Hlt|].
      rewrite Hpad, bits_of_double. by rewrite <- app_assoc.
Qed.

(** A clear code, whatever the state it is read in. *)
Lemma clear_step (input : list byte) (endPos : Z) (st : lzw_state) (rest : list bool) :
  lzw_ok st ->
  stream input endPos st = bits_of (Z.to_nat (codeSize st)) CLEAR_CODE ++ rest ->
  exists st1,
    lzw_ok st1 /\ output st1 = output st
    /\ stream input endPos (lzw_clear st1) = rest
    /\ forall r, lzw_halts input endPos (lzw_clear st1) r -> lzw_halts input endPos st r.
Proof.
  intros Hok Hstream.
  pose proof Hok as (Hcsr & _). pose proof (pow2_cs_bounds _ Hcsr) as Hpow.
  destruct (readCode_stream input endPos st CLEAR_CODE rest Hok) as
    (st1 & Hread & (Hout & _) & Hok1 & Hrest & Hrun); [unfold CLEAR_CODE; lia | exact Hstream |].
  exists st1. do 3 (split; [assumption|]).
  intros r. apply lzw_halts_step; [exact Hrun|].
  unfold lzw_step. rewrite Hread. reflexivity.
Qed.

(** A clear code and the codes of [data]: the decoder appends [data] to
    its output. *)
Lemma segment_run (data : list byte) (st : lzw_state) (input : list byte) (endPos : Z)
  (tail : list bool) (codes : list (Z * Z)) (width : Z) :
  lzw_ok st ->
  lzw_codes data = (CLEAR_CODE, 9) :: codes ++ [(EOI_CODE, width)] ->
  stream input endPos st = code_bits ((CLEAR_CODE, codeSize st) :: codes) ++ tail ->
  exists st',
    output st' = output st ++ data
    /\ lzw_ok st' /\ codeSize st' = width
    /\ stream input endPos st' = tail
    /\ forall r, lzw_halts input endPos st' r -> lzw_halts input endPos st r.
Proof.
  intros Hok Hcodes Hstream.
  rewrite code_bits_cons, <- app_assoc in Hstream.
  destruct (clear_step input endPos st _ Hok Hstream) as (st1 & Hok1 & Hout1 & Hrest & Hhalt).
  unfold lzw_codes in Hcodes. injection Hcodes as Hcodes.
  destruct data as [|c data].
  - change [(EOI_CODE, 9)] with ([] ++ [(EOI_CODE, 9)]) in Hcodes.
    apply app_inj_tail in Hcodes as [<- [= <-]].
    exists (lzw_clear st1). cbn [lzw_clear output codeSize].
    split; [by rewrite app_nil_r|]. split; [by apply lzw_clear_ok|].
    split; [reflexivity|]. split; [exact Hrest | exact Hhalt].
  - destruct (encode_from_run data [] true 258 9 [c] (byte.unsigned c) (lzw_clear st1)
                input endPos tail codes width) as (st' & Hout' & Hok' & Hcs' & Hrest' & Hhalt');
      try assumption.
    + by apply sync_start.
    + left. by exists c.
    + discriminate.
    + exists st'. split; [by rewrite Hout'; cbn [lzw_clear output]; rewrite Hout1|].
      do 3 (split; [assumption|]). auto.
Qed.

Lemma lzw_codes_shape (data : list byte) :
  exists codes width, lzw_codes data = (CLEAR_CODE, 9) :: codes ++ [(EOI_CODE, width)].
Proof.
  unfold lzw_codes. destruct data as [|c data].
  - by exists [], 9.
  - destruct (encode_from_last data [] true 258 9 [c] (byte.unsigned c))
      as (codes & width & ->). by exists codes, width.
Qed.

Lemma eoi_halts (input : list byte) (endPos : Z) (st : lzw_state) (rest : list bool) :
  lzw_ok st ->
  stream input endPos st = bits_of (Z.to_nat (codeSize st)) EOI_CODE ++ rest ->
  exists st', lzw_halts input endPos st st' /\ output st' = output st.
Proof.
  intros Hok Hstream.
  destruct (eoi_step input endPos st rest 0 Hok Hstream) as (st' & Hloop & Hout).
  exists st'. split; [by exists 1%nat | exact Hout].
Qed.

(** Fewer than eight bits left and no byte: the loop is over. *)
Lemma idle_on_padding (input : list byte) (endPos : Z) (st : lzw_state) (pad : nat) :
  lzw_ok st -> (pad < 8)%nat ->
  stream input endPos st = replicate pad false ->
  lzw_running endPos st = false.
Proof.
  intros Hok Hpad Hstream.
  pose proof Hok as (Hcsr & _ & _ & _ & _ & Hbits).
  pose proof (length_stream input endPos st ltac:(lia)) as Hlen.
  rewrite Hstream, length_replicate in Hlen. unfold bits_left in Hlen.
  unfold lzw_running.
  destruct (Z.ltb_spec (bytePos st) endPos); [lia|].
  destruct (Z.geb_spec (bitsInBuffer st) (codeSize st)); [lia|reflexivity].
Qed.

(** The decoder on an encoded strip, with a byte count that covers [k]
    bytes more: it ends at the end-of-information code with the data as
    its output. *)
Lemma encoded_halts (data pre post : list byte) (k : nat) :
  exists st,
    lzw_halts (pre ++ lzw_encode data ++ post)
      (byteLength pre + (byteLength (lzw_encode data) + Z.of_nat k))
      (lzw_init (byteLength pre)) st
    /\ output st = data.
Proof.
  pose proof (stream_init_longer pre (lzw_encode data) post k) as Hstream.
  set (input := pre ++ lzw_encode data ++ post) in *.
  set (endPos := byteLength pre + (byteLength (lzw_encode data) + Z.of_nat k)) in *.
  unfold lzw_encode in Hstream at 1.
  destruct (bytes_bits_pack (code_bits (lzw_codes data)) 0 0) as (pad & Hpack); [lia|].
  rewrite Hpack in Hstream. cbn [bits_of app] in Hstream.
  destruct (lzw_codes_shape data) as (codes & width & Hshape).
  rewrite Hshape in Hstream.
  change ((CLEAR_CODE, 9) :: codes ++ [(EOI_CODE, width)])
    with (((CLEAR_CODE, 9) :: codes) ++ [(EOI_CODE, width)]) in Hstream.
  unfold code_bits in Hstream. rewrite fmap_app, concat_app, <- !app_assoc in Hstream.
  fold (code_bits ((CLEAR_CODE, 9) :: codes)) in Hstream.
  cbn [fmap list_fmap concat fst snd] in Hstream. rewrite app_nil_r in Hstream.
  destruct (segment_run data (lzw_init (byteLength pre)) input endPos _ codes width
              (lzw_init_ok _) Hshape Hstream) as (st' & Hout & Hok & Hcs & Hrest & Hhalt).
  rewrite <- Hcs in Hrest.
  destruct (eoi_halts input endPos st' _ Hok Hrest) as (st'' & Hhalts & Hout'').
  exists st''. split; [by apply Hhalt | by rewrite Hout'', Hout].
Qed.

(** ** The end-of-information code *)

(** Decoding stops at the end-of-information code: with a byte count that
    covers [k] bytes more than the encoded strip, whatever they are, the
    decoder still returns the data. *)
Theorem lzw_stops_at_eoi (data pre post : list byte) (k : nat) :
  decompressLZW (pre ++ lzw_encode data ++ post)
    (byteLength pre) (byteLength (lzw_encode data) + Z.of_nat k) = Returned data.
Proof.
  destruct (encoded_halts data pre post k) as (st & Hhalts & Hout).
  rewrite (decompressLZW_halts _ _ _ st Hhalts). by rewrite Hout.
Qed.

Lemma code_bits_app (codes codes' : list (Z * Z)) :
  code_bits (codes ++ codes') = code_bits codes ++ code_bits codes'.
Proof. unfold code_bits. by rewrite fmap_app, concat_app. Qed.

(** Running out of bits counts as the end of the data: a strip without
    the end-of-information code, with its exact byte count, decodes to the
    data. *)
Theorem lzw_eoi_optional (data pre post : list byte) :
  decompressLZW (pre ++ lzw_encode_open data ++ post)
    (byteLength pre) (byteLength (lzw_encode_open data)) = Returned data.
Proof.
  pose proof (stream_init pre (lzw_encode_open data) post) as Hstream.
  set (input := pre ++ lzw_encode_open data ++ post) in *.
  set (endPos := byteLength pre + byteLength (lzw_encode_open data)) in *.
  unfold lzw_encode_open in Hstream at 1.
  destruct (bytes_bits_pack_pad (code_bits (removelast (lzw_codes data))) 0 0)
    as (pad & Hpad & Hpack); [lia|].
  rewrite Hpack in Hstream. cbn [bits_of app] in Hstream.
  destruct (lzw_codes_shape data) as (codes & width & Hshape).
  rewrite Hshape in Hstream.
  change ((CLEAR_CODE, 9) :: codes ++ [(EOI_CODE, width)])
    with (((CLEAR_CODE, 9) :: codes) ++ [(EOI_CODE, width)]) in Hstream.
  rewrite removelast_last in Hstream.
  destruct (segment_run data (lzw_init (byteLength pre)) input endPos _ codes width
              (lzw_init_ok _) Hshape Hstream) as (st' & Hout & Hok & Hcs & Hrest & Hhalt).
  pose proof (idle_on_padding input endPos st' pad Hok Hpad Hrest) as Hidle.
  rewrite (decompressLZW_halts input (byteLength pre) _ st'
             (Hhalt _ (lzw_halts_idle _ _ _ Hidle))).
  by rewrite Hout.
Qed.

Lemma runs_run (runs : list (list byte)) :
  forall (st : lzw_state) (input : list byte) (endPos : Z) (tail : list bool),
    lzw_ok st ->
    stream input endPos st = code_bits (lzw_codes_runs (codeSize st) runs) ++ tail ->
    exists st', lzw_halts input endPos st st' /\ output st' = output st ++ concat runs.
Proof.
  induction runs as [|data runs IH]; intros st input endPos tail Hok Hstream;
    cbn [lzw_codes_runs concat] in *.
  - rewrite code_bits_cons in Hstream. cbn [code_bits fmap list_fmap concat] in Hstream.
    rewrite app_nil_r in Hstream.
    destruct (eoi_halts input endPos st _ Hok Hstream) as (st' & Hhalts & Hout).
    exists st'. split; [exact Hhalts|]. by rewrite Hout, app_nil_r.
  - destruct (lzw_codes_shape data) as (codes & width & Hshape).
    rewrite Hshape in Hstream. cbn [tl] in Hstream.
    rewrite removelast_last, last_last in Hstream. cbn [snd] in Hstream.
    rewrite app_comm_cons, code_bits_app, <- app_assoc in Hstream.
    destruct (segment_run data st input endPos _ codes width Hok Hshape Hstream)
      as (st1 & Hout1 & Hok1 & Hcs1 & Hrest1 & Hhalt1).
    rewrite <- Hcs1 in Hrest1.
    destruct (IH st1 input endPos tail Hok1 Hrest1) as (st' & Hhalts & Hout).
    exists st'. split; [by apply Hhalt1|]. by rewrite Hout, Hout1, <- app_assoc.
Qed.

(** ** Clear codes inside the stream *)

(** A clear code restarts the table and the code width and keeps the
    output: a stream of several runs of data, each behind a clear code,
    decodes to the runs one after the other. *)
Theorem lzw_clear_restarts (runs : list (list byte)) (pre post : list byte) :
  decompressLZW (pre ++ lzw_encode_runs runs ++ post)
    (byteLength pre) (byteLength (lzw_encode_runs runs)) = Returned (concat runs).
Proof.
  pose proof (stream_init pre (lzw_encode_runs runs) post) as Hstream.
  set (input := pre ++ lzw_encode_runs runs ++ post) in *.
  set (endPos := byteLength pre + byteLength (lzw_encode_runs runs)) in *.
  unfold lzw_encode_runs in Hstream at 1.
  destruct (bytes_bits_pack (code_bits (lzw_codes_runs 9 runs)) 0 0) as (pad & Hpack); [lia|].
  rewrite Hpack in Hstream. cbn [bits_of app] in Hstream.
  destruct (runs_run runs (lzw_init (byteLength pre)) input endPos _ (lzw_init_ok _) Hstream)
    as (st' & Hhalts & Hout).
  rewrite (decompressLZW_halts input (byteLength pre) _ st' Hhalts).
  by rewrite Hout.
Qed.

Example lzw_codes_runs_two :
  lzw_codes_runs 9 [byte.of_Z <$> [65; 66; 65; 66]; byte.of_Z <$> [67; 67; 67]]
  = [(256, 9); (65, 9); (66, 9); (258, 9); (256, 9); (67, 9); (258, 9); (257, 9)].
Proof. reflexivity. Qed.

(** ** C3 *)

Lemma encode_clearing_last (data : list byte) :
  forall (table : list (list byte)) (first : bool) (nc cs : Z) (w : list byte) (wcode : Z),
    exists codes width,
      encode_clearing data table first nc cs w wcode = codes ++ [(EOI_CODE, width)].
Proof.
  induction data as [|c data IH]; intros table first nc cs w wcode; cbn [encode_clearing].
  - destruct (reader_after first nc cs) as [nc' cs']. by exists [(wcode, cs)], cs'.
  - destruct (find_code table (w ++ [c]) 258) as [code|]; [apply IH|].
    destruct (reader_after first nc cs) as [nc' cs'].
    destruct (258 + Z.of_nat (length table) <? 4096).
    + edestruct IH as (codes & width & ->). by exists ((wcode, cs) :: codes), width.
    + edestruct IH as (codes & width & ->).
      by exists ((wcode, cs) :: (CLEAR_CODE, cs') :: codes), width.
Qed.

(** The decoder reads the codes of the data, clear codes included, emits
    the data, and is left with the width of the code that follows. *)
Lemma encode_clearing_run (data : list byte) :
  forall (table : list (list byte)) (first : bool) (nc cs : Z) (w : list byte) (wcode : Z)
         (st : lzw_state) (input : list byte) (endPos : Z) (tail : list bool)
         (codes : list (Z * Z)) (width : Z),
    sync table first nc cs w st -> code_known table w wcode -> w <> [] ->
    encode_clearing data table first nc cs w wcode = codes ++ [(EOI_CODE, width)] ->
    stream input endPos st = code_bits codes ++ tail ->
    exists st',
      output st' = output st ++ w ++ data
      /\ lzw_ok st' /\ codeSize st' = width
      /\ stream input endPos st' = tail
      /\ forall r, lzw_halts input endPos st' r -> lzw_halts input endPos st r.
Proof.
  induction data as [|c data IH];
    intros table first nc cs w wcode st input endPos tail codes width
      Hsync Hknown Hw Hcodes Hstream; cbn [encode_clearing] in Hcodes.
  - destruct (reader_after first nc cs) as [nc' cs'] eqn:Hafter.
    change [(wcode, cs); (EOI_CODE, cs')] with ([(wcode, cs)] ++ [(EOI_CODE, cs')]) in Hcodes.
    apply app_inj_tail in Hcodes as [<- [= <-]].
    rewrite code_bits_cons, <- app_assoc in Hstream.
    cbn [code_bits fmap list_fmap concat app] in Hstream.
    destruct (emit_step _ _ _ _ _ _ _ _ _ _ Hsync Hknown Hw Hstream)
      as (st1 & Hrun & Hstep & Hout & Hrest & Hemit).
    rewrite Hafter in Hemit. cbn [fst snd] in Hemit.
    destruct Hemit as (Hok1 & _ & Hcs1 & _).
    exists st1. rewrite app_nil_r.
    do 4 (split; [assumption|]).
    intros r. by apply lzw_halts_step.
  - destruct (find_code table (w ++ [c]) 258) as [code|] eqn:Hfind.
    + destruct (IH table first nc cs (w ++ [c]) code st input endPos tail codes width)
        as (st' & Hout & Hrest); try assumption.
      * by apply sync_extend.
      * right. by apply find_code_sound.
      * by destruct w.
      * exists st'. split; [|exact Hrest]. by rewrite Hout, <- app_assoc.
    + destruct (reader_after first nc cs) as [nc' cs'] eqn:Hafter.
      destruct (Z.ltb_spec (258 + Z.of_nat (length table)) 4096) as [Hroom|Hfull].
      * (* the table takes the new string *)
        destruct (encode_clearing_last data (table ++ [w ++ [c]])
                    false nc' cs' [c] (byte.unsigned c)) as (codes' & width' & Hrec).
        rewrite Hrec in Hcodes.
        change ((wcode, cs) :: codes' ++ [(EOI_CODE, width')])
          with (((wcode, cs) :: codes') ++ [(EOI_CODE, width')]) in Hcodes.
        apply app_inj_tail in Hcodes as [<- [= <-]].
        rewrite code_bits_cons, <- app_assoc in Hstream.
        destruct (emit_step _ _ _ _ _ _ _ _ _ _ Hsync Hknown Hw Hstream)
          as (st1 & Hrun & Hstep & Hout & Hrest & Hemit).
        rewrite Hafter in Hemit. cbn [fst snd] in Hemit.
        pose proof (sync_after_emit table nc' cs' w wcode c st1 Hw Hemit) as Hsync1.
        destruct (Z.ltb_spec (258 + Z.of_nat (length table)) 4096) as [_|?] in Hsync1; [|lia].
        destruct (IH (table ++ [w ++ [c]])
                    false nc' cs' [c] (byte.unsigned c) st1 input endPos tail codes' width')
          as (st' & Hout' & Hok' & Hcs' & Hrest' & Hhalt); try assumption.
        -- left. by exists c.
        -- discriminate.
        -- exists st'. split; [by rewrite Hout', Hout, <- app_assoc|].
           do 3 (split; [assumption|]).
           intros r Hr. apply (lzw_halts_step _ _ _ st1); auto.
      * (* the table is full: a clear code, then a new table *)
        destruct (encode_clearing_last data [] true 258 9 [c] (byte.unsigned c))
          as (codes' & width' & Hrec).
        rewrite Hrec in Hcodes.
        change ((wcode, cs) :: (CLEAR_CODE, cs') :: codes' ++ [(EOI_CODE, width')])
          with (((wcode, cs) :: (CLEAR_CODE, cs') :: codes') ++ [(EOI_CODE, width')])
          in Hcodes.
        apply app_inj_tail in Hcodes as [<- [= <-]].
        rewrite !code_bits_cons, <- !app_assoc in Hstream.
        destruct (emit_step _ _ _ _ _ _ _ _ _ _ Hsync Hknown Hw Hstream)
          as (st1 & Hrun & Hstep & Hout & Hrest & Hemit).
        rewrite Hafter in Hemit. cbn [fst snd] in Hemit.
        destruct Hemit as (Hok1 & _ & Hcs1 & _).
        rewrite <- Hcs1 in Hrest.
        destruct (clear_step input endPos st1 _ Hok1 Hrest)
          as (st2 & Hok2 & Hout2 & Hrest2 & Hhalt2).
        destruct (IH [] true 258 9 [c] (byte.unsigned c) (lzw_clear st2) input endPos tail
                    codes' width')
          as (st' & Hout' & Hok' & Hcs' & Hrest' & Hhalt); try assumption.
        -- by apply sync_start.
        -- left. by exists c.
        -- discriminate.
        -- exists st'. split.
           { rewrite Hout'. cbn [lzw_clear output]. by rewrite Hout2, Hout, <- app_assoc. }
           do 3 (split; [assumption|]).
           intros r Hr. apply (lzw_halts_step _ _ _ st1); auto.
Qed.

(** C3. For every byte sequence [data], the output of the reference
    encoder [lzw_encode_clearing] (most significant bit first, codes of 9
    bits widening to at most 12, a clear code 256 first and again whenever
    the table is full, the end-of-information code 257 last, a new table
    entry after each code emitted, the width growing by the decoder's
    rule), decoded by [decompressLZW], gives [data] back, wherever the
    encoded strip lies in the file. *)
Theorem lzw_round_trip (data pre post : list byte) :
  decompressLZW (pre ++ lzw_encode_clearing data ++ post)
    (byteLength pre) (byteLength (lzw_encode_clearing data)) = Returned data.
Proof.
  pose proof (stream_init pre (lzw_encode_clearing data) post) as Hstream.
  set (input := pre ++ lzw_encode_clearing data ++ post) in *.
  set (endPos := byteLength pre + byteLength (lzw_encode_clearing data)) in *.
  unfold lzw_encode_clearing in Hstream at 1.
  destruct (bytes_bits_pack (code_bits (lzw_codes_clearing data)) 0 0) as (pad & Hpack); [lia|].
  rewrite Hpack in Hstream. cbn [bits_of app] in Hstream.
  unfold lzw_codes_clearing in Hstream. rewrite code_bits_cons, <- app_assoc in Hstream.
  destruct (clear_step input endPos (lzw_init (byteLength pre)) _ (lzw_init_ok _) Hstream)
    as (st1 & Hok1 & Hout1 & Hrest1 & Hhalt1).
  assert (exists st, lzw_halts input endPos (lzw_clear st1) st /\ output st = data)
    as (st & Hhalts & Hout).
  { destruct data as [|c data].
    - rewrite code_bits_cons, <- app_assoc in Hrest1.
      destruct (eoi_halts input endPos (lzw_clear st1) _ (lzw_clear_ok _ Hok1) Hrest1)
        as (st & Hhalts & Hout).
      exists st. split; [exact Hhalts|]. rewrite Hout. cbn [lzw_clear output]. by rewrite Hout1.
    - destruct (encode_clearing_last data [] true 258 9 [c] (byte.unsigned c))
        as (codes & width & Hrec).
      rewrite Hrec, code_bits_app, <- app_assoc in Hrest1.
      destruct (encode_clearing_run data [] true 258 9 [c] (byte.unsigned c) (lzw_clear st1)
                  input endPos (code_bits [(EOI_CODE, width)] ++ replicate pad false)
                  codes width) as (st' & Hout' & Hok' & Hcs' & Hrest' & Hhalt');
        try assumption.
      + by apply sync_start.
      + left. by exists c.
      + discriminate.
      + rewrite code_bits_cons, <- app_assoc, <- Hcs' in Hrest'.
        cbn [code_bits fmap list_fmap concat app] in Hrest'.
        destruct (eoi_halts input endPos st' _ Hok' Hrest') as (st & Hhalts & Hout).
        exists st. split; [by apply Hhalt'|].
        rewrite Hout, Hout'. cbn [lzw_clear output]. by rewrite Hout1. }
  rewrite (decompressLZW_halts input (byteLength pre) _ st (Hhalt1 _ Hhalts)).
  by rewrite Hout.
Qed.

(** 3900 bytes that fill the table: after 3839 codes of data the encoder
    writes a clear code of 12 bits and goes on with codes of 9 bits. *)
Example lzw_codes_clearing_full_table :
  let data :=
    (fun k => byte.of_Z ((Z.of_nat k * (2 * (Z.of_nat k / 256) + 1)) mod 256))
      <$> seq 0 3900 in
  let codes := lzw_codes_clearing data in
  codes !! 3839%nat = Some (198, 12)
  /\ codes !! 3840%nat = Some (CLEAR_CODE, 12)
  /\ codes !! 3841%nat = Some (227, 9)
  /\ length codes = 3903%nat.
Proof. vm_compute. by repeat split. Qed.

(** ** The bytes the decoder reads *)

Lemma fill_bits_agree (input input' : list byte) (endPos : Z) (fuel : nat) :
  forall st : lzw_state,
    (forall i, bytePos st <= i < endPos -> u8_get input i = u8_get input' i) ->
    fill_bits fuel input endPos st = fill_bits fuel input' endPos st.
Proof.
  induction fuel as [|fuel IH]; intros st Hagree; cbn [fill_bits]; [reflexivity|].
  destruct (Z.ltb_spec (bitsInBuffer st) (codeSize st)); cbn [andb]; [|reflexivity].
  destruct (Z.ltb_spec (bytePos st) endPos); [|reflexivity].
  assert (fill_step input st = fill_step input' st) as ->.
  { unfold fill_step. by rewrite Hagree by lia. }
  apply IH. intros i Hi. apply Hagree. cbn [fill_step bytePos] in Hi. lia.
Qed.

Lemma fill_bits_bytePos (input : list byte) (endPos : Z) (fuel : nat) :
  forall st : lzw_state, bytePos st <= bytePos (fill_bits fuel input endPos st).
Proof.
  induction fuel as [|fuel IH]; intros st; cbn [fill_bits]; [lia|].
  destruct (_ && _); [|lia].
  specialize (IH (fill_step input st)). cbn [fill_step bytePos] in IH. lia.
Qed.

Lemma lzw_step_agree (input input' : list byte) (endPos : Z) (st : lzw_state) :
  (forall i, bytePos st <= i < endPos -> u8_get input i = u8_get input' i) ->
  lzw_step input endPos st = lzw_step input' endPos st.
Proof.
  intros Hagree. unfold lzw_step, readCode.
  by rewrite (fill_bits_agree input input') by assumption.
Qed.

Lemma lzw_step_bytePos (input : list byte) (endPos : Z) (st st' : lzw_state) :
  lzw_step input endPos st = Continue st' -> bytePos st <= bytePos st'.
Proof.
  unfold lzw_step, readCode.
  pose proof (fill_bits_bytePos input endPos (Z.to_nat (codeSize st - bitsInBuffer st)) st)
    as Hmono.
  set (st1 := fill_bits _ input endPos st) in *.
  destruct (bitsInBuffer st1 <? codeSize st1); cbn [fst snd].
  - rewrite Z.eqb_refl. discriminate.
  - destruct (_ =? EOI_CODE); [discriminate|].
    destruct (_ =? CLEAR_CODE); [intros [= <-]; exact Hmono|].
    destruct (choose_entry _ _); try discriminate.
    unfold lzw_emit. cbn [take_bits oldCode nextCode dictionary].
    destruct (_ && _); [destruct (arr_get _ _); [|discriminate]|];
      intros [= <-]; exact Hmono.
Qed.

Lemma lzw_loop_agree (input input' : list byte) (endPos : Z) (fuel : nat) :
  forall st : lzw_state,
    (forall i, bytePos st <= i < endPos -> u8_get input i = u8_get input' i) ->
    lzw_loop fuel input endPos st = lzw_loop fuel input' endPos st.
Proof.
  induction fuel as [|fuel IH]; intros st Hagree; cbn [lzw_loop]; [reflexivity|].
  destruct (lzw_running endPos st); [|reflexivity].
  rewrite <- (lzw_step_agree input input') by assumption.
  destruct (lzw_step input endPos st) as [st'|st'|e] eqn:Hstep; try reflexivity.
  apply IH. intros i Hi. apply Hagree.
  pose proof (lzw_step_bytePos _ _ _ _ Hstep). lia.
Qed.

(** The decoder reads no byte outside the strip it is given: two buffers
    that agree on the bytes from [offset] up to [offset + length] decode
    to the same output, whatever the strip holds. *)
Theorem decompressLZW_reads_its_strip_only (input input' : list byte) (offset length : Z) :
  (forall i, offset <= i < offset + length -> u8_get input i = u8_get input' i) ->
  decompressLZW input offset length = decompressLZW input' offset length.
Proof.
  intros Hagree. unfold decompressLZW.
  by rewrite (lzw_loop_agree input input') by assumption.
Qed.

(** The strip [1; 2; 3] between different neighbours. *)
Lemma decompressLZW_reads_its_strip_only_witness :
  decompressLZW [Byte.x00; Byte.x01; Byte.x02; Byte.x03; Byte.x04] 1 3
  = decompressLZW [Byte.xff; Byte.x01; Byte.x02; Byte.x03] 1 3.
Proof.
  apply decompressLZW_reads_its_strip_only. intros i Hi.
  assert (i = 1 \/ i = 2 \/ i = 3) as [-> | [-> | ->]] by lia; reflexivity.
Defined.

(** ** The mask as a whole *)

(** The index [generateNdviMask] reads back for pixel [i] in its second
    loop and in the forest test. *)
Definition ndvi_read (b04Data b08Data : list spec_float) (i : Z) : spec_float :=
  F32.to_f64 (ndvi_value b04Data b08Data i).

Lemma ndvi_raster_read (b04Data b08Data : list spec_float) (w h : nat) (i : Z) :
  0 <= i < Z.of_nat w * Z.of_nat h ->
  f32_get (fst (ndvi_raster b04Data b08Data (Z.of_nat w) (Z.of_nat h))) i
  = ndvi_read b04Data b08Data i.
Proof.
  intros Hi.
  destruct (ndvi_raster_inv b04Data b08Data (Z.of_nat w) (Z.of_nat h)) as (_ & Hnd); [lia|].
  apply f32_get_lookup; [lia | by apply Hnd].
Qed.

(** Every pixel of the bitmap that the data URL returned carries holds
    the colour of the class of its index, in the order blue, green, red,
    alpha; this for every bitmap within the engine's argument limit. *)
Theorem mask_pixels_by_class (argumentLimit : Z) (b04Data b08Data : list spec_float)
  (w h : nat) :
  54 + 4 * (Z.of_nat w * Z.of_nat h) <= argumentLimit ->
  exists r bmp,
    generateNdviMask argumentLimit b04Data b08Data (Z.of_nat w) (Z.of_nat h) = Returned r
    /\ maskDataUrl r
       = String.append "data:image/bmp;base64," (btoa (string_of_list_byte bmp))
    /\ byteLength bmp = 54 + 4 * (Z.of_nat w * Z.of_nat h)
    /\ forall i : Z,
         0 <= i < Z.of_nat w * Z.of_nat h ->
         let val := ndvi_read b04Data b08Data i in
         let c := class_of_index val in
         u8_get bmp (54 + 4 * i) = Some (class_rgb c).2
         /\ u8_get bmp (54 + 4 * i + 1) = Some (class_rgb c).1.2
         /\ u8_get bmp (54 + 4 * i + 2) = Some (class_rgb c).1.1
         /\ u8_get bmp (54 + 4 * i + 3) = Some (class_alpha c val).
Proof.
  intros Hfits.
  destruct (generateNdviMask_returns argumentLimit b04Data b08Data (Z.of_nat w) (Z.of_nat h))
    as (bmp & (_ & Hblen & _ & Hbmp) & Hr); [lia | lia | exact Hfits |].
  cbn [fst snd] in *.
  eexists. exists bmp. split; [exact Hr|]. split; [reflexivity|]. split; [exact Hblen|].
  intros i Hi.
  destruct (ndvi_rgba_inv (fst (ndvi_raster b04Data b08Data (Z.of_nat w) (Z.of_nat h)))
              (Z.of_nat w) (Z.of_nat h)) as (_ & Hpix); [lia|].
  specialize (Hpix i Hi). cbv zeta in Hpix.
  rewrite ndvi_raster_read in Hpix by assumption.
  destruct Hpix as (Hr0 & Hg0 & Hb0 & Ha0).
  destruct (Hbmp i Hi) as (H1 & H2 & H3 & H4).
  rewrite H1, H2, H3, H4. repeat split; assumption.
Qed.

(** ** The forest statistic *)

(** How many of the first [n] pixels have an index above 0.3. *)
Fixpoint forest_count (b04Data b08Data : list spec_float) (n : nat) : Z :=
  match n with
  | O => 0
  | S n' =>
      forest_count b04Data b08Data n'
      + (if F64.gtb (ndvi_read b04Data b08Data (Z.of_nat n')) F64.lit_0_3 then 1 else 0)
  end.

Lemma forest_count_range (b04Data b08Data : list spec_float) (n : nat) :
  0 <= forest_count b04Data b08Data n <= Z.of_nat n.
Proof.
  induction n as [|n IH]; cbn [forest_count]; [lia|].
  destruct (F64.gtb _ _); lia.
Qed.

(** The count of forest pixels after [k] turns of the first loop. *)
Lemma ndvi_loop_forest (b04Data b08Data : list spec_float) (n : Z) (k : nat) :
  Z.of_nat k <= n ->
  snd (for_range k 0 (ndvi_pixel b04Data b08Data) (replicate (Z.to_nat n) F64.zero, 0))
  = forest_count b04Data b08Data k.
Proof.
  intros Hk.
  assert (ndvi_inv b04Data b08Data n (0 + Z.of_nat k)
            (for_range k 0 (ndvi_pixel b04Data b08Data)
               (replicate (Z.to_nat n) F64.zero, 0))
          /\ snd (for_range k 0 (ndvi_pixel b04Data b08Data)
                    (replicate (Z.to_nat n) F64.zero, 0))
             = forest_count b04Data b08Data (Z.to_nat (0 + Z.of_nat k))) as [_ ->].
  { apply (for_range_invariant
             (fun j st => ndvi_inv b04Data b08Data n j st
                          /\ snd st = forest_count b04Data b08Data (Z.to_nat j))).
    - split; [|reflexivity].
      split; cbn [fst]; [rewrite length_replicate; lia | intros j Hj; lia].
    - intros j st Hj [Hinv Hcount].
      pose proof (ndvi_pixel_inv b04Data b08Data n j st ltac:(lia) Hinv) as Hinv'.
      split; [exact Hinv'|].
      destruct Hinv' as (_ & Hpix). specialize (Hpix j ltac:(lia)).
      destruct st as [ndvi forest]. cbn [snd] in Hcount. unfold ndvi_pixel in *.
      cbn [fst snd] in *.
      replace (Z.to_nat (j + 1)) with (S (Z.to_nat j)) by lia.
      cbn [forest_count]. rewrite Z2Nat.id by lia.
      rewrite (f32_get_lookup _ j _ ltac:(lia) Hpix). fold (ndvi_read b04Data b08Data j).
      rewrite Hcount.
      destruct (F64.gtb (ndvi_read b04Data b08Data j) F64.lit_0_3); [reflexivity | lia]. }
  f_equal. lia.
Qed.

Lemma ndvi_raster_forest (b04Data b08Data : list spec_float) (w h : nat) :
  snd (ndvi_raster b04Data b08Data (Z.of_nat w) (Z.of_nat h))
  = forest_count b04Data b08Data (w * h).
Proof.
  unfold ndvi_raster.
  rewrite ndvi_loop_forest by lia. f_equal. lia.
Qed.

(** The statistic returned is the share of the pixels whose index, as
    stored, is above 0.3, times 100, computed in binary64; with no pixel
    at all it is NaN. This for every bitmap within the engine's argument
    limit. *)
Theorem forest_percentage_counts (argumentLimit : Z) (b04Data b08Data : list spec_float)
  (w h : nat) :
  54 + 4 * (Z.of_nat w * Z.of_nat h) <= argumentLimit ->
  let forestPixels := forest_count b04Data b08Data (w * h) in
  exists r,
    generateNdviMask argumentLimit b04Data b08Data (Z.of_nat w) (Z.of_nat h) = Returned r
    /\ forestPixels = snd (ndvi_raster b04Data b08Data (Z.of_nat w) (Z.of_nat h))
    /\ forestPercentage r
       = F64.mul (F64.div (F64.of_Z forestPixels) (F64.of_Z (Z.of_nat (w * h))))
           (F64.of_Z 100)
    /\ 0 <= forestPixels <= Z.of_nat (w * h)
    /\ ((w * h = 0)%nat -> forestPercentage r = F64.nan).
Proof.
  intros Hfits forestPixels.
  destruct (generateNdviMask_returns argumentLimit b04Data b08Data (Z.of_nat w) (Z.of_nat h))
    as (bmp & _ & Hr); [lia | lia | exact Hfits |].
  rewrite ndvi_raster_forest, <- Nat2Z.inj_mul in Hr.
  eexists. split; [exact Hr|]. cbn [forestPercentage].
  split; [by rewrite ndvi_raster_forest|].
  split; [reflexivity|].
  split; [apply forest_count_range|].
  intros Hzero. subst forestPixels. rewrite Hzero. reflexivity.
Qed.

(** ** The statistic and the colours *)

(** [val > t1] gives [val > t2] for a threshold [t2] that is not above [t1]. *)
Lemma F64_gtb_weaken (val : spec_float) (m1 m2 : positive) (e1 e2 : Z) :
  e2 < e1 \/ (e2 = e1 /\ (m2 <= m1)%positive) ->
  F64.gtb val (S754_finite false m1 e1) = true ->
  F64.gtb val (S754_finite false m2 e2) = true.
Proof.
  intros Hle. unfold F64.gtb, SFltb, SFcompare.
  destruct val as [s|s| |s m e]; try (by destruct s); try done.
  destruct s; [done|].
  rewrite !Pos.compare_cont_spec.
  destruct (Z.compare_spec e1 e) as [->|?|?]; try discriminate.
  - destruct (Pos.compare_spec m1 m) as [->|?|?]; cbn; try discriminate. intros _.
    destruct (Z.compare_spec e2 e) as [->|?|?]; try reflexivity; [|lia].
    destruct (Pos.compare_spec m2 m) as [->|?|?]; cbn; try reflexivity; lia.
  - intros _. destruct (Z.compare_spec e2 e) as [->|?|?]; try reflexivity; lia.
Qed.

(** The threshold 0.3 of the forest test lies between the thresholds 0.4
    and 0.2 of the classes. *)
Lemma class_forest_test (val : spec_float) :
  let c := class_of_index val in
  (c = DenseForest \/ c = ModerateVegetation -> F64.gtb val F64.lit_0_3 = true)
  /\ (c = BareSoil \/ c = Water -> F64.gtb val F64.lit_0_3 = false).
Proof.
  intros c. subst c. unfold class_of_index.
  destruct (F64.gtb val F64.lit_0_6) eqn:H6.
  { split; [intros _|intros [?|?]; discriminate].
    revert H6. apply F64_gtb_weaken. left. lia. }
  destruct (F64.gtb val F64.lit_0_4) eqn:H4.
  { split; [intros _|intros [?|?]; discriminate].
    revert H4. apply F64_gtb_weaken. right. split; [reflexivity | lia]. }
  destruct (F64.gtb val F64.lit_0_2) eqn:H2.
  { split; intros [?|?]; discriminate. }
  assert (F64.gtb val F64.lit_0_3 = false) as H3.
  { destruct (F64.gtb val F64.lit_0_3) eqn:H3; [|reflexivity].
    rewrite <- H2. symmetry. revert H3. apply F64_gtb_weaken. left. lia. }
  destruct (F64.gtb val F64.zero); (split; [intros [?|?]; discriminate | intros _; exact H3]).
Qed.

(** The forest test of the first loop and the colours of the second read
    the same stored index. For every pixel [i] of a run: if the second
    loop paints it dark green (dense forest) or medium green (moderate
    vegetation), the turn of the first loop for it adds one to
    [forestPixels]; if the second loop paints it tan (bare soil) or blue
    (water), that turn leaves the count as it is. [forestPixels_after k]
    is the count after [k] turns of the first loop. *)
Theorem forest_test_between_classes (b04Data b08Data : list spec_float) (w h : nat)
  (i : Z) :
  0 <= i < Z.of_nat w * Z.of_nat h ->
  let forestPixels_after (k : Z) :=
    snd (for_range (Z.to_nat k) 0 (ndvi_pixel b04Data b08Data)
           (replicate (Z.to_nat (Z.of_nat w * Z.of_nat h)) F64.zero, 0)) in
  let ndvi := fst (ndvi_raster b04Data b08Data (Z.of_nat w) (Z.of_nat h)) in
  let rgba := ndvi_rgba ndvi (Z.of_nat w) (Z.of_nat h) in
  let painted (r g b : Z) :=
    u8_get rgba (i * 4) = Some r /\ u8_get rgba (i * 4 + 1) = Some g
    /\ u8_get rgba (i * 4 + 2) = Some b in
  (painted 0 128 0 \/ painted 34 139 34 ->
   forestPixels_after (i + 1) = forestPixels_after i + 1)
  /\ (painted 210 180 140 \/ painted 65 105 225 ->
      forestPixels_after (i + 1) = forestPixels_after i)
  /\ forestPixels_after (Z.of_nat w * Z.of_nat h)
     = snd (ndvi_raster b04Data b08Data (Z.of_nat w) (Z.of_nat h)).
Proof.
  intros Hi forestPixels_after ndvi rgba painted.
  assert (forestPixels_after (i + 1)
          = forestPixels_after i
            + (if F64.gtb (ndvi_read b04Data b08Data i) F64.lit_0_3 then 1 else 0)) as Hturn.
  { subst forestPixels_after. cbv beta.
    rewrite !ndvi_loop_forest by lia.
    replace (Z.to_nat (i + 1)) with (S (Z.to_nat i)) by lia.
    cbn [forest_count]. by rewrite Z2Nat.id by lia. }
  destruct (ndvi_rgba_inv ndvi (Z.of_nat w) (Z.of_nat h)) as (_ & Hpix); [lia|].
  specialize (Hpix i Hi). cbv zeta in Hpix.
  subst ndvi. rewrite ndvi_raster_read in Hpix by assumption.
  fold rgba in Hpix.
  replace (4 * i) with (i * 4) in Hpix by lia.
  destruct Hpix as (Hr & Hg & Hb & _).
  pose proof (class_forest_test (ndvi_read b04Data b08Data i)) as [Hyes Hno].
  cbv zeta in Hyes, Hno.
  split; [|split; [|reflexivity]].
  - intros Hpainted. rewrite Hturn, Hyes; [reflexivity|].
    subst painted. cbv beta in Hpainted. rewrite Hr in Hpainted.
    destruct (class_of_index (ndvi_read b04Data b08Data i));
      first [by left | by right
            | destruct Hpainted as [([=] & _)|([=] & _)]].
  - intros Hpainted. rewrite Hturn, Hno; [lia|].
    subst painted. cbv beta in Hpainted. rewrite Hr in Hpainted.
    destruct (class_of_index (ndvi_read b04Data b08Data i));
      first [by left | by right
            | destruct Hpainted as [([=] & _)|([=] & _)]].
Qed.

(** ** The mask and the statistic: examples *)

(** Two pixels on an engine that takes 65536 arguments: red 0.1 with
    near-infrared 0.5 is painted as dense forest, red 0.5 with
    near-infrared 0.5 as water. *)
Lemma mask_pixels_by_class_witness :
  let b04Data := [F32.round (reflectance 1000); F32.round (reflectance 5000)] in
  let b08Data := [F32.round (reflectance 5000); F32.round (reflectance 5000)] in
  exists r bmp,
    generateNdviMask 65536 b04Data b08Data 2 1 = Returned r
    /\ maskDataUrl r
       = String.append "data:image/bmp;base64," (btoa (string_of_list_byte bmp))
    /\ u8_get bmp 54 = Some 0 /\ u8_get bmp 55 = Some 128
    /\ u8_get bmp 56 = Some 0 /\ u8_get bmp 57 = Some 200
    /\ u8_get bmp 58 = Some 225 /\ u8_get bmp 59 = Some 105
    /\ u8_get bmp 60 = Some 65 /\ u8_get bmp 61 = Some 50.
Proof.
  intros b04Data b08Data.
  destruct (mask_pixels_by_class 65536 b04Data b08Data 2 1 ltac:(lia))
    as (r & bmp & Hr & Hurl & _ & Hpix).
  exists r, bmp. split; [exact Hr|]. split; [exact Hurl|].
  destruct (Hpix 0 ltac:(lia)) as (A0 & A1 & A2 & A3).
  destruct (Hpix 1 ltac:(lia)) as (B0 & B1 & B2 & B3).
  repeat split;
    [ etransitivity; [exact A0|] | etransitivity; [exact A1|]
    | etransitivity; [exact A2|] | etransitivity; [exact A3|]
    | etransitivity; [exact B0|] | etransitivity; [exact B1|]
    | etransitivity; [exact B2|] | etransitivity; [exact B3|] ];
    vm_compute; reflexivity.
Defined.

(** Four pixels, one of them with both bands: a quarter of the pixels
    counts as forest. *)
Lemma forest_percentage_counts_witness :
  let b04Data := replicate 4 (F32.round (reflectance 1000)) in
  let b08Data := [F32.round (reflectance 5000)] in
  exists r,
    generateNdviMask 65536 b04Data b08Data 2 2 = Returned r
    /\ forestPercentage r = F64.of_Z 25.
Proof.
  intros b04Data b08Data.
  destruct (forest_percentage_counts 65536 b04Data b08Data 2 2 ltac:(lia))
    as (r & Hr & _ & Hp & _).
  exists r. split; [exact Hr|]. rewrite Hp. vm_compute. reflexivity.
Defined.

(** The first of two pixels is painted dark green and counted, the second
    is painted blue and not counted. *)
Lemma forest_test_between_classes_witness :
  let b04Data := [F32.round (reflectance 1000); F32.round (reflectance 5000)] in
  let b08Data := [F32.round (reflectance 5000); F32.round (reflectance 5000)] in
  let forestPixels_after (k : nat) :=
    snd (for_range k 0 (ndvi_pixel b04Data b08Data) (replicate 2 F64.zero, 0)) in
  forestPixels_after 1%nat = forestPixels_after 0%nat + 1
  /\ forestPixels_after 2%nat = forestPixels_after 1%nat.
Proof.
  intros b04Data b08Data forestPixels_after.
  destruct (forest_test_between_classes b04Data b08Data 2 1 0 ltac:(lia)) as (Hyes & _ & _).
  destruct (forest_test_between_classes b04Data b08Data 2 1 1 ltac:(lia)) as (_ & Hno & _).
  split.
  - apply Hyes. left. vm_compute. by repeat split.
  - apply Hno. right. vm_compute. by repeat split.
Defined.

(** ** The fallback scanner on a short buffer *)

(** A buffer with fewer than [2 * width * height] bytes has no offset the
    raster could start at: the scanner returns zeros. *)
Theorem extractFallback_short_buffer (buffer : list byte) (w h : nat)
  (littleEndian : bool) :
  byteLength buffer < 2 * Z.of_nat (w * h) ->
  extractFallback buffer (Z.of_nat w) (Z.of_nat h) littleEndian
  = Returned (replicate (w * h) F64.zero).
Proof.
  intros Hshort. unfold extractFallback.
  destruct (Z.ltb_spec (Z.of_nat w * Z.of_nat h) 0) as [Hneg|_]; [lia|].
  unfold new_Float32Array.
  replace (Z.of_nat w * Z.of_nat h) with (Z.of_nat (w * h)) by lia.
  rewrite Nat2Z.id, scan_starts_find.
  assert (forall start, accepts buffer (Z.of_nat (w * h)) littleEndian start = false) as Hno.
  { intros start. unfold accepts.
    destruct (Z.leb_spec 0 start); [|reflexivity].
    destruct (Z.leb_spec (start + Z.of_nat (w * h) * 2) (byteLength buffer)); [lia|reflexivity]. }
  unfold possibleStarts. cbn [find]. by rewrite !Hno.
Qed.

(** ** The information header of the bitmap *)

(** Behind the fields of the file header, the bitmap carries a 40-byte
    information header: the width, one colour plane, 32 bits per pixel, no
    compression, the size of the pixel data, 2835 pixels per metre both
    ways; the reserved bytes and the two palette fields are zero. *)
Theorem createBMP_info_header (w h : nat) (rgba : list byte) :
  length rgba = (4 * w * h)%nat ->
  exists bmp,
    createBMP rgba (Z.of_nat w) (Z.of_nat h) = Returned bmp
    /\ bytes_at bmp 6 4 = replicate 4 Byte.x00
    /\ getUint32 bmp 14 true = Returned 40
    /\ bytes_at bmp 18 4 = le_split 4 (Z.of_nat w)
    /\ (Z.of_nat w < 2 ^ 31 -> getInt32 bmp 18 true = Returned (Z.of_nat w))
    /\ getUint16 bmp 26 true = Returned 1
    /\ getUint16 bmp 28 true = Returned 32
    /\ getUint32 bmp 30 true = Returned 0
    /\ bytes_at bmp 34 4 = le_split 4 (4 * Z.of_nat w * Z.of_nat h)
    /\ (4 * Z.of_nat w * Z.of_nat h < 2 ^ 32 ->
        getUint32 bmp 34 true = Returned (4 * Z.of_nat w * Z.of_nat h))
    /\ getUint32 bmp 38 true = Returned 2835
    /\ getUint32 bmp 42 true = Returned 2835
    /\ bytes_at bmp 46 8 = replicate 8 Byte.x00.
Proof.
  intros Hlen.
  destruct (createBMP_returns rgba (Z.of_nat w) (Z.of_nat h)) as (bmp & Hbmp & Hinv);
    [lia | lia | unfold byteLength; nia |].
  destruct Hinv as (_ & Hblen & Hhdr & _). cbn [fst snd] in *.
  set (hdr := bmp_header (Z.of_nat w) (Z.of_nat h)) in *.
  assert (forall off n, 0 <= off -> off + Z.of_nat n <= 54 ->
            bytes_at bmp off n = take n (drop (Z.to_nat off) hdr)) as Hfield.
  { intros off n H0 H1.
    rewrite (bytes_at_ext bmp hdr) by (intros j Hj; apply Hhdr; lia).
    apply bytes_at_in_range; [lia|]. change (byteLength hdr) with 54. lia. }
  assert (forall off n, 0 <= off -> off + n <= 54 -> in_view bmp off n = true) as Hview.
  { intros off n H0 H1. unfold in_view. rewrite Hblen.
    apply andb_true_intro; split; apply Z.leb_le; nia. }
  exists bmp. split; [exact Hbmp|].
  split; [rewrite Hfield by lia; reflexivity|].
  split; [unfold getUint32; rewrite Hview by lia; f_equal; rewrite Hfield by lia; reflexivity|].
  split; [rewrite Hfield by lia; reflexivity|].
  split.
  { intros Hfit. unfold getInt32. rewrite Hview by lia. f_equal.
    rewrite Hfield by lia. unfold combine_bytes.
    change (take 4 (drop (Z.to_nat 18) hdr)) with (le_split 4 (Z.of_nat w)).
    rewrite le_combine_split. change (Z.of_nat 4 * 8) with 32.
    rewrite to_int32_mod. apply to_int32_small. lia. }
  split; [unfold getUint16; rewrite Hview by lia; f_equal; rewrite Hfield by lia; reflexivity|].
  split; [unfold getUint16; rewrite Hview by lia; f_equal; rewrite Hfield by lia; reflexivity|].
  split; [unfold getUint32; rewrite Hview by lia; f_equal; rewrite Hfield by lia; reflexivity|].
  split.
  { rewrite Hfield by lia. subst hdr. unfold bmp_header.
    replace (Z.of_nat w * 4 * Z.of_nat h) with (4 * Z.of_nat w * Z.of_nat h) by lia.
    reflexivity. }
  split.
  { intros Hfit. unfold getUint32. rewrite Hview by lia. f_equal.
    rewrite Hfield by lia. unfold combine_bytes.
    change (take 4 (drop (Z.to_nat 34) hdr))
      with (le_split 4 (Z.of_nat w * 4 * Z.of_nat h)).
    rewrite le_combine_split. rewrite Z.mod_small; lia. }
  split; [unfold getUint32; rewrite Hview by lia; f_equal; rewrite Hfield by lia; reflexivity|].
  split; [unfold getUint32; rewrite Hview by lia; f_equal; rewrite Hfield by lia; reflexivity|].
  rewrite Hfield by lia. reflexivity.
Qed.

(** ** The fallback scanner and the bitmap: examples *)

(** Ten bytes for a raster of 4 x 4 pixels. *)
Lemma extractFallback_short_buffer_witness :
  extractFallback (replicate 10 Byte.x00) 4 4 true = Returned (replicate 16 F64.zero).
Proof.
  apply (extractFallback_short_buffer (replicate 10 Byte.x00) 4 4 true). reflexivity.
Defined.

(** The 2 x 2 all-white bitmap. *)
Lemma createBMP_info_header_witness :
  exists bmp,
    createBMP (replicate 16 Byte.xff) 2 2 = Returned bmp
    /\ getUint32 bmp 14 true = Returned 40
    /\ getInt32 bmp 18 true = Returned 2
    /\ getUint16 bmp 28 true = Returned 32
    /\ getUint32 bmp 34 true = Returned 16.
Proof.
  destruct (createBMP_info_header 2 2 (replicate 16 Byte.xff) eq_refl)
    as (bmp & H1 & _ & H3 & _ & H5 & _ & H7 & _ & _ & H10 & _).
  exists bmp. split; [exact H1|]. split; [exact H3|].
  split; [apply H5; reflexivity|]. split; [exact H7|]. apply H10. reflexivity.
Defined.

(** ** Reading what was written *)

Lemma length_split_bytes (littleEndian : bool) (n : nat) (v : Z) :
  length (split_bytes littleEndian n v) = n.
Proof.
  unfold split_bytes. destruct littleEndian; rewrite ?length_rev; apply length_le_split.
Qed.

Lemma combine_split_bytes (littleEndian : bool) (n : nat) (v : Z) :
  combine_bytes littleEndian (split_bytes littleEndian n v) = v mod 2 ^ (Z.of_nat n * 8).
Proof.
  unfold combine_bytes, split_bytes. destruct littleEndian.
  - apply le_combine_split.
  - rewrite rev_involutive. apply le_combine_split.
Qed.

Lemma u8_get_app_r (pre post : list byte) (i : Z) :
  0 <= i -> u8_get (pre ++ post) (byteLength pre + i) = u8_get post i.
Proof.
  intros Hi. unfold u8_get, byteLength.
  destruct (Z.ltb_spec (Z.of_nat (length pre) + i) 0); [lia|].
  destruct (Z.ltb_spec i 0); [lia|].
  rewrite lookup_app_r by lia. do 2 f_equal. lia.
Qed.

Lemma bytes_at_app_r (pre post : list byte) (off : Z) (n : nat) :
  0 <= off -> bytes_at (pre ++ post) (byteLength pre + off) n = bytes_at post off n.
Proof.
  intros Hoff. unfold bytes_at. apply list_fmap_ext. intros i k Hk%lookup_seq.
  rewrite <- Z.add_assoc, u8_get_app_r by lia. reflexivity.
Qed.

Lemma bytes_at_head (bs post : list byte) :
  bytes_at (bs ++ post) 0 (length bs) = bs.
Proof.
  rewrite bytes_at_in_range by (unfold byteLength; rewrite ?length_app; lia).
  change (Z.to_nat 0) with 0%nat. rewrite drop_0, take_app_length. reflexivity.
Qed.

(** The bytes [bs] sit at offset [off] of the buffer. *)
Definition holds (buffer : list byte) (off : Z) (bs : list byte) : Prop :=
  exists pre post, buffer = pre ++ bs ++ post /\ byteLength pre = off.

Lemma holds_bytes_at (buffer : list byte) (off : Z) (bs : list byte) :
  holds buffer off bs ->
  bytes_at buffer off (length bs) = bs
  /\ 0 <= off /\ off + Z.of_nat (length bs) <= byteLength buffer.
Proof.
  intros (pre & post & -> & <-). split.
  - rewrite <- (Z.add_0_r (byteLength pre)), bytes_at_app_r by lia. apply bytes_at_head.
  - unfold byteLength. rewrite !length_app. lia.
Qed.

Lemma holds_app_l (buffer : list byte) (off : Z) (bs bs' : list byte) :
  holds buffer off (bs ++ bs') -> holds buffer off bs.
Proof.
  intros (pre & post & -> & <-). exists pre, (bs' ++ post).
  by rewrite <- app_assoc.
Qed.

Lemma holds_app_r (buffer : list byte) (off : Z) (bs bs' : list byte) :
  holds buffer off (bs ++ bs') -> holds buffer (off + byteLength bs) bs'.
Proof.
  intros (pre & post & -> & <-). exists (pre ++ bs), post.
  split; [by rewrite <- !app_assoc|]. unfold byteLength. rewrite length_app. lia.
Qed.

Lemma getUint16_holds (buffer : list byte) (off : Z) (littleEndian : bool) (v : Z) :
  holds buffer off (split_bytes littleEndian 2 v) -> 0 <= v < 2 ^ 16 ->
  getUint16 buffer off littleEndian = Returned v.
Proof.
  intros Hh Hv. apply holds_bytes_at in Hh as (Hbytes & H0 & H1).
  rewrite length_split_bytes in Hbytes, H1.
  unfold getUint16. rewrite in_view_true by lia.
  rewrite Hbytes, combine_split_bytes. f_equal. apply Z.mod_small. exact Hv.
Qed.

Lemma getUint32_holds (buffer : list byte) (off : Z) (littleEndian : bool) (v : Z) :
  holds buffer off (split_bytes littleEndian 4 v) -> 0 <= v < 2 ^ 32 ->
  getUint32 buffer off littleEndian = Returned v.
Proof.
  intros Hh Hv. apply holds_bytes_at in Hh as (Hbytes & H0 & H1).
  rewrite length_split_bytes in Hbytes, H1.
  unfold getUint32. rewrite in_view_true by lia.
  rewrite Hbytes, combine_split_bytes. f_equal. apply Z.mod_small. exact Hv.
Qed.

(** An encoded strip anywhere in the buffer, decoded with its offset and
    its byte count. *)
Lemma decompressLZW_holds (buffer : list byte) (off : Z) (data : list byte) :
  holds buffer off (lzw_encode data) ->
  decompressLZW buffer off (byteLength (lzw_encode data)) = Returned data.
Proof.
  intros (pre & post & -> & <-).
  destruct (encoded_halts data pre post 0) as (st & Hhalts & Hout).
  rewrite Z.add_0_r in Hhalts.
  rewrite (decompressLZW_halts _ _ _ st Hhalts). by rewrite Hout.
Qed.

(** ** The directory *)

(** An entry whose fields fit the widths they are written with; the
    values of an entry of several, which the reader takes for strip
    offsets or byte counts only, lie in the buffer where the entry says. *)
Definition entry_fits (buffer : list byte) (littleEndian : bool) (field : tiff_field)
  : Prop :=
  match field with
  | Scalar tag type value =>
      0 <= tag < 2 ^ 16 /\ 0 <= type < 2 ^ 16
      /\ 0 <= value < (if type =? 3 then 2 ^ 16 else 2 ^ 32)
  | Longs tag ptr values =>
      (tag = 273 \/ tag = 279) /\ 0 <= ptr < 2 ^ 32
      /\ length values <> 1%nat /\ Z.of_nat (length values) < 2 ^ 32
      /\ Forall (fun v => 0 <= v < 2 ^ 32) values
      /\ holds buffer ptr (long_bytes littleEndian values)
  end.

(** What the tag loop makes of an entry. *)
Definition entry_effect (ifd : tiff_ifd) (field : tiff_field) : tiff_ifd :=
  match field with
  | Scalar tag type value =>
      if tag =? 259 then
        {| compression := value; stripOffsets := stripOffsets ifd;
           stripByteCounts := stripByteCounts ifd; rowsPerStrip := rowsPerStrip ifd |}
      else if tag =? 278 then
        {| compression := compression ifd; stripOffsets := stripOffsets ifd;
           stripByteCounts := stripByteCounts ifd; rowsPerStrip := value |}
      else if tag =? 273 then
        {| compression := compression ifd; stripOffsets := [value];
           stripByteCounts := stripByteCounts ifd; rowsPerStrip := rowsPerStrip ifd |}
      else if tag =? 279 then
        {| compression := compression ifd; stripOffsets := stripOffsets ifd;
           stripByteCounts := [value]; rowsPerStrip := rowsPerStrip ifd |}
      else ifd
  | Longs tag ptr values =>
      if tag =? 273 then
        {| compression := compression ifd; stripOffsets := stripOffsets ifd ++ values;
           stripByteCounts := stripByteCounts ifd; rowsPerStrip := rowsPerStrip ifd |}
      else
        {| compression := compression ifd; stripOffsets := stripOffsets ifd;
           stripByteCounts := stripByteCounts ifd ++ values;
           rowsPerStrip := rowsPerStrip ifd |}
  end.

Lemma length_tiff_entry (littleEndian : bool) (field : tiff_field) :
  length (tiff_entry littleEndian field) = 12%nat.
Proof.
  destruct field as [tag type value|tag ptr values]; unfold tiff_entry.
  - destruct (type =? 3); rewrite ?length_app, ?length_split_bytes; reflexivity.
  - rewrite ?length_app, ?length_split_bytes. reflexivity.
Qed.

Lemma read_longs_holds (buffer : list byte) (littleEndian : bool) (ptr : Z)
  (values : list Z) :
  forall (j : Z) (arr : list Z),
    0 <= j ->
    holds buffer (ptr + j * 4) (long_bytes littleEndian values) ->
    Forall (fun v => 0 <= v < 2 ^ 32) values ->
    read_longs (length values) buffer littleEndian ptr j arr = Returned (arr ++ values).
Proof.
  induction values as [|v values IH]; intros j arr Hj Hh Hfit; cbn [length read_longs].
  - by rewrite app_nil_r.
  - unfold long_bytes in Hh. cbn [fmap list_fmap concat] in Hh.
    apply Forall_cons in Hfit as [Hv Hfit].
    pose proof (holds_app_l _ _ _ _ Hh) as Hhead.
    pose proof (holds_bytes_at _ _ _ Hhead) as (_ & _ & Hend).
    rewrite length_split_bytes in Hend.
    destruct (Z.leb_spec (ptr + j * 4 + 4) (byteLength buffer)); [|lia].
    rewrite (getUint32_holds _ _ _ _ Hhead Hv). cbn [bind].
    rewrite (IH (j + 1) (arr ++ [v])); [by rewrite <- app_assoc | lia | | exact Hfit].
    apply holds_app_r in Hh. unfold byteLength in Hh. rewrite length_split_bytes in Hh.
    replace (ptr + (j + 1) * 4) with (ptr + j * 4 + Z.of_nat 4) by lia. exact Hh.
Qed.

Lemma ifd_entry_written (buffer : list byte) (littleEndian : bool) (off : Z)
  (field : tiff_field) (ifd : tiff_ifd) :
  holds buffer off (tiff_entry littleEndian field) -> entry_fits buffer littleEndian field ->
  ifd_entry buffer littleEndian off ifd = Returned (entry_effect ifd field).
Proof.
  intros Hh Hfit. unfold tiff_entry in Hh.
  destruct field as [tag type value|tag ptr values].
  - destruct Hfit as (Htag & Htype & Hvalue).
    pose proof (holds_app_l _ _ _ _ Hh) as Hf1.
    apply holds_app_r in Hh. pose proof (holds_app_l _ _ _ _ Hh) as Hf2.
    apply holds_app_r in Hh. pose proof (holds_app_l _ _ _ _ Hh) as Hf3.
    apply holds_app_r in Hh.
    unfold byteLength in Hf2, Hf3, Hh.
    rewrite !length_split_bytes in Hf2. rewrite !length_split_bytes in Hf3.
    rewrite !length_split_bytes in Hh.
    replace (off + Z.of_nat 2 + Z.of_nat 2) with (off + 4) in Hf3, Hh by lia.
    replace (off + 4 + Z.of_nat 4) with (off + 8) in Hh by lia.
    change (off + Z.of_nat 2) with (off + 2) in Hf2.
    unfold ifd_entry.
    rewrite (getUint16_holds _ _ _ _ Hf1 Htag), (getUint16_holds _ _ _ _ Hf2 Htype),
      (getUint32_holds _ _ _ _ Hf3 ltac:(lia)).
    cbn [bind]. change (1 =? 1) with true. cbv iota.
    assert ((if type =? 3 then getUint16 buffer (off + 8) littleEndian
             else getUint32 buffer (off + 8) littleEndian) = Returned value) as ->.
    { destruct (type =? 3).
      - apply holds_app_l in Hh. by apply getUint16_holds.
      - by apply getUint32_holds. }
    unfold entry_effect. cbn [bind].
    by repeat destruct (tag =? _).
  - destruct Hfit as (Htag & Hptr & Hmany & Hcount & Hvalues & Harr).
    pose proof (holds_app_l _ _ _ _ Hh) as Hf1.
    apply holds_app_r in Hh. pose proof (holds_app_l _ _ _ _ Hh) as Hf2.
    apply holds_app_r in Hh. pose proof (holds_app_l _ _ _ _ Hh) as Hf3.
    apply holds_app_r in Hh.
    unfold byteLength in Hf2, Hf3, Hh.
    rewrite !length_split_bytes in Hf2. rewrite !length_split_bytes in Hf3.
    rewrite !length_split_bytes in Hh.
    replace (off + Z.of_nat 2 + Z.of_nat 2) with (off + 4) in Hf3, Hh by lia.
    replace (off + 4 + Z.of_nat 4) with (off + 8) in Hh by lia.
    change (off + Z.of_nat 2) with (off + 2) in Hf2.
    unfold ifd_entry.
    rewrite (getUint16_holds _ _ _ _ Hf1 ltac:(lia)),
      (getUint16_holds _ _ _ _ Hf2 ltac:(lia)),
      (getUint32_holds _ _ _ _ Hf3 ltac:(lia)).
    cbn [bind]. change (4 =? 3) with false. cbv iota.
    rewrite (getUint32_holds _ _ _ _ Hh Hptr). cbn [bind].
    destruct (Z.eqb_spec (Z.of_nat (length values)) 1) as [Hone|_]; [lia|].
    rewrite Nat2Z.id.
    assert (forall arr, read_longs (length values) buffer littleEndian ptr 0 arr
                        = Returned (arr ++ values)) as Hread.
    { intros arr. apply read_longs_holds; [lia | | exact Hvalues].
      by replace (ptr + 0 * 4) with ptr by lia. }
    rewrite !Hread. cbn [bind]. unfold entry_effect.
    by destruct Htag as [-> | ->].
Qed.

Lemma ifd_loop_written (littleEndian : bool) (entries : list tiff_field) :
  forall (buffer : list byte) (ifdOffset i : Z) (ifd : tiff_ifd),
    0 <= i ->
    holds buffer (ifdOffset + 2 + i * 12) (concat (tiff_entry littleEndian <$> entries)) ->
    Forall (entry_fits buffer littleEndian) entries ->
    ifd_loop (length entries) buffer littleEndian ifdOffset i ifd
    = Returned (fold_left entry_effect entries ifd).
Proof.
  induction entries as [|entry entries IH]; intros buffer ifdOffset i ifd Hi Hh Hfit;
    cbn [length ifd_loop fold_left]; [reflexivity|].
  cbn [fmap list_fmap concat] in Hh.
  apply Forall_cons in Hfit as [Hfit1 Hfit].
  pose proof (holds_app_l _ _ _ _ Hh) as Hentry.
  pose proof (holds_bytes_at _ _ _ Hentry) as (_ & _ & Hend).
  rewrite length_tiff_entry in Hend.
  destruct (Z.gtb_spec (ifdOffset + 2 + i * 12 + 12) (byteLength buffer)); [lia|].
  rewrite (ifd_entry_written _ _ _ _ _ Hentry Hfit1). cbn [bind].
  apply IH; [lia | | exact Hfit].
  apply holds_app_r in Hh. unfold byteLength in Hh. rewrite length_tiff_entry in Hh.
  replace (ifdOffset + 2 + (i + 1) * 12) with (ifdOffset + 2 + i * 12 + Z.of_nat 12) by lia.
  exact Hh.
Qed.

(** The header and the directory of a written file, read back. *)
Lemma read_header_written (littleEndian : bool) (entries : list tiff_field)
  (strip : list byte) (height : Z) :
  Forall (entry_fits (tiff_file littleEndian entries strip) littleEndian) entries ->
  Z.of_nat (length entries) < 2 ^ 16 ->
  read_header (tiff_file littleEndian entries strip) height
  = Returned (littleEndian,
              fold_left entry_effect entries
                {| compression := 1; stripOffsets := []; stripByteCounts := [];
                   rowsPerStrip := height |}).
Proof.
  intros Hfit Hcount.
  set (buffer := tiff_file littleEndian entries strip).
  set (magic := if littleEndian then [Byte.x49; Byte.x49] else [Byte.x4d; Byte.x4d]).
  assert (length magic = 2%nat) as Hmagic by (by destruct littleEndian).
  assert (holds buffer 0 magic) as H0.
  { exists [], (split_bytes littleEndian 2 42 ++ split_bytes littleEndian 4 8
      ++ split_bytes littleEndian 2 (Z.of_nat (length entries))
      ++ concat (tiff_entry littleEndian <$> entries)
      ++ split_bytes littleEndian 4 0 ++ strip). by split. }
  assert (holds buffer 4 (split_bytes littleEndian 4 8)) as H4.
  { exists (magic ++ split_bytes littleEndian 2 42),
      (split_bytes littleEndian 2 (Z.of_nat (length entries))
       ++ concat (tiff_entry littleEndian <$> entries)
       ++ split_bytes littleEndian 4 0 ++ strip).
    split; [by rewrite <- !app_assoc|].
    unfold byteLength. by rewrite length_app, Hmagic, length_split_bytes. }
  assert (holds buffer 8 (split_bytes littleEndian 2 (Z.of_nat (length entries)))) as H8.
  { exists (magic ++ split_bytes littleEndian 2 42 ++ split_bytes littleEndian 4 8),
      (concat (tiff_entry littleEndian <$> entries) ++ split_bytes littleEndian 4 0 ++ strip).
    split; [by rewrite <- !app_assoc|].
    unfold byteLength. by rewrite !length_app, Hmagic, !length_split_bytes. }
  assert (holds buffer (8 + 2 + 0 * 12) (concat (tiff_entry littleEndian <$> entries))) as H10.
  { exists (magic ++ split_bytes littleEndian 2 42 ++ split_bytes littleEndian 4 8
            ++ split_bytes littleEndian 2 (Z.of_nat (length entries))),
      (split_bytes littleEndian 4 0 ++ strip).
    split; [by rewrite <- !app_assoc|].
    unfold byteLength. by rewrite !length_app, Hmagic, !length_split_bytes. }
  pose proof (holds_bytes_at _ _ _ H8) as (_ & _ & Hlen).
  rewrite length_split_bytes in Hlen.
  unfold read_header.
  destruct (Z.ltb_spec (byteLength buffer) 8); [lia|].
  rewrite !getUint8_returns by lia. cbn [bind].
  assert (or_zero (u8_get buffer 0) = (if littleEndian then 73 else 77)
          /\ or_zero (u8_get buffer 1) = (if littleEndian then 73 else 77)) as [-> ->].
  { subst buffer. unfold tiff_file. fold magic.
    rewrite !u8_get_app_l by (unfold byteLength; lia).
    subst magic. by destruct littleEndian. }
  assert (((if littleEndian then 73 else 77) =? 73) && ((if littleEndian then 73 else 77) =? 73)
          = littleEndian) as -> by (by destruct littleEndian).
  assert (negb ((if littleEndian then 73 else 77) =? 73)
          && negb ((if littleEndian then 73 else 77) =? 77) = false) as ->
    by (by destruct littleEndian).
  rewrite (getUint32_holds _ _ _ _ H4 ltac:(lia)). cbn [bind].
  destruct (Z.gtb_spec (8 + 2) (byteLength buffer)); [lia|].
  rewrite (getUint16_holds _ _ _ _ H8 ltac:(lia)). cbn [bind].
  rewrite Nat2Z.id, (ifd_loop_written littleEndian entries buffer 8 0 _ ltac:(lia) H10 Hfit). reflexivity.
Qed.

(** ** The strip *)

Lemma gather_ext {A : Type} (n : nat) (i : Z) (f g : Z -> list A) :
  (forall j, i <= j < i + Z.of_nat n -> f j = g j) -> gather n i f = gather n i g.
Proof.
  revert i. induction n as [|n IH]; intros i Hfg; cbn [gather]; [reflexivity|].
  rewrite Hfg by lia. f_equal. apply IH. intros j Hj. apply Hfg. lia.
Qed.

Lemma gather_nil {A : Type} (n : nat) (i : Z) :
  gather n i (fun _ => @nil A) = [].
Proof. revert i. induction n as [|n IH]; intros i; cbn [gather app]; [reflexivity|apply IH]. Qed.

Lemma gather_singletons {A : Type} (n : nat) (i : Z) (f : Z -> A) :
  gather n i (fun j => [f j]) = (fun k => f (i + Z.of_nat k)) <$> seq 0 n.
Proof.
  revert i. induction n as [|n IH]; intros i; cbn [gather seq fmap list_fmap app];
    [reflexivity|].
  rewrite Z.add_0_r. f_equal. rewrite IH, <- fmap_S_seq, <- list_fmap_compose.
  apply list_fmap_ext. intros k j _. cbn. f_equal. lia.
Qed.

(** The values of a strip are its samples, scaled and rounded. *)
Lemma strip_values_raster (strip : list byte) (littleEndian : bool) :
  strip_values strip littleEndian
  = raster_at strip littleEndian 0 (Z.to_nat (byteLength strip / 2)).
Proof.
  unfold strip_values, raster_at. rewrite gather_singletons.
  apply list_fmap_ext. intros k j _. reflexivity.
Qed.

Lemma length_strip_values (strip : list byte) (littleEndian : bool) :
  length (strip_values strip littleEndian) = Z.to_nat (byteLength strip / 2).
Proof. rewrite strip_values_raster. unfold raster_at. by rewrite length_fmap, length_seq. Qed.

(** The uncompressed pass over one strip that ends the buffer. *)
Lemma raw_values_written (pre payload : list byte) (littleEndian : bool) (total : Z)
  (ifd : tiff_ifd) :
  stripOffsets ifd = [byteLength pre] -> stripByteCounts ifd = [byteLength payload] ->
  raw_values (pre ++ payload) littleEndian total ifd = strip_values payload littleEndian.
Proof.
  intros Hoff Hcount. unfold raw_values. rewrite Hoff, Hcount.
  cbn [length gather].
  change (num_get [byteLength pre] 0) with (Some (byteLength pre)).
  change (num_get [byteLength payload] 0) with (Some (byteLength payload)).
  cbn [or_zero default from_option id count_or_all]. rewrite app_nil_r.
  assert (byteLength (pre ++ payload) = byteLength pre + byteLength payload) as Hlen
    by (unfold byteLength; rewrite length_app; lia).
  assert (0 <= byteLength payload) as Hpos by (unfold byteLength; lia).
  destruct (Z.eqb_spec (byteLength payload) 0) as [Hnone|Hsome].
  - rewrite (gather_ext _ _ _ (fun _ => [])).
    + rewrite gather_nil. unfold strip_values. by rewrite Hnone.
    + intros j Hj. destruct (Z.leb_spec (byteLength pre + j * 2 + 2)
                               (byteLength (pre ++ payload))); [lia|reflexivity].
  - unfold strip_values. apply gather_ext. intros j Hj.
    assert (j * 2 + 2 <= byteLength payload).
    { pose proof (Z.mul_div_le (byteLength payload) 2 ltac:(lia)).
      assert (j + 1 <= byteLength payload / 2) by lia. lia. }
    destruct (Z.leb_spec (byteLength pre + j * 2 + 2) (byteLength (pre ++ payload))); [|lia].
    rewrite bytes_at_app_r by lia. reflexivity.
Qed.

Lemma length_int16_bytes (littleEndian : bool) (samples : list Z) :
  length (int16_bytes littleEndian samples) = (2 * length samples)%nat.
Proof.
  induction samples as [|z samples IH]; [reflexivity|].
  unfold int16_bytes in *. cbn [fmap list_fmap concat length].
  rewrite length_app, length_split_bytes, IH. lia.
Qed.

Lemma int16_bytes_app (littleEndian : bool) (xs ys : list Z) :
  int16_bytes littleEndian (xs ++ ys)
  = int16_bytes littleEndian xs ++ int16_bytes littleEndian ys.
Proof. unfold int16_bytes. by rewrite fmap_app, concat_app. Qed.

Lemma holds_int16 (littleEndian : bool) (samples : list Z) (k : nat) (z : Z) :
  samples !! k = Some z ->
  holds (int16_bytes littleEndian samples) (Z.of_nat k * 2) (split_bytes littleEndian 2 z).
Proof.
  intros Hk. pose proof (lookup_lt_Some _ _ _ Hk) as Hlt.
  exists (int16_bytes littleEndian (take k samples)),
    (int16_bytes littleEndian (drop (S k) samples)).
  split.
  - rewrite <- (take_drop_middle _ _ _ Hk) at 1.
    rewrite int16_bytes_app. f_equal.
  - unfold byteLength. rewrite length_int16_bytes, length_take. lia.
Qed.

Lemma to_int16_wrap (z : Z) : - 2 ^ 15 <= z < 2 ^ 15 -> to_int16 (z mod 2 ^ 16) = z.
Proof.
  intros Hz. unfold to_int16. rewrite Z.add_mod_idemp_l by lia.
  rewrite Z.mod_small by lia. lia.
Qed.

(** Samples written as 16-bit integers are read back as they were. *)
Lemma strip_values_int16 (littleEndian : bool) (samples : list Z) :
  Forall (fun z => - 2 ^ 15 <= z < 2 ^ 15) samples ->
  strip_values (int16_bytes littleEndian samples) littleEndian
  = (fun z => F32.round (reflectance z)) <$> samples.
Proof.
  intros Hrange. rewrite strip_values_raster. unfold raster_at, byteLength.
  rewrite length_int16_bytes.
  replace (Z.to_nat (Z.of_nat (2 * length samples) / 2)) with (length samples)
    by (rewrite Nat2Z.inj_mul, Z.mul_comm, Z.div_mul; lia).
  apply list_eq. intros k. rewrite !list_lookup_fmap.
  destruct (samples !! k) as [z|] eqn:Hk.
  - rewrite lookup_seq_lt by (by apply lookup_lt_Some in Hk).
    cbn [fmap option_fmap option_map]. do 3 f_equal.
    unfold sample_at. rewrite Nat.add_0_l, Z.add_0_l.
    pose proof (holds_bytes_at _ _ _ (holds_int16 littleEndian samples k z Hk))
      as (Hbytes & _).
    rewrite length_split_bytes in Hbytes. rewrite Hbytes, combine_split_bytes.
    apply to_int16_wrap. by apply (Forall_lookup_1 _ _ _ _ Hrange Hk).
  - rewrite lookup_seq_ge by (by apply lookup_ge_None in Hk). reflexivity.
Qed.

Lemma padded_exact (total : Z) (zs : list spec_float) :
  Z.of_nat (length zs) = total -> padded total zs = zs.
Proof.
  intros <-. unfold padded. rewrite Nat2Z.id, take_ge, Nat.sub_diag by lia.
  apply app_nil_r.
Qed.

(** ** Files of the reference writer, parsed *)

Lemma tiff_image_split (littleEndian : bool) (width height compression : Z)
  (strip : list byte) :
  exists pre,
    tiff_image littleEndian width height compression strip = pre ++ strip
    /\ byteLength pre = 122.
Proof.
  exists ((if littleEndian then [Byte.x49; Byte.x49] else [Byte.x4d; Byte.x4d])
          ++ split_bytes littleEndian 2 42 ++ split_bytes littleEndian 4 8
          ++ split_bytes littleEndian 2 9
          ++ concat (tiff_entry littleEndian
                       <$> tiff_tags width height compression (byteLength strip))
          ++ split_bytes littleEndian 4 0).
  split.
  - unfold tiff_image, tiff_file. by rewrite <- !app_assoc.
  - unfold byteLength, tiff_tags. cbn [fmap list_fmap concat].
    rewrite !length_app, !length_tiff_entry, !length_split_bytes.
    by destruct littleEndian.
Qed.

Lemma tiff_image_header (littleEndian : bool) (width height compression : Z)
  (strip : list byte) :
  0 <= width < 2 ^ 32 -> 0 <= height < 2 ^ 32 -> 0 <= compression < 2 ^ 16 ->
  byteLength strip < 2 ^ 32 ->
  read_header (tiff_image littleEndian width height compression strip) height
  = Returned (littleEndian,
              {| compression := compression; stripOffsets := [122];
                 stripByteCounts := [byteLength strip]; rowsPerStrip := height |}).
Proof.
  intros Hw Hh Hc Hs. unfold tiff_image.
  assert (0 <= byteLength strip) by (unfold byteLength; lia).
  rewrite read_header_written; [reflexivity | | cbn; lia].
  unfold tiff_tags. repeat (apply Forall_cons; split; [cbn; lia|]). constructor.
Qed.

Section Written.

Variable decompressionStream : CompressionFormat -> list byte -> option (list byte).
Variable littleEndian : bool.
Variables w h : nat.
Variable strip : list byte.
Hypothesis Hw : Z.of_nat w < 2 ^ 32.
Hypothesis Hh : Z.of_nat h < 2 ^ 32.
Hypothesis Hstrip : byteLength strip < 2 ^ 32.

Let total : Z := Z.of_nat w * Z.of_nat h.

Definition written_ifd (compression : Z) : tiff_ifd :=
  {| compression := compression; stripOffsets := [122];
     stripByteCounts := [byteLength strip]; rowsPerStrip := Z.of_nat h |}.

(** What the parser returns for a written file, by the values its pass
    stores. *)
Lemma parse_written (compression : Z) :
  0 <= compression < 2 ^ 16 ->
  let buffer := tiff_image littleEndian (Z.of_nat w) (Z.of_nat h) compression strip in
  let ifd := written_ifd compression in
  exists raster,
    parseTiffInt16ToFloat32 decompressionStream buffer (Z.of_nat w) (Z.of_nat h)
      = Returned raster
    /\ (uses_fallback decompressionStream buffer littleEndian (Z.of_nat w) total ifd = false ->
        raster = padded total
                   (codec_values decompressionStream buffer littleEndian (Z.of_nat w) total ifd)).
Proof.
  intros Hc buffer ifd.
  destruct (parse_after_header decompressionStream buffer (Z.of_nat w) (Z.of_nat h)
              littleEndian ifd) as (raster & Hparse & _ & _ & Hcodec & _).
  - lia.
  - unfold ifd_unsigned, unsigned_list, ifd, written_ifd. cbn [stripOffsets stripByteCounts].
    split; repeat constructor; unfold byteLength; lia.
  - apply tiff_image_header; (lia || assumption).
  - exists raster. split; [exact Hparse | exact Hcodec].
Qed.

Lemma raw_values_image :
  raw_values (tiff_image littleEndian (Z.of_nat w) (Z.of_nat h) 1 strip) littleEndian total
    (written_ifd 1)
  = strip_values strip littleEndian.
Proof.
  destruct (tiff_image_split littleEndian (Z.of_nat w) (Z.of_nat h) 1 strip)
    as (pre & -> & Hpre).
  apply raw_values_written; cbn [written_ifd stripOffsets stripByteCounts];
    [by rewrite Hpre | reflexivity].
Qed.

Lemma lzw_values_image (data : list byte) :
  strip = lzw_encode data ->
  lzw_values (tiff_image littleEndian (Z.of_nat w) (Z.of_nat h) 5 strip) littleEndian
    (written_ifd 5)
  = strip_values data littleEndian.
Proof.
  intros Hdata.
  destruct (tiff_image_split littleEndian (Z.of_nat w) (Z.of_nat h) 5 strip)
    as (pre & -> & Hpre).
  unfold lzw_values, lzw_strip_data. cbn [written_ifd stripOffsets stripByteCounts length gather].
  change (num_get [122] 0) with (Some 122).
  change (num_get [byteLength strip] 0) with (Some (byteLength strip)).
  cbn [or_zero default from_option id lzw_strip].
  rewrite Hdata, <- Hpre.
  rewrite decompressLZW_holds; [apply app_nil_r|].
  exists pre, []. by rewrite app_nil_r.
Qed.

Lemma u8_slice_image (compression : Z) :
  u8_slice (tiff_image littleEndian (Z.of_nat w) (Z.of_nat h) compression strip)
    122 (122 + byteLength strip) = strip.
Proof.
  destruct (tiff_image_split littleEndian (Z.of_nat w) (Z.of_nat h) compression strip)
    as (pre & -> & Hpre).
  unfold u8_slice, byteLength in *. rewrite length_app.
  destruct (Z.ltb_spec 122 0); [lia|].
  destruct (Z.ltb_spec (122 + Z.of_nat (length strip)) 0); [lia|].
  rewrite !Z.min_l by lia.
  replace (Z.to_nat 122) with (length pre) by lia.
  rewrite drop_app_length.
  replace (Z.to_nat (122 + Z.of_nat (length strip) - 122)) with (length strip) by lia.
  apply firstn_all.
Qed.

Lemma deflate_values_image (compression : Z) :
  deflate_values decompressionStream
    (tiff_image littleEndian (Z.of_nat w) (Z.of_nat h) compression strip) littleEndian
    (Z.of_nat w) (written_ifd compression)
  = match decompressDeflate decompressionStream strip with
    | Returned decompressed => strip_values decompressed littleEndian
    | _ => replicate (Z.to_nat (Z.of_nat h * Z.of_nat w)) F64.zero
    end.
Proof.
  unfold deflate_values. cbn [written_ifd stripOffsets stripByteCounts rowsPerStrip length gather].
  change (num_get [122] 0) with (Some 122).
  change (num_get [byteLength strip] 0) with (Some (byteLength strip)).
  cbn [or_zero default from_option id strip_end].
  rewrite u8_slice_image. apply app_nil_r.
Qed.

End Written.

Lemma padded_lookup (total : Z) (zs : list spec_float) (k : nat) :
  (k < Z.to_nat total)%nat ->
  padded total zs !! k = Some (default F64.zero (zs !! k)).
Proof.
  intros Hk. unfold padded.
  destruct (decide (k < length zs)%nat) as [Hlt|Hge].
  - rewrite lookup_app_l by (rewrite length_take; lia).
    rewrite lookup_take_lt by lia.
    destruct (lookup_lt_is_Some_2 zs k Hlt) as [z ->]. reflexivity.
  - rewrite lookup_app_r by (rewrite length_take; lia).
    rewrite lookup_replicate_2 by (rewrite length_take; lia).
    by rewrite (proj2 (lookup_ge_None zs k)) by lia.
Qed.

Lemma padded_zeros (total : Z) (n : nat) :
  padded total (replicate n F64.zero) = replicate (Z.to_nat total) F64.zero.
Proof.
  unfold padded. rewrite take_replicate, length_replicate, <- replicate_add.
  f_equal. lia.
Qed.

Lemma raster_at_lookup (buffer : list byte) (littleEndian : bool) (start : Z) (n k : nat) :
  raster_at buffer littleEndian start n !! k
  = if decide (k < n)%nat
    then Some (F32.round (reflectance (sample_at buffer littleEndian start (Z.of_nat k))))
    else None.
Proof.
  unfold raster_at. rewrite list_lookup_fmap.
  destruct (decide (k < n)%nat).
  - by rewrite lookup_seq_lt.
  - by rewrite lookup_seq_ge by lia.
Qed.

(** ** Uncompressed files *)

Lemma padded_strip_lookup (total : Z) (payload : list byte) (littleEndian : bool) (k : nat) :
  (k < Z.to_nat total)%nat ->
  padded total (strip_values payload littleEndian) !! k
  = Some (if 2 * Z.of_nat k + 2 <=? byteLength payload
          then F32.round (reflectance (sample_at payload littleEndian 0 (Z.of_nat k)))
          else F64.zero).
Proof.
  intros Hk. rewrite padded_lookup by lia.
  rewrite strip_values_raster, raster_at_lookup. f_equal.
  assert (0 <= byteLength payload) by (unfold byteLength; lia).
  pose proof (Z.mul_div_le (byteLength payload) 2 ltac:(lia)).
  pose proof (Z.mod_pos_bound (byteLength payload) 2 ltac:(lia)).
  pose proof (Z.div_mod (byteLength payload) 2 ltac:(lia)).
  destruct (decide (k < Z.to_nat (byteLength payload / 2))%nat),
    (Z.leb_spec (2 * Z.of_nat k + 2) (byteLength payload)); cbn; (reflexivity || lia).
Qed.

(** An uncompressed file whose strip is cut short, or longer than the
    raster, or has an odd byte at its end: the raster holds the 16-bit
    samples that are wholly there, scaled, and zeros for the rest. The
    size the file declares in its ImageWidth and ImageLength tags is not
    read: the raster has the size the caller asks for. *)
Theorem tiff_uncompressed_any_strip
  (decompressionStream : CompressionFormat -> list byte -> option (list byte))
  (littleEndian : bool) (declaredWidth declaredHeight w h : nat) (payload : list byte) :
  Z.of_nat declaredWidth < 2 ^ 32 -> Z.of_nat declaredHeight < 2 ^ 32 ->
  byteLength payload < 2 ^ 32 ->
  exists raster,
    parseTiffInt16ToFloat32 decompressionStream
      (tiff_image littleEndian (Z.of_nat declaredWidth) (Z.of_nat declaredHeight) 1 payload)
      (Z.of_nat w) (Z.of_nat h)
    = Returned raster
    /\ length raster = (w * h)%nat
    /\ forall k : nat, (k < w * h)%nat ->
         raster !! k
         = Some (if 2 * Z.of_nat k + 2 <=? byteLength payload
                 then F32.round (reflectance (sample_at payload littleEndian 0 (Z.of_nat k)))
                 else F64.zero).
Proof.
  intros Hw Hh Hp.
  assert (0 <= byteLength payload) as Hp0 by (unfold byteLength; lia).
  set (buffer := tiff_image littleEndian (Z.of_nat declaredWidth) (Z.of_nat declaredHeight)
                   1 payload).
  set (ifd := {| compression := 1; stripOffsets := [122];
                 stripByteCounts := [byteLength payload];
                 rowsPerStrip := Z.of_nat declaredHeight |}).
  assert (read_header buffer (Z.of_nat h) = Returned (littleEndian, ifd)) as Hheader.
  { unfold buffer, tiff_image.
    rewrite read_header_written; [reflexivity | | cbn; lia].
    unfold tiff_tags. repeat (apply Forall_cons; split; [cbn; lia|]). constructor. }
  destruct (parse_after_header decompressionStream buffer (Z.of_nat w) (Z.of_nat h)
              littleEndian ifd) as (raster & Hparse & _ & _ & Hcodec & _);
    [lia | split; repeat constructor; cbn; lia | exact Hheader |].
  specialize (Hcodec eq_refl). unfold codec_values in Hcodec.
  cbn [ifd compression Z.eqb Pos.eqb] in Hcodec.
  destruct (tiff_image_split littleEndian (Z.of_nat declaredWidth) (Z.of_nat declaredHeight)
              1 payload) as (pre & Hsplit & Hpre).
  fold buffer in Hsplit. rewrite Hsplit in Hcodec.
  rewrite raw_values_written in Hcodec by (by rewrite ?Hpre).
  exists raster. split; [exact Hparse|]. subst raster.
  split; [rewrite length_padded; lia|].
  intros k Hk. apply padded_strip_lookup. lia.
Qed.

(** Writing a raster of 16-bit samples into a file of one strip, in
    either byte order, uncompressed or compressed by the reference LZW
    encoder, and parsing the file gives every sample divided by 10000,
    rounded to binary32. *)
Theorem tiff_single_strip_round_trip
  (decompressionStream : CompressionFormat -> list byte -> option (list byte))
  (littleEndian : bool) (w h : nat) (scheme : Z) (samples : list Z) :
  let strip := strip_encode scheme (int16_bytes littleEndian samples) in
  scheme = 1 \/ scheme = 5 ->
  length samples = (w * h)%nat ->
  Forall (fun z => - 2 ^ 15 <= z < 2 ^ 15) samples ->
  Z.of_nat w < 2 ^ 32 -> Z.of_nat h < 2 ^ 32 -> byteLength strip < 2 ^ 32 ->
  parseTiffInt16ToFloat32 decompressionStream
    (tiff_image littleEndian (Z.of_nat w) (Z.of_nat h) scheme strip)
    (Z.of_nat w) (Z.of_nat h)
  = Returned ((fun z => F32.round (reflectance z)) <$> samples).
Proof.
  intros strip Hc Hlen Hrange Hw Hh Hp.
  destruct (parse_written decompressionStream littleEndian w h strip Hw Hh Hp scheme
              ltac:(lia)) as (raster & -> & Hcodec).
  assert (codec_values decompressionStream
            (tiff_image littleEndian (Z.of_nat w) (Z.of_nat h) scheme strip)
            littleEndian (Z.of_nat w) (Z.of_nat w * Z.of_nat h) (written_ifd h strip scheme)
          = (fun z => F32.round (reflectance z)) <$> samples) as Hvalues.
  { rewrite <- (strip_values_int16 littleEndian) by assumption.
    unfold codec_values. cbn [written_ifd compression].
    destruct Hc as [-> | ->]; cbn [Z.eqb Pos.eqb].
    - apply raw_values_image.
    - by apply lzw_values_image. }
  rewrite Hvalues in Hcodec.
  rewrite padded_exact in Hcodec by (rewrite length_fmap; lia).
  rewrite Hcodec; [reflexivity|].
  unfold uses_fallback. cbn [written_ifd compression].
  by destruct Hc as [-> | ->].
Qed.

(** ** Deflate files *)

(** With the compression tag 8 or 32946 and a strip that the platform's
    decompressor turns into the samples, in either of the two formats
    tried, the parser returns the samples scaled. *)
Theorem tiff_deflate_round_trip
  (decompressionStream : CompressionFormat -> list byte -> option (list byte))
  (littleEndian : bool) (w h : nat) (samples : list Z) (strip : list byte)
  (scheme : Z) :
  scheme = 8 \/ scheme = 32946 ->
  decompressDeflate decompressionStream strip
    = Returned (int16_bytes littleEndian samples) ->
  length samples = (w * h)%nat ->
  Forall (fun z => - 2 ^ 15 <= z < 2 ^ 15) samples ->
  Z.of_nat w < 2 ^ 32 -> Z.of_nat h < 2 ^ 32 -> byteLength strip < 2 ^ 32 ->
  parseTiffInt16ToFloat32 decompressionStream
    (tiff_image littleEndian (Z.of_nat w) (Z.of_nat h) scheme strip)
    (Z.of_nat w) (Z.of_nat h)
  = Returned ((fun z => F32.round (reflectance z)) <$> samples).
Proof.
  intros Hc Hinflate Hlen Hrange Hw Hh Hp.
  destruct (parse_written decompressionStream littleEndian w h strip Hw Hh Hp scheme
              ltac:(lia)) as (raster & -> & Hcodec).
  assert (codec_values decompressionStream
            (tiff_image littleEndian (Z.of_nat w) (Z.of_nat h) scheme strip)
            littleEndian (Z.of_nat w) (Z.of_nat w * Z.of_nat h) (written_ifd h strip scheme)
          = (fun z => F32.round (reflectance z)) <$> samples) as Hvalues.
  { unfold codec_values. rewrite deflate_values_image, Hinflate.
    rewrite strip_values_int16 by assumption.
    cbn [written_ifd compression]. by destruct Hc as [-> | ->]. }
  rewrite Hvalues in Hcodec.
  rewrite padded_exact in Hcodec by (rewrite length_fmap; lia).
  rewrite Hcodec; [reflexivity|].
  unfold uses_fallback, pixels_recovered. rewrite Hvalues, length_fmap, Hlen.
  cbn [written_ifd compression].
  destruct Hc as [-> | ->]; cbn [Z.eqb Pos.eqb orb]; apply Z.ltb_ge; lia.
Qed.

(** A Deflate strip that the platform's decompressor rejects in both
    formats is not an error and does not bring in the fallback scanner:
    the pixels of the strip are counted as set, and the raster is all
    zeros. *)
Theorem tiff_deflate_failure_zero_filled
  (decompressionStream : CompressionFormat -> list byte -> option (list byte))
  (littleEndian : bool) (w h : nat) (strip : list byte) (scheme : Z) :
  scheme = 8 \/ scheme = 32946 ->
  decompressionStream deflate_raw strip = None ->
  decompressionStream deflate strip = None ->
  Z.of_nat w < 2 ^ 32 -> Z.of_nat h < 2 ^ 32 -> byteLength strip < 2 ^ 32 ->
  let buffer := tiff_image littleEndian (Z.of_nat w) (Z.of_nat h) scheme strip in
  parseTiffInt16ToFloat32 decompressionStream buffer (Z.of_nat w) (Z.of_nat h)
  = Returned (replicate (w * h) F64.zero)
  /\ tiff_route decompressionStream buffer (Z.of_nat w) (Z.of_nat h)
     = Returned (ViaCodec (replicate (w * h) F64.zero)).
Proof.
  intros Hc Hraw Hzlib Hw Hh Hp buffer.
  assert (0 <= byteLength strip) as Hp0 by (unfold byteLength; lia).
  destruct (parse_after_header decompressionStream buffer (Z.of_nat w) (Z.of_nat h)
              littleEndian (written_ifd h strip scheme))
    as (raster & Hparse & _ & Hroute & Hcodec & _).
  { lia. }
  { split; repeat constructor; cbn; lia. }
  { apply tiff_image_header; lia. }
  assert (codec_values decompressionStream buffer littleEndian (Z.of_nat w)
            (Z.of_nat w * Z.of_nat h) (written_ifd h strip scheme)
          = replicate (w * h) F64.zero) as Hvalues.
  { unfold codec_values. subst buffer. rewrite deflate_values_image.
    unfold decompressDeflate. rewrite Hraw, Hzlib.
    cbn [written_ifd compression].
    replace (Z.to_nat (Z.of_nat h * Z.of_nat w)) with (w * h)%nat by lia.
    by destruct Hc as [-> | ->]. }
  assert (uses_fallback decompressionStream buffer littleEndian (Z.of_nat w)
            (Z.of_nat w * Z.of_nat h) (written_ifd h strip scheme) = false) as Hfb.
  { unfold uses_fallback, pixels_recovered. rewrite Hvalues, length_replicate.
    cbn [written_ifd compression].
    destruct Hc as [-> | ->]; cbn [Z.eqb Pos.eqb orb]; apply Z.ltb_ge; lia. }
  rewrite Hfb in Hroute. specialize (Hcodec Hfb).
  rewrite Hvalues, padded_zeros in Hcodec.
  replace (Z.to_nat (Z.of_nat w * Z.of_nat h)) with (w * h)%nat in Hcodec by lia.
  subst raster. by split.
Qed.

(** ** Missing tags *)

Lemma fold_entry_effect_keeps (entries : list tiff_field) (ifd : tiff_ifd) :
  Forall (fun field => field_tag field <> 259 /\ field_tag field <> 273) entries ->
  compression (fold_left entry_effect entries ifd) = compression ifd
  /\ stripOffsets (fold_left entry_effect entries ifd) = stripOffsets ifd.
Proof.
  revert ifd. induction entries as [|field entries IH]; intros ifd Hno;
    cbn [fold_left]; [by split|].
  apply Forall_cons in Hno as [[H259 H273] Hno].
  destruct (IH (entry_effect ifd field) Hno) as [-> ->].
  destruct field as [tag type value|tag ptr values]; cbn [field_tag] in H259, H273;
    unfold entry_effect.
  - destruct (Z.eqb_spec tag 259); [contradiction|].
    destruct (Z.eqb_spec tag 278); [by split|].
    destruct (Z.eqb_spec tag 273); [contradiction|].
    destruct (Z.eqb_spec tag 279); by split.
  - destruct (Z.eqb_spec tag 273); [contradiction|]. by split.
Qed.

(** A file whose directory has neither a Compression nor a StripOffsets
    tag, whatever else it has, is read as uncompressed with no strip: the
    raster is all zeros and nothing is thrown. *)
Theorem tiff_without_strips
  (decompressionStream : CompressionFormat -> list byte -> option (list byte))
  (littleEndian : bool) (entries : list tiff_field) (strip : list byte) (w h : nat) :
  Forall (entry_fits (tiff_file littleEndian entries strip) littleEndian) entries ->
  Forall (fun field => field_tag field <> 259 /\ field_tag field <> 273) entries ->
  Z.of_nat (length entries) < 2 ^ 16 ->
  parseTiffInt16ToFloat32 decompressionStream (tiff_file littleEndian entries strip)
    (Z.of_nat w) (Z.of_nat h)
  = Returned (replicate (w * h) F64.zero).
Proof.
  intros Hfit Hno Hcount.
  pose proof (read_header_written littleEndian entries strip (Z.of_nat h) Hfit Hcount)
    as Hheader.
  set (ifd := fold_left entry_effect entries _) in Hheader.
  destruct (fold_entry_effect_keeps entries
              {| compression := 1; stripOffsets := []; stripByteCounts := [];
                 rowsPerStrip := Z.of_nat h |} Hno) as [Hcomp Hoffs].
  fold ifd in Hcomp, Hoffs. cbn [compression stripOffsets] in Hcomp, Hoffs.
  assert (ifd_unsigned ifd) as Hu.
  { destruct (read_header_cases (tiff_file littleEndian entries strip) (Z.of_nat h))
      as [(_ & H)|[(_ & _ & _ & H)|[(_ & _ & _ & H)|(_ & _ & _ & ifd' & H & Hu)]]];
      rewrite Hheader in H; try discriminate.
    by injection H as _ ->. }
  destruct (parse_after_header decompressionStream _ (Z.of_nat w) (Z.of_nat h)
              littleEndian ifd ltac:(lia) Hu Hheader) as (raster & -> & _ & _ & Hcodec & _).
  unfold uses_fallback, codec_values, raw_values in Hcodec.
  rewrite Hcomp, Hoffs in Hcodec. cbn [Z.eqb Pos.eqb length gather] in Hcodec.
  rewrite (Hcodec eq_refl). unfold padded. cbn [take length app].
  rewrite take_nil, Nat.sub_0_r. cbn [app]. do 2 f_equal. lia.
Qed.

(** ** A strip without a byte count *)

Lemma gather_app {A : Type} (n m : nat) (f : Z -> list A) :
  forall i : Z, gather (n + m) i f = gather n i f ++ gather m (i + Z.of_nat n) f.
Proof.
  induction n as [|n IH]; intros i; cbn [gather Nat.add app].
  - f_equal. lia.
  - rewrite IH, <- app_assoc. do 3 f_equal. lia.
Qed.

Lemma padded_take (total : Z) (zs : list spec_float) :
  padded total (take (Z.to_nat total) zs) = padded total zs.
Proof.
  unfold padded. rewrite take_take, Nat.min_id, length_take. f_equal. f_equal. lia.
Qed.

(** The uncompressed pass over one strip that ends the buffer and has no
    byte count: the strip is read as if it held the whole raster. *)
Lemma raw_values_uncounted (pre payload : list byte) (littleEndian : bool) (total : Z)
  (ifd : tiff_ifd) :
  0 <= total ->
  stripOffsets ifd = [byteLength pre] -> stripByteCounts ifd = [] ->
  raw_values (pre ++ payload) littleEndian total ifd
  = take (Z.to_nat total) (strip_values payload littleEndian).
Proof.
  intros Htotal Hoff Hcount. unfold raw_values. rewrite Hoff, Hcount.
  cbn [length gather].
  change (num_get [byteLength pre] 0) with (Some (byteLength pre)).
  change (num_get [] 0) with (@None Z).
  cbn [or_zero default from_option id count_or_all]. rewrite app_nil_r.
  rewrite Z.div_mul by lia.
  assert (byteLength (pre ++ payload) = byteLength pre + byteLength payload) as Hlen
    by (unfold byteLength; rewrite length_app; lia).
  assert (0 <= byteLength payload) as Hpos by (unfold byteLength; lia).
  pose proof (Z.mul_div_le (byteLength payload) 2 ltac:(lia)) as Hdiv.
  pose proof (Z.mod_pos_bound (byteLength payload) 2 ltac:(lia)) as Hmod.
  pose proof (Z.div_mod (byteLength payload) 2 ltac:(lia)) as Hdm.
  set (m := Z.to_nat (byteLength payload / 2)).
  set (yield := fun i : Z =>
         [F32.round (reflectance
            (to_int16 (combine_bytes littleEndian (bytes_at payload (i * 2) 2))))]).
  assert (forall n : nat, (n <= m)%nat ->
            gather n 0
              (fun i => if byteLength pre + i * 2 + 2 <=? byteLength (pre ++ payload)
                        then [F32.round (reflectance
                                (to_int16 (combine_bytes littleEndian
                                   (bytes_at (pre ++ payload) (byteLength pre + i * 2) 2))))]
                        else [])
            = gather n 0 yield) as Hin.
  { intros n Hn. apply gather_ext. intros j Hj.
    destruct (Z.leb_spec (byteLength pre + j * 2 + 2) (byteLength (pre ++ payload))); [|lia].
    rewrite bytes_at_app_r by lia. reflexivity. }
  unfold strip_values. fold m yield.
  destruct (Nat.le_gt_cases (Z.to_nat total) m) as [Hle|Hgt].
  - rewrite Hin by lia.
    assert (gather m 0 yield
            = gather (Z.to_nat total) 0 yield
              ++ gather (m - Z.to_nat total) (0 + Z.of_nat (Z.to_nat total)) yield) as ->.
    { rewrite <- gather_app. f_equal. lia. }
    rewrite take_app_length'; [reflexivity|].
    unfold yield. by rewrite gather_singletons, length_fmap, length_seq.
  - match goal with |- gather _ _ ?f = _ => set (body := f) end.
    assert (gather (Z.to_nat total) 0 body
            = gather m 0 body ++ gather (Z.to_nat total - m) (0 + Z.of_nat m) body) as ->.
    { rewrite <- gather_app. f_equal. lia. }
    subst body. cbv beta. rewrite Hin by lia.
    rewrite (gather_ext (Z.to_nat total - m) _ _ (fun _ => [])), gather_nil, app_nil_r.
    + rewrite take_ge; [reflexivity|].
      unfold yield. rewrite gather_singletons, length_fmap, length_seq. lia.
    + intros j Hj.
      destruct (Z.leb_spec (byteLength pre + j * 2 + 2) (byteLength (pre ++ payload)));
        [lia | reflexivity].
Qed.

(** A file with no StripByteCounts tag (and no Compression tag): the
    byte count of its strip defaults to that of the whole raster, and the
    strip is read up to the end of the buffer. *)
Theorem tiff_without_byte_counts
  (decompressionStream : CompressionFormat -> list byte -> option (list byte))
  (littleEndian : bool) (declaredWidth declaredHeight w h : nat) (payload : list byte) :
  Z.of_nat declaredWidth < 2 ^ 32 -> Z.of_nat declaredHeight < 2 ^ 32 ->
  exists raster,
    parseTiffInt16ToFloat32 decompressionStream
      (tiff_file littleEndian
         [Scalar 256 4 (Z.of_nat declaredWidth); Scalar 257 4 (Z.of_nat declaredHeight);
          Scalar 273 4 50]
         payload)
      (Z.of_nat w) (Z.of_nat h)
    = Returned raster
    /\ length raster = (w * h)%nat
    /\ forall k : nat, (k < w * h)%nat ->
         raster !! k
         = Some (if 2 * Z.of_nat k + 2 <=? byteLength payload
                 then F32.round (reflectance (sample_at payload littleEndian 0 (Z.of_nat k)))
                 else F64.zero).
Proof.
  intros Hw Hh.
  set (entries := [Scalar 256 4 (Z.of_nat declaredWidth);
                   Scalar 257 4 (Z.of_nat declaredHeight); Scalar 273 4 50]).
  set (buffer := tiff_file littleEndian entries payload).
  set (ifd := {| compression := 1; stripOffsets := [50]; stripByteCounts := [];
                 rowsPerStrip := Z.of_nat h |}).
  assert (read_header buffer (Z.of_nat h) = Returned (littleEndian, ifd)) as Hheader.
  { unfold buffer. rewrite read_header_written; [reflexivity | | cbn; lia].
    unfold entries. repeat (apply Forall_cons; split; [cbn; lia|]). constructor. }
  destruct (parse_after_header decompressionStream buffer (Z.of_nat w) (Z.of_nat h)
              littleEndian ifd) as (raster & Hparse & _ & _ & Hcodec & _);
    [lia | split; repeat constructor; cbn; lia | exact Hheader |].
  specialize (Hcodec eq_refl). unfold codec_values in Hcodec.
  cbn [ifd compression Z.eqb Pos.eqb] in Hcodec.
  assert (exists pre, buffer = pre ++ payload /\ byteLength pre = 50) as (pre & Hsplit & Hpre).
  { exists ((if littleEndian then [Byte.x49; Byte.x49] else [Byte.x4d; Byte.x4d])
            ++ split_bytes littleEndian 2 42 ++ split_bytes littleEndian 4 8
            ++ split_bytes littleEndian 2 3
            ++ concat (tiff_entry littleEndian <$> entries)
            ++ split_bytes littleEndian 4 0).
    split.
    - unfold buffer, tiff_file. by rewrite <- !app_assoc.
    - unfold byteLength, entries. cbn [fmap list_fmap concat].
      rewrite !length_app, !length_tiff_entry, !length_split_bytes.
      by destruct littleEndian. }
  rewrite Hsplit in Hcodec.
  rewrite raw_values_uncounted in Hcodec by (lia || by rewrite ?Hpre).
  rewrite padded_take in Hcodec.
  exists raster. split; [exact Hparse|]. subst raster.
  split; [rewrite length_padded; lia|].
  intros k Hk. apply padded_strip_lookup. lia.
Qed.

(** Two samples, 1.0 and -0.5, big-endian, behind a directory of three
    entries. *)
Lemma tiff_without_byte_counts_witness :
  exists raster,
    parseTiffInt16ToFloat32 (fun _ _ => None)
      (tiff_file false [Scalar 256 4 2; Scalar 257 4 1; Scalar 273 4 50]
         [Byte.x27; Byte.x10; Byte.xec; Byte.x78]) 2 1 = Returned raster
    /\ raster !! 0%nat = Some (F32.round (reflectance 10000))
    /\ raster !! 1%nat = Some (F32.round (reflectance (-5000))).
Proof.
  destruct (tiff_without_byte_counts (fun _ _ => None) false 2 1 2 1
              [Byte.x27; Byte.x10; Byte.xec; Byte.x78]) as (raster & Hparse & _ & Hvalues);
    [reflexivity | reflexivity |].
  exists raster. split; [exact Hparse|]. split.
  - exact (Hvalues 0%nat ltac:(lia)).
  - exact (Hvalues 1%nat ltac:(lia)).
Defined.

(** ** Several strips *)

Lemma length_long_bytes (littleEndian : bool) (values : list Z) :
  length (long_bytes littleEndian values) = (4 * length values)%nat.
Proof.
  induction values as [|v values IH]; [reflexivity|].
  unfold long_bytes in *. cbn [fmap list_fmap concat length].
  rewrite length_app, length_split_bytes, IH. lia.
Qed.

Lemma length_strip_starts (start : Z) (strips : list (list byte)) :
  length (strip_starts start strips) = length strips.
Proof.
  revert start. induction strips as [|strip strips IH]; intros start; cbn [strip_starts length];
    [reflexivity | by rewrite IH].
Qed.

Lemma byteLength_concat_nonneg (strips : list (list byte)) : 0 <= byteLength (concat strips).
Proof. unfold byteLength. lia. Qed.

Lemma strip_starts_range (strips : list (list byte)) :
  forall start : Z,
    0 <= start ->
    Forall (fun v => 0 <= v <= start + byteLength (concat strips)) (strip_starts start strips).
Proof.
  induction strips as [|strip strips IH]; intros start Hstart; cbn [strip_starts concat];
    [constructor|].
  assert (byteLength (strip ++ concat strips) = byteLength strip + byteLength (concat strips))
    as -> by (unfold byteLength; rewrite length_app; lia).
  pose proof (byteLength_concat_nonneg strips).
  assert (0 <= byteLength strip) by (unfold byteLength; lia).
  constructor; [lia|].
  eapply Forall_impl; [apply (IH (start + byteLength strip)); lia|].
  cbn. intros v Hv. lia.
Qed.

Lemma byteLength_range (strips : list (list byte)) :
  Forall (fun v => 0 <= v <= byteLength (concat strips)) (byteLength <$> strips).
Proof.
  induction strips as [|strip strips IH]; cbn [fmap list_fmap concat]; [constructor|].
  assert (byteLength (strip ++ concat strips) = byteLength strip + byteLength (concat strips))
    as -> by (unfold byteLength; rewrite length_app; lia).
  pose proof (byteLength_concat_nonneg strips).
  assert (0 <= byteLength strip) by (unfold byteLength; lia).
  constructor; [lia|].
  eapply Forall_impl; [exact IH|]. cbn. intros v Hv. lia.
Qed.

(** Where the strips are in a buffer that holds them from [start] on. *)
Lemma strip_starts_holds (strips : list (list byte)) :
  forall (pre post : list byte) (k : nat) (strip : list byte),
    strips !! k = Some strip ->
    exists off,
      strip_starts (byteLength pre) strips !! k = Some off
      /\ holds (pre ++ concat strips ++ post) off strip.
Proof.
  induction strips as [|first strips IH]; intros pre post k strip Hk; [done|].
  destruct k as [|k]; cbn [strip_starts concat] in *.
  - injection Hk as ->. exists (byteLength pre). split; [reflexivity|].
    exists pre, (concat strips ++ post). by rewrite <- app_assoc.
  - destruct (IH (pre ++ first) post k strip Hk) as (off & Hoff & Hholds).
    exists off. split.
    + replace (byteLength pre + byteLength first) with (byteLength (pre ++ first))
        by (unfold byteLength; rewrite length_app; lia).
      exact Hoff.
    + by rewrite <- !app_assoc in Hholds |- *.
Qed.

Lemma gather_lookup {A B : Type} (l : list A) (g : A -> list B) (f : Z -> list B) :
  forall i : Z,
    (forall (k : nat) (x : A), l !! k = Some x -> f (i + Z.of_nat k) = g x) ->
    gather (length l) i f = concat (g <$> l).
Proof.
  induction l as [|x l IH]; intros i Hf; cbn [length gather fmap list_fmap concat];
    [reflexivity|].
  rewrite <- (Hf 0%nat x eq_refl), Z.add_0_r. f_equal.
  apply IH. intros k y Hk. rewrite <- (Hf (S k) y Hk). f_equal. lia.
Qed.

(** The uncompressed pass over a strip that lies inside the buffer. *)
Lemma raw_strip_values (buffer strip : list byte) (littleEndian : bool) (off : Z) :
  holds buffer off strip ->
  gather (Z.to_nat (byteLength strip / 2)) 0
    (fun i =>
       if off + i * 2 + 2 <=? byteLength buffer
       then [F32.round (reflectance
               (to_int16 (combine_bytes littleEndian (bytes_at buffer (off + i * 2) 2))))]
       else [])
  = strip_values strip littleEndian.
Proof.
  intros (pre & post & -> & <-). unfold strip_values. apply gather_ext. intros j Hj.
  assert (0 <= byteLength strip) by (unfold byteLength; lia).
  assert (j * 2 + 2 <= byteLength strip).
  { pose proof (Z.mul_div_le (byteLength strip) 2 ltac:(lia)).
    assert (j + 1 <= byteLength strip / 2) by lia. lia. }
  assert (byteLength (pre ++ strip ++ post)
          = byteLength pre + byteLength strip + byteLength post) as Hlen
    by (unfold byteLength; rewrite !length_app; lia).
  assert (0 <= byteLength post) by (unfold byteLength; lia).
  destruct (Z.leb_spec (byteLength pre + j * 2 + 2) (byteLength (pre ++ strip ++ post)));
    [|lia].
  rewrite bytes_at_app_r by lia.
  rewrite (bytes_at_ext (strip ++ post) strip); [reflexivity|].
  intros p Hp. apply u8_get_app_l. lia.
Qed.

Lemma tiff_image_strips_split (littleEndian : bool)
  (width height compression rowsPerStrip : Z) (strips : list (list byte)) :
  let n := Z.of_nat (length strips) in
  exists hdr,
    tiff_image_strips littleEndian width height compression rowsPerStrip strips
    = hdr ++ long_bytes littleEndian (strip_starts (122 + 8 * n) strips)
          ++ long_bytes littleEndian (byteLength <$> strips) ++ concat strips
    /\ byteLength hdr = 122.
Proof.
  intros n.
  exists ((if littleEndian then [Byte.x49; Byte.x49] else [Byte.x4d; Byte.x4d])
          ++ split_bytes littleEndian 2 42 ++ split_bytes littleEndian 4 8
          ++ split_bytes littleEndian 2 9
          ++ concat (tiff_entry littleEndian
                       <$> [Scalar 256 4 width; Scalar 257 4 height; Scalar 258 3 16;
                            Scalar 259 3 compression; Scalar 262 3 1;
                            Longs 273 122 (strip_starts (122 + 8 * n) strips);
                            Scalar 277 3 1; Scalar 278 4 rowsPerStrip;
                            Longs 279 (122 + 4 * n) (byteLength <$> strips)])
          ++ split_bytes littleEndian 4 0).
  split.
  - unfold tiff_image_strips, tiff_file. fold n. by rewrite <- !app_assoc.
  - unfold byteLength. cbn [fmap list_fmap concat].
    rewrite !length_app, !length_tiff_entry, !length_split_bytes.
    by destruct littleEndian.
Qed.

Lemma tiff_image_strips_header (littleEndian : bool)
  (width height compression rowsPerStrip : Z) (strips : list (list byte)) :
  let n := Z.of_nat (length strips) in
  0 <= width < 2 ^ 32 -> 0 <= height < 2 ^ 32 -> 0 <= compression < 2 ^ 16 ->
  0 <= rowsPerStrip < 2 ^ 32 -> length strips <> 1%nat ->
  122 + 8 * n + byteLength (concat strips) < 2 ^ 32 ->
  read_header
    (tiff_image_strips littleEndian width height compression rowsPerStrip strips) height
  = Returned (littleEndian,
              {| compression := compression;
                 stripOffsets := strip_starts (122 + 8 * n) strips;
                 stripByteCounts := byteLength <$> strips;
                 rowsPerStrip := rowsPerStrip |}).
Proof.
  intros n Hw Hh Hc Hr Hmany Hsize.
  destruct (tiff_image_strips_split littleEndian width height compression rowsPerStrip strips)
    as (hdr & Hsplit & Hhdr). fold n in Hsplit.
  pose proof (byteLength_concat_nonneg strips) as Hpos.
  unfold tiff_image_strips in *. fold n in Hsplit |- *.
  rewrite read_header_written; [reflexivity | | cbn; lia].
  repeat (apply Forall_cons; split; [cbn; lia|]).
  apply Forall_cons. split.
  { cbn [entry_fits]. split; [by left|]. split; [lia|].
    rewrite length_strip_starts. split; [exact Hmany|]. split; [lia|]. split.
    - eapply Forall_impl; [apply (strip_starts_range strips (122 + 8 * n)); lia|].
      cbn. intros v Hv. lia.
    - rewrite Hsplit. by eexists hdr, _. }
  repeat (apply Forall_cons; split; [cbn; lia|]).
  apply Forall_cons. split; [|constructor].
  cbn [entry_fits]. split; [by right|]. split; [lia|].
  rewrite length_fmap. split; [exact Hmany|]. split; [lia|]. split.
  - eapply Forall_impl; [apply byteLength_range|]. cbn. intros v Hv. lia.
  - rewrite Hsplit.
    exists (hdr ++ long_bytes littleEndian (strip_starts (122 + 8 * n) strips)), (concat strips).
    split; [by rewrite <- !app_assoc|].
    unfold byteLength in *. rewrite length_app, length_long_bytes, length_strip_starts. lia.
Qed.

(** Where a strip of the written image is. *)
Lemma tiff_image_strips_holds (littleEndian : bool)
  (width height compression rowsPerStrip : Z) (strips : list (list byte)) (k : nat)
  (strip : list byte) :
  strips !! k = Some strip ->
  exists off,
    strip_starts (122 + 8 * Z.of_nat (length strips)) strips !! k = Some off
    /\ 0 <= off
    /\ holds (tiff_image_strips littleEndian width height compression rowsPerStrip strips)
         off strip.
Proof.
  intros Hk.
  destruct (tiff_image_strips_split littleEndian width height compression rowsPerStrip strips)
    as (hdr & -> & Hhdr).
  set (pre := hdr ++ long_bytes littleEndian
                       (strip_starts (122 + 8 * Z.of_nat (length strips)) strips)
                  ++ long_bytes littleEndian (byteLength <$> strips)).
  assert (byteLength pre = 122 + 8 * Z.of_nat (length strips)) as Hpre.
  { subst pre. unfold byteLength in *.
    rewrite !length_app, !length_long_bytes, length_strip_starts, length_fmap. lia. }
  destruct (strip_starts_holds strips pre [] k strip Hk) as (off & Hoff & Hholds).
  rewrite Hpre in Hoff. exists off. split; [exact Hoff|]. split.
  - destruct Hholds as (p & q & _ & <-). unfold byteLength. lia.
  - subst pre. by rewrite app_nil_r, <- !app_assoc in Hholds.
Qed.

Lemma concat_strip_values_int16 (littleEndian : bool) (rows : list (list Z)) :
  Forall (Forall (fun z => - 2 ^ 15 <= z < 2 ^ 15)) rows ->
  concat ((fun row => strip_values (int16_bytes littleEndian row) littleEndian) <$> rows)
  = (fun z => F32.round (reflectance z)) <$> concat rows.
Proof.
  induction 1 as [|row rows Hrow _ IH]; cbn [fmap list_fmap concat]; [reflexivity|].
  by rewrite fmap_app, IH, strip_values_int16.
Qed.

(** An image written in several strips, uncompressed or each strip
    compressed by the reference LZW encoder, is read back whole: the strip
    offsets and byte counts are fetched from where the directory points
    to, and the samples of the strips follow one another in the raster. *)
Theorem tiff_strips_round_trip
  (decompressionStream : CompressionFormat -> list byte -> option (list byte))
  (littleEndian : bool) (w h : nat) (stripRows scheme : Z) (rows : list (list Z)) :
  let strips :=
    (fun row => strip_encode scheme (int16_bytes littleEndian row)) <$> rows in
  scheme = 1 \/ scheme = 5 ->
  length rows <> 1%nat -> Forall (fun row => row <> []) rows ->
  Forall (Forall (fun z => - 2 ^ 15 <= z < 2 ^ 15)) rows ->
  length (concat rows) = (w * h)%nat ->
  Z.of_nat w < 2 ^ 32 -> Z.of_nat h < 2 ^ 32 -> 0 <= stripRows < 2 ^ 32 ->
  122 + 8 * Z.of_nat (length rows) + byteLength (concat strips) < 2 ^ 32 ->
  parseTiffInt16ToFloat32 decompressionStream
    (tiff_image_strips littleEndian (Z.of_nat w) (Z.of_nat h) scheme stripRows strips)
    (Z.of_nat w) (Z.of_nat h)
  = Returned ((fun z => F32.round (reflectance z)) <$> concat rows).
Proof.
  intros strips Hc Hmany Hrows Hrange Hlen Hw Hh Hr Hsize.
  assert (length strips = length rows) as Hn by (subst strips; apply length_fmap).
  set (buffer := tiff_image_strips littleEndian (Z.of_nat w) (Z.of_nat h) scheme
                   stripRows strips).
  set (ifd := {| compression := scheme;
                 stripOffsets := strip_starts (122 + 8 * Z.of_nat (length strips)) strips;
                 stripByteCounts := byteLength <$> strips;
                 rowsPerStrip := stripRows |}).
  assert (read_header buffer (Z.of_nat h) = Returned (littleEndian, ifd)) as Hheader.
  { apply tiff_image_strips_header; first [lia | by rewrite Hn]. }
  assert (ifd_unsigned ifd) as Hu.
  { split; cbn [ifd stripOffsets stripByteCounts].
    - eapply Forall_impl; [apply strip_starts_range; lia|]. cbn. intros v Hv. lia.
    - eapply Forall_impl; [apply byteLength_range|]. cbn. intros v Hv. lia. }
  destruct (parse_after_header decompressionStream buffer (Z.of_nat w) (Z.of_nat h)
              littleEndian ifd ltac:(lia) Hu Hheader) as (raster & -> & _ & _ & Hcodec & _).
  assert (codec_values decompressionStream buffer littleEndian (Z.of_nat w)
            (Z.of_nat w * Z.of_nat h) ifd
          = (fun z => F32.round (reflectance z)) <$> concat rows) as Hvalues.
  { rewrite <- (concat_strip_values_int16 littleEndian) by assumption.
    unfold codec_values. cbn [ifd compression].
    destruct Hc as [-> | ->]; cbn [Z.eqb Pos.eqb].
    - unfold raw_values. cbn [ifd stripOffsets stripByteCounts].
      rewrite length_strip_starts, Hn. apply gather_lookup. intros k row Hk.
      assert (strips !! k = Some (int16_bytes littleEndian row)) as Hstrip
        by (subst strips; rewrite list_lookup_fmap, Hk; reflexivity).
      destruct (tiff_image_strips_holds littleEndian (Z.of_nat w) (Z.of_nat h) 1
                  stripRows strips k _ Hstrip) as (off & Hoff & Hoff0 & Hholds).
      rewrite Hn in Hoff. unfold num_get. destruct (Z.ltb_spec (0 + Z.of_nat k) 0); [lia|].
      replace (Z.to_nat (0 + Z.of_nat k)) with k by lia.
      rewrite Hoff, list_lookup_fmap, Hstrip.
      cbn [fmap option_fmap option_map or_zero default from_option id count_or_all].
      assert (byteLength (int16_bytes littleEndian row) <> 0) as Hne.
      { unfold byteLength. rewrite length_int16_bytes.
        pose proof (Forall_lookup_1 _ _ _ _ Hrows Hk) as Hrow. cbn in Hrow.
        destruct row; [done | cbn [length]; lia]. }
      destruct (Z.eqb_spec (byteLength (int16_bytes littleEndian row)) 0); [done|].
      by apply raw_strip_values.
    - unfold lzw_values. cbn [ifd stripOffsets].
      rewrite length_strip_starts, Hn. apply gather_lookup. intros k row Hk.
      assert (strips !! k = Some (lzw_encode (int16_bytes littleEndian row))) as Hstrip
        by (subst strips; rewrite list_lookup_fmap, Hk; reflexivity).
      destruct (tiff_image_strips_holds littleEndian (Z.of_nat w) (Z.of_nat h) 5
                  stripRows strips k _ Hstrip) as (off & Hoff & Hoff0 & Hholds).
      f_equal. unfold lzw_strip_data. cbn [ifd stripOffsets stripByteCounts].
      unfold num_get. destruct (Z.ltb_spec (0 + Z.of_nat k) 0); [lia|].
      replace (Z.to_nat (0 + Z.of_nat k)) with k by lia.
      rewrite Hoff, list_lookup_fmap, Hstrip.
      cbn [fmap option_fmap option_map or_zero default from_option id lzw_strip].
      fold buffer in Hholds. by rewrite decompressLZW_holds. }
  rewrite Hvalues in Hcodec.
  rewrite padded_exact in Hcodec by (rewrite length_fmap; lia).
  rewrite Hcodec; [reflexivity|].
  unfold uses_fallback. cbn [ifd compression].
  by destruct Hc as [-> | ->].
Qed.

(** ** Files of the reference writer: examples *)

(** A file that declares 640 x 480 pixels, parsed for two pixels, with a
    strip of three bytes: the first sample, 10000, is there, the second
    is cut after its first byte. *)
Lemma tiff_uncompressed_any_strip_witness :
  exists raster,
    parseTiffInt16ToFloat32 (fun _ _ => None)
      (tiff_image true 640 480 1 [Byte.x10; Byte.x27; Byte.xff]) 2 1 = Returned raster
    /\ raster !! 0%nat = Some (F32.round (reflectance 10000))
    /\ raster !! 1%nat = Some F64.zero.
Proof.
  destruct (tiff_uncompressed_any_strip (fun _ _ => None) true 640 480 2 1
              [Byte.x10; Byte.x27; Byte.xff]) as (raster & Hparse & _ & Hvalues);
    [reflexivity | reflexivity | reflexivity |].
  exists raster. split; [exact Hparse|]. split.
  - exact (Hvalues 0%nat ltac:(lia)).
  - exact (Hvalues 1%nat ltac:(lia)).
Defined.

(** A big-endian file with the two samples 1.0 and -0.5 in an LZW strip. *)
Lemma tiff_single_strip_round_trip_witness :
  parseTiffInt16ToFloat32 (fun _ _ => None)
    (tiff_image false 2 1 5 (lzw_encode (int16_bytes false [10000; -5000]))) 2 1
  = Returned [F32.round (reflectance 10000); F32.round (reflectance (-5000))].
Proof.
  apply (tiff_single_strip_round_trip (fun _ _ => None) false 2 1 5 [10000; -5000]).
  - by right.
  - reflexivity.
  - repeat constructor; lia.
  - reflexivity.
  - reflexivity.
  - by vm_compute.
Defined.

(** A 2 x 2 image in two uncompressed strips of one row each. *)
Lemma tiff_strips_round_trip_witness :
  parseTiffInt16ToFloat32 (fun _ _ => None)
    (tiff_image_strips true 2 2 1 1 [int16_bytes true [1; 2]; int16_bytes true [3; 4]]) 2 2
  = Returned ((fun z => F32.round (reflectance z)) <$> [1; 2; 3; 4]).
Proof.
  apply (tiff_strips_round_trip (fun _ _ => None) true 2 2 1 1 [[1; 2]; [3; 4]]).
  - by left.
  - discriminate.
  - repeat constructor; discriminate.
  - repeat constructor; lia.
  - reflexivity.
  - reflexivity.
  - reflexivity.
  - lia.
  - by vm_compute.
Defined.

(** A decompressor that takes the zlib format only: the raw format is
    tried first and refused, the second attempt gives the sample. *)
Lemma tiff_deflate_round_trip_witness :
  let inflate := fun format (_ : list byte) =>
    match format with
    | deflate => Some (int16_bytes true [10000])
    | deflate_raw => None
    end in
  parseTiffInt16ToFloat32 inflate (tiff_image true 1 1 8 [Byte.x78; Byte.x9c]) 1 1
  = Returned [F32.round (reflectance 10000)].
Proof.
  intros inflate.
  apply (tiff_deflate_round_trip inflate true 1 1 [10000] [Byte.x78; Byte.x9c] 8).
  - by left.
  - reflexivity.
  - reflexivity.
  - repeat constructor; lia.
  - reflexivity.
  - reflexivity.
  - reflexivity.
Defined.

Lemma tiff_deflate_failure_zero_filled_witness :
  parseTiffInt16ToFloat32 (fun _ _ => None)
    (tiff_image true 2 2 32946 [Byte.x01; Byte.x02]) 2 2
  = Returned (replicate 4 F64.zero).
Proof.
  apply (tiff_deflate_failure_zero_filled (fun _ _ => None) true 2 2
           [Byte.x01; Byte.x02] 32946); (by right) || reflexivity.
Defined.

(** A directory with the two size tags only. *)
Lemma tiff_without_strips_witness :
  parseTiffInt16ToFloat32 (fun _ _ => None)
    (tiff_file false [Scalar 256 4 2; Scalar 257 4 2] [Byte.x10; Byte.x27]) 2 2
  = Returned (replicate 4 F64.zero).
Proof.
  apply (tiff_without_strips (fun _ _ => None) false [Scalar 256 4 2; Scalar 257 4 2]
           [Byte.x10; Byte.x27] 2 2).
  - repeat constructor; cbn; lia.
  - repeat constructor; cbn; lia.
  - reflexivity.
Defined.

(** ** The binary string *)

Lemma string_of_list_byte_app (a b : list byte) :
  string_of_list_byte (a ++ b)
  = String.append (string_of_list_byte a) (string_of_list_byte b).
Proof.
  induction a as [|x a IH]; [reflexivity|].
  unfold string_of_list_byte in *.
  cbn [map app string_of_list_ascii String.append]. by rewrite IH.
Qed.

Lemma u8_slice_chunk (bytes : list byte) (i chunkSize : Z) :
  0 <= i -> 0 <= chunkSize ->
  take (Z.to_nat i) bytes ++ u8_slice bytes i (i + chunkSize)
  = take (Z.to_nat (i + chunkSize)) bytes.
Proof.
  intros Hi Hc. unfold u8_slice, byteLength.
  destruct (Z.ltb_spec i 0); [lia|]. destruct (Z.ltb_spec (i + chunkSize) 0); [lia|].
  destruct (Z.le_gt_cases (Z.of_nat (length bytes)) i) as [Hpast|Hin].
  - rewrite !Z.min_r by lia.
    replace (Z.to_nat (Z.of_nat (length bytes) - Z.of_nat (length bytes))) with 0%nat by lia.
    rewrite take_0, app_nil_r, !take_ge by lia. reflexivity.
  - rewrite (Z.min_l i) by lia.
    rewrite <- (take_drop (Z.to_nat i) (take (Z.to_nat (i + chunkSize)) bytes)).
    rewrite take_take, skipn_firstn_comm.
    replace (Z.to_nat i `min` Z.to_nat (i + chunkSize))%nat with (Z.to_nat i) by lia.
    f_equal.
    destruct (Z.le_gt_cases (i + chunkSize) (Z.of_nat (length bytes))).
    + rewrite Z.min_l by lia. f_equal. lia.
    + rewrite Z.min_r by lia.
      rewrite (take_ge (drop _ _)) by (rewrite length_drop; lia).
      rewrite take_ge by (rewrite length_drop; lia). reflexivity.
Qed.

Lemma binary_loop_all (bytes : list byte) (chunkSize : Z) (fuel : nat) :
  0 < chunkSize ->
  forall i : Z,
    0 <= i -> Z.of_nat (length bytes) - i <= Z.of_nat fuel ->
    binary_loop fuel bytes chunkSize i (string_of_list_byte (take (Z.to_nat i) bytes))
    = string_of_list_byte bytes.
Proof.
  intros Hc. induction fuel as [|fuel IH]; intros i Hi Hfuel; cbn [binary_loop].
  - rewrite take_ge by lia. reflexivity.
  - unfold byteLength.
    destruct (Z.ltb_spec i (Z.of_nat (length bytes))).
    + unfold fromCharCode.
      rewrite <- string_of_list_byte_app, u8_slice_chunk by lia.
      apply IH; lia.
    + rewrite take_ge by lia. reflexivity.
Qed.

(** The binary string holds every byte of the image once, in order,
    whatever the length: a last chunk shorter than 8192 bytes and an empty
    image included. *)
Theorem binary_string_all_bytes (bytes : list byte) :
  binary_string bytes = string_of_list_byte bytes
  /\ list_byte_of_string (binary_string bytes) = bytes.
Proof.
  assert (binary_string bytes = string_of_list_byte bytes) as H.
  { unfold binary_string.
    change EmptyString with (string_of_list_byte (take (Z.to_nat 0) bytes)).
    apply binary_loop_all; lia. }
  split; [exact H|]. rewrite H. apply list_byte_of_string_of_list_byte.
Qed.

(** ** The date strings *)

Lemma includes_char_app (c : ascii) (s t : string) :
  includes_char c (String.append s t) = includes_char c s || includes_char c t.
Proof.
  induction s as [|c' s IH]; cbn [String.append includes_char]; [reflexivity|].
  by rewrite IH, orb_assoc.
Qed.

(** A date that is given comes back with a time in it, and formatting it
    again, as a start or as an end, changes nothing; a date that has a
    time already is returned as it is. *)
Theorem formatDate_settles (nowIso monthAgoIso : string) (c : ascii) (s : string)
  (isEnd : bool) :
  let dateStr := String c s in
  let formatted := formatDate nowIso monthAgoIso (Some dateStr) isEnd in
  includes_char "T" formatted = true
  /\ (forall isEnd', formatDate nowIso monthAgoIso (Some formatted) isEnd' = formatted)
  /\ (includes_char "T" dateStr = true -> formatted = dateStr)
  /\ (includes_char "T" dateStr = false ->
      formatted = String.append dateStr (if isEnd then "T23:59:59Z" else "T00:00:00Z")).
Proof.
  intros dateStr formatted.
  assert (includes_char "T" formatted = true /\ exists c' s', formatted = String c' s')
    as [HT (c' & s' & Hshape)].
  { subst formatted dateStr. unfold formatDate.
    destruct (includes_char "T" (String c s)) eqn:Hhas; [by eauto|].
    destruct isEnd; (split; [rewrite includes_char_app, Hhas; reflexivity | by eexists _, _]). }
  split; [exact HT|]. split.
  { intros isEnd'. rewrite Hshape in HT |- *. unfold formatDate at 1. by rewrite HT. }
  subst formatted dateStr. unfold formatDate.
  split; intros ->; [reflexivity | by destruct isEnd].
Qed.
